(** * markethub: the product router (price-data pipeline)

    A shallow embedding of the Express router that serves the product
    endpoints: the sponsored-search gateway (price parser, offer
    normaliser, lowest-price reducer), the cache-aside product listing and
    the create / read / update / delete handlers; and of the search page
    that calls them.

    Modelling conventions.
    - A JavaScript string is the sequence of the bytes of its UTF-8
      encoding (a Rocq string); the strings are well-formed.
    - JavaScript numbers are exact rationals ([Q]), and a decimal literal
      denotes itself: the numbers the program meets are decimals with
      finitely many digits.  Not-a-number only arises as the result of
      [parseFloat], where it is [None].  Rounding to binary64, the
      infinities and the sign of zero are abstracted away: [-0] and [0]
      are both [0].  Equality of numbers is [Qeq].
    - An awaited call either returns or throws; a thrown error carries its
      [message].  The messages of the errors the engine raises itself are
      those of V8, the engine of Node.  Handlers are functions of the
      request, the outcome of the collaborators during that request, and
      the state of the two back-ends (document store and cache).  A
      handler runs to completion before the next one starts. *)

From Stdlib Require Import String Ascii List ZArith QArith Qreduction Lia Permutation Sorted Bool.
From stdpp Require Import gmap strings.
Import ListNotations.

Set Warnings "-register-all".

Local Open Scope string_scope.
Local Open Scope list_scope.

(** ** JavaScript values *)

Module JS.

(** A value of the language: the JSON values, [undefined], and a built-in
    function (reached only through the prototype of a string). *)
Inductive value : Type :=
| VUndefined
| VNull
| VBool (b : bool)
| VNum (n : Q)
| VStr (s : string)
| VArr (elems : list value)
| VObj (fields : list (string * value))
| VNative (name : string).

(** The outcome of evaluating code that may throw. *)
Inductive outcome (A : Type) : Type :=
| Returned (a : A)
| Threw (message : option string).
Arguments Returned {A} a.
Arguments Threw {A} message.

Definition obind {A B} (o : outcome A) (k : A -> outcome B) : outcome B :=
  match o with
  | Returned a => k a
  | Threw e => Threw e
  end.

Definition string_truthy (s : string) : bool :=
  match s with EmptyString => false | String _ _ => true end.

Definition num_truthy (n : Q) : bool := negb (Qeq_bool n 0).

(** ToBoolean. *)
Definition truthy (v : value) : bool :=
  match v with
  | VUndefined | VNull => false
  | VBool b => b
  | VNum n => num_truthy n
  | VStr s => string_truthy s
  | VArr _ | VObj _ | VNative _ => true
  end.

(** [a || b] on values already evaluated (the operands here are property
    reads and literals, whose evaluation order cannot be observed). *)
Definition or (a b : value) : value := if truthy a then a else b.

(** The own property [k] of a record, if it has one. *)
Fixpoint own (k : string) (fields : list (string * value)) : option value :=
  match fields with
  | [] => None
  | (k', v) :: rest => if String.eqb k k' then Some v else own k rest
  end.

Fixpoint assoc (k : string) (fields : list (string * value)) : value :=
  match fields with
  | [] => VUndefined
  | (k', v) :: rest => if String.eqb k k' then v else assoc k rest
  end.

(** Property read [v.k].  Reading a property of [null] or [undefined]
    throws a TypeError.  Inherited properties are modelled for the names
    the router and the page read only: of those, strings inherit [link]
    (String.prototype.link) and a function has its [name]. *)
Definition getprop (v : value) (k : string) : outcome value :=
  match v with
  | VUndefined | VNull =>
      Threw (Some ("Cannot read properties of " +:+
                   match v with VNull => "null" | _ => "undefined" end +:+
                   " (reading '" +:+ k +:+ "')"))
  | VObj fields => Returned (assoc k fields)
  | VStr _ => Returned (if String.eqb k "link" then VNative "link" else VUndefined)
  | VNative name => Returned (if String.eqb k "name" then VStr name else VUndefined)
  | _ => Returned VUndefined
  end.

(** Optional chaining [v?.k]. *)
Definition getprop_opt (v : value) (k : string) : value :=
  match getprop v k with
  | Returned x => x
  | Threw _ => VUndefined
  end.

(** *** Strings *)

(** The text of an empty string literal in a message of the engine: two
    double quotes. *)
Definition empty_literal : string :=
  String (ascii_of_nat 34) (String (ascii_of_nat 34) "").

Fixpoint rev_string (s acc : string) : string :=
  match s with
  | EmptyString => acc
  | String c rest => rev_string rest (String c acc)
  end.

Definition is_digit (c : ascii) : bool :=
  let n := nat_of_ascii c in (48 <=? n)%nat && (n <=? 57)%nat.

Definition digit_value (c : ascii) : Z := Z.of_nat (nat_of_ascii c) - 48.

(** White space and line terminators of one byte: U+0009 to U+000D and
    the space. *)
Definition is_space (c : ascii) : bool :=
  let n := nat_of_ascii c in
  ((9 <=? n)%nat && (n <=? 13)%nat) || (n =? 32)%nat.

(** Of two bytes: the no-break space U+00A0. *)
Definition is_space2 (c1 c2 : ascii) : bool :=
  (nat_of_ascii c1 =? 194)%nat && (nat_of_ascii c2 =? 160)%nat.

(** Of three bytes: U+1680, U+2000 to U+200A, the line and paragraph
    separators U+2028 and U+2029, U+202F, U+205F, U+3000 and the byte
    order mark U+FEFF. *)
Definition is_space3 (c1 c2 c3 : ascii) : bool :=
  let a := nat_of_ascii c1 in
  let b := nat_of_ascii c2 in
  let c := nat_of_ascii c3 in
  ((a =? 225) && (b =? 154) && (c =? 128))%nat
  || ((a =? 226) && (b =? 128)
      && (((128 <=? c) && (c <=? 138)) || (c =? 168) || (c =? 169) || (c =? 175)))%nat
  || ((a =? 226) && (b =? 129) && (c =? 159))%nat
  || ((a =? 227) && (b =? 128) && (c =? 128))%nat
  || ((a =? 239) && (b =? 187) && (c =? 191))%nat.

(** [s.trimStart()] *)
Fixpoint trim_start (s : string) : string :=
  match s with
  | String c1 r1 =>
      if is_space c1 then trim_start r1
      else
        match r1 with
        | String c2 r2 =>
            if is_space2 c1 c2 then trim_start r2
            else
              match r2 with
              | String c3 r3 => if is_space3 c1 c2 c3 then trim_start r3 else s
              | EmptyString => s
              end
        | EmptyString => s
        end
  | EmptyString => s
  end.

(** [trimStart] of a string read from its end: the bytes of a character
    come last byte first. *)
Fixpoint trim_start_rev (s : string) : string :=
  match s with
  | String c1 r1 =>
      if is_space c1 then trim_start_rev r1
      else
        match r1 with
        | String c2 r2 =>
            if is_space2 c2 c1 then trim_start_rev r2
            else
              match r2 with
              | String c3 r3 =>
                  if is_space3 c3 c2 c1 then trim_start_rev r3 else s
              | EmptyString => s
              end
        | EmptyString => s
        end
  | EmptyString => s
  end.

(** [s.trim()]: white space and line terminators are removed at both
    ends. *)
Definition trim (s : string) : string :=
  rev_string (trim_start_rev (rev_string (trim_start s) "")) "".

(** The characters of a string, in order: a byte that does not continue
    a character begins one. *)
Definition continues (c : ascii) : bool :=
  let n := nat_of_ascii c in ((128 <=? n) && (n <=? 191))%nat.

Fixpoint split_chars (s : string) : string * list string :=
  match s with
  | EmptyString => ("", [])
  | String c rest =>
      let '(pending, chars) := split_chars rest in
      if continues c then (String c pending, chars)
      else ("", String c pending :: chars)
  end.

Definition characters (s : string) : list string :=
  let '(pending, chars) := split_chars s in
  if string_truthy pending then pending :: chars else chars.

(** Lower case of the letters [A] to [Z]; every other byte stays. *)
Definition ascii_lower (c : ascii) : ascii :=
  let n := nat_of_ascii c in
  if ((65 <=? n)%nat && (n <=? 90)%nat)%bool then ascii_of_nat (n + 32) else c.

Fixpoint lower (s : string) : string :=
  match s with
  | EmptyString => EmptyString
  | String c rest => String (ascii_lower c) (lower rest)
  end.

(** *** Number to string *)

Definition digit_char (d : Z) : ascii := ascii_of_nat (48 + Z.to_nat d).

Fixpoint nat_digits (fuel : nat) (n : Z) (acc : string) : string :=
  match fuel with
  | O => acc
  | S fuel' =>
      let acc' := String (digit_char (n mod 10)) acc in
      if (n / 10 =? 0)%Z then acc' else nat_digits fuel' (n / 10) acc'
  end.

(** Decimal digits of a non-negative integer. *)
Definition Z_digits (n : Z) : string :=
  nat_digits (S (Z.to_nat (Z.log2 n))) n "".

(** Digits after the decimal point of [r / d], for [0 <= r < d]; the
    last one is not [0]. *)
Fixpoint frac_digits (fuel : nat) (r d : Z) : string :=
  match fuel with
  | O => ""
  | S fuel' =>
      if (r =? 0)%Z then ""
      else String (digit_char (r * 10 / d)) (frac_digits fuel' ((r * 10) mod d) d)
  end.

Fixpoint drop_zeros (s : string) : string :=
  match s with
  | String c rest => if Ascii.eqb c "0" then drop_zeros rest else s
  | EmptyString => s
  end.

Definition drop_trailing_zeros (s : string) : string :=
  rev_string (drop_zeros (rev_string s "")) "".

Fixpoint leading_zeros (s : string) : nat :=
  match s with
  | String c rest => if Ascii.eqb c "0" then S (leading_zeros rest) else 0
  | EmptyString => 0
  end.

(** The significant digits with a point after the first, when there is
    more than one. *)
Definition mantissa (digits : string) : string :=
  match digits with
  | String c (String c' rest) => String c ("." +:+ String c' rest)
  | _ => digits
  end.

(** Number::toString in radix 10.  A number whose magnitude lies in
    [1e-6, 1e21), and zero, are printed in positional notation: the
    integer part and, after a point, the digits of the fraction.  The
    others are printed in exponent notation: the significant digits, with
    a point after the first, then [e], the sign of the exponent and the
    exponent.  The fuel of [frac_digits] exceeds the number of digits a
    finite expansion over the denominator has. *)
Definition Number_toString (n : Q) : string :=
  let num := Qnum n in
  let den := Z.pos (Qden n) in
  let a := Z.abs num in
  let ip := Z_digits (a / den) in
  let fp := frac_digits (Z.to_nat (Z.log2 den) + 22) (a mod den) den in
  (if (num <? 0)%Z then "-" else "") +:+
  (if ((a / den <? 10 ^ 21) && ((a =? 0) || (den <=? a * 10 ^ 6)))%Z
   then ip +:+ (if string_truthy fp then "." +:+ fp else "")
   else if (0 <? a / den)%Z
   then mantissa (drop_trailing_zeros (ip +:+ fp)) +:+ "e+"
        +:+ Z_digits (Z.of_nat (String.length ip) - 1)
   else mantissa (drop_zeros fp) +:+ "e-"
        +:+ Z_digits (Z.of_nat (leading_zeros fp) + 1)).

Fixpoint join (sep : string) (parts : list string) : string :=
  match parts with
  | [] => ""
  | [p] => p
  | p :: rest => p +:+ sep +:+ join sep rest
  end.

(** [String(o)] for a record: the conversion asks for [o.toString] and
    then [o.valueOf].  A record has them from Object.prototype, which
    gives [[object Object]], unless it has an own property of that name;
    an own [toString] that is not a function leaves [valueOf], whose
    inherited version returns the record itself, and the conversion
    throws a TypeError.  The one function of the model,
    String.prototype.link, converts its receiver in turn, so with it as
    own [toString] or [valueOf] the conversion does not end and the
    engine raises a RangeError. *)
Definition object_text (fields : list (string * value)) : outcome string :=
  match own "toString" fields with
  | None => Returned "[object Object]"
  | Some (VNative _) => Threw (Some "Maximum call stack size exceeded")
  | Some _ =>
      match own "valueOf" fields with
      | Some (VNative _) => Threw (Some "Maximum call stack size exceeded")
      | _ => Threw (Some "Cannot convert object to primitive value")
      end
  end.

(** [String(v)].  An array is printed by [join]: its elements in order,
    [null] and [undefined] as the empty string. *)
Fixpoint String_ (v : value) : outcome string :=
  match v with
  | VUndefined => Returned "undefined"
  | VNull => Returned "null"
  | VBool b => Returned (if b then "true" else "false")
  | VNum n => Returned (Number_toString n)
  | VStr s => Returned s
  | VArr elems =>
      obind
        ((fix each (l : list value) : outcome (list string) :=
            match l with
            | [] => Returned []
            | e :: rest =>
                obind (match e with
                       | VUndefined | VNull => Returned ""
                       | _ => String_ e
                       end)
                  (fun s => obind (each rest) (fun ss => Returned (s :: ss)))
            end) elems)
        (fun parts => Returned (join "," parts))
  | VObj fields => object_text fields
  | VNative name => Returned ("function " +:+ name +:+ "() { [native code] }")
  end.

(** *** parseFloat *)

Fixpoint take_digits (s : string) : list ascii * string :=
  match s with
  | String c rest =>
      if is_digit c
      then let '(ds, tl) := take_digits rest in (c :: ds, tl)
      else ([], s)
  | EmptyString => ([], s)
  end.

Definition digits_value (ds : list ascii) : Z :=
  fold_left (fun acc c => (10 * acc + digit_value c)%Z) ds 0%Z.

Definition pow10 (n : nat) : positive := Z.to_pos (10 ^ Z.of_nat n).

(** The number written [ip.fp]. *)
Definition decimal (neg : bool) (ip fp : list ascii) : Q :=
  let m := digits_value (ip ++ fp) in
  Qred (Qmake (if neg then (- m)%Z else m) (pow10 (List.length fp))).

(** [parseFloat(s)] for [s] over the alphabet the stripping regex leaves
    (digits, [.] and [-]): an optional minus sign, digits, an optional
    point and more digits; the longest such prefix is read and the rest
    ignored.  [None] is NaN: no digit was found where the numeral had to
    start.  (On other alphabets the language also skips leading white
    space and reads [+], exponents and [Infinity]; those never reach
    this call.) *)
Definition parseFloat (s : string) : option Q :=
  let '(neg, s1) :=
    match s with
    | String c rest => if Ascii.eqb c "-" then (true, rest) else (false, s)
    | EmptyString => (false, s)
    end in
  let '(ip, s2) := take_digits s1 in
  let fp :=
    match s2 with
    | String c rest => if Ascii.eqb c "." then fst (take_digits rest) else []
    | EmptyString => []
    end in
  match ip, fp with
  | [], [] => None
  | _, _ => Some (decimal neg ip fp)
  end.

(** [Math.min(a, b)] on numbers. *)
Definition Math_min (a b : Q) : Q := if Qle_bool a b then a else b.

End JS.

Import JS.

(** ** Data model *)

(** A normalised sponsored offer, as built by the object literal in
    [results.map]. *)
Module Offer.
Record t : Type := mk
  { title : value;
    url : value;
    seller : value;
    price : option Q;          (* [null] or a number *)
    raw : value }.
End Offer.

(** One element of [priceHistory]. *)
Module HistoryEntry.
Record t : Type := mk
  { price : Q;
    date : N }.
End HistoryEntry.

(** Modelled from the spec: the Product schema ([models/Product]) is not
    part of the sources.  The document has the fields the handlers and the
    data model of the specification name.  The four fields copied from the
    request body keep the value the body carried; [metadata.views] starts
    at zero; dates are milliseconds since the epoch. *)
Module Product.
Record t : Type := mk
  { _id : string;
    name : value;
    url : value;
    platform : value;
    targetPrice : value;
    currentPrice : Q;
    userId : string;
    priceHistory : list HistoryEntry.t;
    views : N;                 (* [metadata.views] *)
    createdAt : N }.

Definition with_views (n : N) (p : t) : t :=
  mk (_id p) (name p) (url p) (platform p) (targetPrice p) (currentPrice p)
     (userId p) (priceHistory p) n (createdAt p).
End Product.

(** [req.body]: the JSON body as the schema reads it.  The first four
    fields are [VUndefined] when the body does not carry them; the others
    are [None] when it does not. *)
Module Body.
Record t : Type := mk
  { name : value;
    url : value;
    platform : value;
    targetPrice : value;
    currentPrice : option Q;
    userId : option string;
    priceHistory : option (list HistoryEntry.t);
    views : option N;
    createdAt : option N }.

Definition empty : t :=
  mk VUndefined VUndefined VUndefined VUndefined None None None None None.
End Body.

(** What the scraper resolves to when it has a price. *)
Record PriceData : Type := { scraped_price : Q }.

(** An entry of the key-value cache, as written by [setEx]: the
    serialised listing, the instant it was written and its expiry in
    seconds.  A JSON text is never the empty string, so the payload is
    kept as the listing it denotes and [if (cached)] tests presence. *)
Record CacheEntry : Type :=
  { payload : list Product.t;
    written : N;
    ex : N }.

Definition live (now : N) (c : CacheEntry) : bool :=
  (now <? written c + 1000 * ex c)%N.

(** The state the router acts on: the product collection in storage
    order, the cache behind the process-wide client handle ([None] when
    [getRedisClient()] yields no client), and the external requests sent
    so far. *)
Record World : Type :=
  { store : list Product.t;
    redis : option (gmap string CacheEntry);
    outbound : list string }.

(** What the collaborators do during one request. *)
Record Env : Type :=
  { now : N;                               (* [new Date()] *)
    fresh_id : string;                     (* the id of [new Product] *)
    scraped : outcome (option PriceData);  (* [await scrapePrice(...)] *)
    store_fault : option string;           (* the store rejects, with this message *)
    cache_fault : option string;           (* the cache rejects, with this message *)
    api_key : option string;               (* [process.env.SERPAPI_API_KEY] *)
    axios_get : string -> outcome value }. (* [resp.data], or the error thrown *)

Inductive body : Type :=
| BMessage (message : string)
| BError (message : string) (error : option string)
| BSponsored (items : list Offer.t) (lowestPrice : option Q)
| BProducts (products : list Product.t) (cached : bool)
| BProduct (product : Product.t)
| BMessageProduct (message : string) (product : Product.t)
| BRejected.

Record response : Type :=
  { status : nat;
    payload_of : body }.

(** [res.json(b)] and [res.status(s).json(b)]. *)
Definition json (b : body) : response := {| status := 200; payload_of := b |}.
Definition status_json (s : nat) (b : body) : response :=
  {| status := s; payload_of := b |}.

(** ** Handlers as state-and-exception computations *)

Definition M (A : Type) : Type := World -> outcome A * World.

Definition ret {A} (a : A) : M A := fun w => (Returned a, w).

Definition bind {A B} (m : M A) (k : A -> M B) : M B :=
  fun w =>
    match m w with
    | (Returned a, w') => k a w'
    | (Threw e, w') => (Threw e, w')
    end.

Definition lift {A} (o : outcome A) : M A := fun w => (o, w).

Declare Scope handler_scope.
Delimit Scope handler_scope with handler.
Notation "x <- m ;; k" := (bind m (fun x => k))
  (at level 100, m at next level, right associativity) : handler_scope.
Notation "m ;;; k" := (bind m (fun _ => k))
  (at level 100, right associativity) : handler_scope.

(** [try { body } catch (error) { res.status(500).json({message, error: error.message}) }] *)
Definition try_catch (message : string) (m : M response) : World -> response * World :=
  fun w =>
    match m w with
    | (Returned r, w') => (r, w')
    | (Threw e, w') => (status_json 500 (BError message e), w')
    end.

(** [a || b], the right operand evaluated only when needed. *)
Definition orM (a b : outcome value) : outcome value :=
  obind a (fun x => if truthy x then Returned x else b).
Infix "|||" := orM (at level 50, left associativity).

Fixpoint mapM {A B} (f : A -> outcome B) (l : list A) : outcome (list B) :=
  match l with
  | [] => Returned []
  | x :: rest =>
      obind (f x) (fun y => obind (mapM f rest) (fun ys => Returned (y :: ys)))
  end.

Notation "x <-- o ;; k" := (obind o (fun x => k))
  (at level 100, o at next level, right associativity) : handler_scope.

Local Open Scope handler_scope.

(** ** The sponsored-search gateway *)

Module Sponsored.

(** The characters the regex [/[^0-9.\-]/g] leaves in place. *)
Definition kept (c : ascii) : bool :=
  is_digit c || Ascii.eqb c "." || Ascii.eqb c "-".

(** [s.replace(/[^0-9.\-]/g, '')] *)
Fixpoint strip (s : string) : string :=
  match s with
  | EmptyString => EmptyString
  | String c rest => if kept c then String c (strip rest) else strip rest
  end.

(** The body of [if (priceRaw !== undefined && priceRaw !== null) ...]:
    the price stays [null] unless the stripped text parses.  It throws
    when [String(priceRaw)] does. *)
Definition parsePrice (priceRaw : value) : outcome (option Q) :=
  match priceRaw with
  | VUndefined | VNull => Returned None
  | _ => text <-- String_ priceRaw ;; Returned (parseFloat (strip text))
  end.

(** The callback of [results.map]. *)
Definition normalize (r : value) : outcome Offer.t :=
  priceRaw <-- (getprop r "price" ||| getprop r "extracted_price"
                ||| getprop r "price" ||| Returned VNull) ;;
  price <-- parsePrice priceRaw ;;
  title <-- (getprop r "title" ||| getprop r "product_title"
             ||| getprop r "name" ||| Returned (VStr "")) ;;
  url <-- (getprop r "link" ||| getprop r "product_link"
           ||| getprop r "offer_link" ||| getprop r "source"
           ||| Returned (VStr "")) ;;
  seller <-- (getprop r "source" ||| getprop r "merchant"
              ||| getprop r "store" ||| Returned (VStr "")) ;;
  Returned (Offer.mk title url seller price r).

(** The callback of [items.reduce], and the fold from [null]. *)
Definition lowest_step (acc : option Q) (it : Offer.t) : option Q :=
  match Offer.price it with
  | None => acc
  | Some p =>
      match acc with
      | None => Some p
      | Some a => Some (Math_min a p)
      end
  end.

Definition lowestPrice (items : list Offer.t) : option Q :=
  fold_left lowest_step items None.

(** [encodeURIComponent], byte by byte. *)
Definition unreserved (c : ascii) : bool :=
  let n := nat_of_ascii c in
  is_digit c
  || ((65 <=? n)%nat && (n <=? 90)%nat)
  || ((97 <=? n)%nat && (n <=? 122)%nat)
  || existsb (Ascii.eqb c)
       ["-"; "_"; "."; "!"; "~"; "*"; "'"; "("; ")"]%char.

Definition hex_char (n : nat) : ascii :=
  if (n <? 10)%nat then ascii_of_nat (48 + n) else ascii_of_nat (55 + n).

Fixpoint encodeURIComponent (s : string) : string :=
  match s with
  | EmptyString => EmptyString
  | String c rest =>
      let n := nat_of_ascii c in
      if unreserved c then String c (encodeURIComponent rest)
      else String "%" (String (hex_char (n / 16)) (String (hex_char (n mod 16))
             (encodeURIComponent rest)))
  end.

Definition search_url (q apiKey : string) : string :=
  "https://serpapi.com/search.json?engine=google_shopping&q="
  +:+ encodeURIComponent q +:+ "&api_key=" +:+ apiKey.

(** [await axios.get(url, { timeout: 10000 })], then [resp.data]: the
    request is recorded as sent, whatever comes back. *)
Definition axios (e : Env) (url : string) : M value :=
  fun w =>
    (axios_get e url,
     {| store := store w; redis := redis w; outbound := outbound w ++ [url] |}).

(** [(req.query.q || '').trim()]: a truthy parameter that is not a
    string (an array or a record, from a repeated or nested parameter)
    has no [trim]. *)
Definition query_text (q : value) : outcome string :=
  match JS.or q (VStr "") with
  | VStr s => Returned (trim s)
  | _ => Threw (Some ("(req.query.q || " +:+ empty_literal
                      +:+ ").trim is not a function"))
  end.

(** [resp.data?.shopping_results || []], as the receiver of [.map]. *)
Definition results_of (data : value) : outcome (list value) :=
  match JS.or (getprop_opt data "shopping_results") (VArr []) with
  | VArr results => Returned results
  | _ => Threw (Some "results.map is not a function")
  end.

Definition missing_query : response :=
  status_json 400 (BMessage "Missing query parameter `q`").

Definition not_configured : response :=
  status_json 500 (BMessage "SERPAPI_API_KEY not configured on server").

(** The handler of [GET /sponsored].  The router registers it twice; the
    two bodies differ in console output only. *)
Definition handler (e : Env) (q_param : value) : World -> response * World :=
  try_catch "Error fetching sponsored results"
    (q <- lift (query_text q_param) ;;
     if negb (string_truthy q) then ret missing_query
     else
       match api_key e with
       | None => ret not_configured
       | Some apiKey =>
           if negb (string_truthy apiKey) then ret not_configured
           else
             data <- axios e (search_url q apiKey) ;;
             results <- lift (results_of data) ;;
             items <- lift (mapM normalize results) ;;
             ret (json (BSponsored items (lowestPrice items)))
       end).

End Sponsored.

(** ** The product endpoints *)

Module Products.

Definition set_store (s : list Product.t) (w : World) : World :=
  {| store := s; redis := redis w; outbound := outbound w |}.

Definition set_cache (m : gmap string CacheEntry) (w : World) : World :=
  {| store := store w; redis := Some m; outbound := outbound w |}.

(** [`products:${req.userId}`] *)
Definition cacheKey (userId : string) : string := "products:" +:+ userId.

(** *** The cache client *)

(** Modelled from the spec: [config/redis] is not part of the sources.
    [getRedisClient()] yields the process-wide client handle or nothing;
    the handlers test the handle before every use. *)
Definition getRedisClient : M bool :=
  fun w => (Returned (match redis w with Some _ => true | None => false end), w).

(** A command sent through the handle: it rejects when the back-end does,
    and calling it without a handle is a TypeError. *)
Definition redis_cmd {A} (e : Env)
    (f : gmap string CacheEntry -> A * gmap string CacheEntry) : M A :=
  fun w =>
    match cache_fault e with
    | Some msg => (Threw (Some msg), w)
    | None =>
        match redis w with
        | None => (Threw (Some "Cannot read properties of null"), w)
        | Some m => let '(a, m') := f m in (Returned a, set_cache m' w)
        end
    end.

(** [redis.get(key)]: the value, unless none was set or it has expired. *)
Definition redis_get (e : Env) (key : string) : M (option (list Product.t)) :=
  redis_cmd e (fun m =>
    (match m !! key with
     | Some c => if live (now e) c then Some (payload c) else None
     | None => None
     end, m)).

(** [redis.setEx(key, seconds, value)] *)
Definition redis_setEx (e : Env) (key : string) (seconds : N)
    (v : list Product.t) : M unit :=
  redis_cmd e (fun m =>
    (tt, <[key := {| payload := v; written := now e; ex := seconds |}]> m)).

(** [redis.del(key)] *)
Definition redis_del (e : Env) (key : string) : M unit :=
  redis_cmd e (fun m => (tt, delete key m)).

(** *** The document store *)

Definition store_cmd {A} (e : Env)
    (f : list Product.t -> outcome A * list Product.t) : M A :=
  fun w =>
    match store_fault e with
    | Some msg => (Threw (Some msg), w)
    | None => let '(a, s') := f (store w) in (a, set_store s' w)
    end.

Definition owned (userId : string) (p : Product.t) : bool :=
  String.eqb (Product.userId p) userId.

Definition has_id (id : string) (p : Product.t) : bool :=
  String.eqb (Product._id p) id.

(** [{ _id: id, userId: userId }] *)
Definition selects (id userId : string) (p : Product.t) : bool :=
  has_id id p && owned userId p.

(** [.sort({ createdAt: -1 })]: newest first; documents created at the
    same instant keep their storage order. *)
Fixpoint insert_desc (p : Product.t) (l : list Product.t) : list Product.t :=
  match l with
  | [] => [p]
  | q :: rest =>
      if (Product.createdAt q <=? Product.createdAt p)%N
      then p :: q :: rest
      else q :: insert_desc p rest
  end.

Definition sort_desc (l : list Product.t) : list Product.t :=
  fold_right insert_desc [] l.

(** [Product.find({ userId }).sort({ createdAt: -1 }).limit(100)] *)
Definition listing (userId : string) (s : list Product.t) : list Product.t :=
  firstn 100 (sort_desc (List.filter (owned userId) s)).

Definition Product_find (e : Env) (userId : string) : M (list Product.t) :=
  store_cmd e (fun s => (Returned (listing userId s), s)).

(** [product.save()] of a new document: the collection refuses a second
    document with the same [_id]. *)
Definition Product_insert (e : Env) (p : Product.t) : M unit :=
  store_cmd e (fun s =>
    if existsb (has_id (Product._id p)) s
    then (Threw (Some "E11000 duplicate key error"), s)
    else (Returned tt, s ++ [p])).

(** [Product.findOne({ _id, userId })] *)
Definition Product_findOne (e : Env) (id userId : string) : M (option Product.t) :=
  store_cmd e (fun s => (Returned (List.find (selects id userId) s), s)).

Fixpoint update_first (test : Product.t -> bool) (f : Product.t -> Product.t)
    (l : list Product.t) : list Product.t :=
  match l with
  | [] => []
  | p :: rest => if test p then f p :: rest else p :: update_first test f rest
  end.

Fixpoint remove_first (test : Product.t -> bool) (l : list Product.t) : list Product.t :=
  match l with
  | [] => []
  | p :: rest => if test p then rest else p :: remove_first test rest
  end.

(** [product.save()] of a loaded document whose only modified path is
    [metadata.views]: that path is written to the stored document with
    the same [_id]. *)
Definition Product_save_views (e : Env) (p : Product.t) : M unit :=
  store_cmd e (fun s =>
    (Returned tt,
     update_first (has_id (Product._id p)) (Product.with_views (Product.views p)) s)).

Definition set_value (new old : value) : value :=
  match new with VUndefined => old | _ => new end.

Definition set_field {A} (new : option A) (old : A) : A :=
  match new with Some x => x | None => old end.

(** [{ $set: req.body }] applied to one document. *)
Definition apply_set (b : Body.t) (p : Product.t) : Product.t :=
  Product.mk (Product._id p)
    (set_value (Body.name b) (Product.name p))
    (set_value (Body.url b) (Product.url p))
    (set_value (Body.platform b) (Product.platform p))
    (set_value (Body.targetPrice b) (Product.targetPrice p))
    (set_field (Body.currentPrice b) (Product.currentPrice p))
    (set_field (Body.userId b) (Product.userId p))
    (set_field (Body.priceHistory b) (Product.priceHistory p))
    (set_field (Body.views b) (Product.views p))
    (set_field (Body.createdAt b) (Product.createdAt p)).

(** [Product.findOneAndUpdate({ _id, userId }, { $set: body }, { new: true })] *)
Definition Product_findOneAndUpdate (e : Env) (id userId : string) (b : Body.t)
    : M (option Product.t) :=
  store_cmd e (fun s =>
    (Returned (option_map (apply_set b) (List.find (selects id userId) s)),
     update_first (selects id userId) (apply_set b) s)).

(** [Product.findOneAndDelete({ _id, userId })] *)
Definition Product_findOneAndDelete (e : Env) (id userId : string)
    : M (option Product.t) :=
  store_cmd e (fun s =>
    (Returned (List.find (selects id userId) s),
     remove_first (selects id userId) s)).

(** Modelled from the spec: the scraping routine ([utils/scraper]) is not
    part of the sources.  It is a black box: the awaited call yields a
    price, yields an absent result, or rejects. *)
Definition scrapePrice (e : Env) (url platform : value) : M (option PriceData) :=
  lift (scraped e).

(** *** Handlers *)

Definition not_found : response :=
  status_json 404 (BMessage "Product not found").

(** [if (redis) { await redis.del(`products:${req.userId}`) }] *)
Definition invalidate (e : Env) (userId : string) : M unit :=
  redis <- getRedisClient ;;
  if redis then redis_del e (cacheKey userId) else ret tt.

(** [GET /] *)
Definition getAll (e : Env) (userId : string) : World -> response * World :=
  try_catch "Error fetching products"
    (redis <- getRedisClient ;;
     let key := cacheKey userId in
     cached <- (if redis then redis_get e key else ret None) ;;
     match cached with
     | Some parsed => ret (json (BProducts parsed true))
     | None =>
         products <- Product_find e userId ;;
         (if redis then redis_setEx e key 300 products else ret tt) ;;;
         ret (json (BProducts products false))
     end).

(** [priceData?.price || 0] *)
Definition initial_price (priceData : option PriceData) : Q :=
  match priceData with
  | Some d => if num_truthy (scraped_price d) then scraped_price d else 0
  | None => 0
  end.

(** [priceData ? [{ price: priceData.price, date: new Date() }] : []] *)
Definition initial_history (e : Env) (priceData : option PriceData)
    : list HistoryEntry.t :=
  match priceData with
  | Some d => [HistoryEntry.mk (scraped_price d) (now e)]
  | None => []
  end.

(** [new Product({ name, url, platform, targetPrice, currentPrice, userId,
    priceHistory })] *)
Definition new_product (e : Env) (userId : string) (b : Body.t)
    (priceData : option PriceData) : Product.t :=
  Product.mk (fresh_id e) (Body.name b) (Body.url b) (Body.platform b)
    (Body.targetPrice b) (initial_price priceData) userId
    (initial_history e priceData) 0 (now e).

(** [POST /] *)
Definition create (e : Env) (userId : string) (b : Body.t) : World -> response * World :=
  try_catch "Error adding product"
    (priceData <- scrapePrice e (Body.url b) (Body.platform b) ;;
     let product := new_product e userId b priceData in
     Product_insert e product ;;;
     invalidate e userId ;;;
     ret (status_json 201 (BMessageProduct "Product added successfully" product))).

(** [GET /:id] *)
Definition getOne (e : Env) (userId id : string) : World -> response * World :=
  try_catch "Error fetching product"
    (found <- Product_findOne e id userId ;;
     match found with
     | None => ret not_found
     | Some product =>
         let product := Product.with_views (Product.views product + 1) product in
         Product_save_views e product ;;;
         ret (json (BProduct product))
     end).

(** [PUT /:id] *)
Definition update (e : Env) (userId id : string) (b : Body.t) : World -> response * World :=
  try_catch "Error updating product"
    (found <- Product_findOneAndUpdate e id userId b ;;
     match found with
     | None => ret not_found
     | Some product =>
         invalidate e userId ;;;
         ret (json (BMessageProduct "Product updated successfully" product))
     end).

(** [DELETE /:id] *)
Definition remove (e : Env) (userId id : string) : World -> response * World :=
  try_catch "Error deleting product"
    (found <- Product_findOneAndDelete e id userId ;;
     match found with
     | None => ret not_found
     | Some _ =>
         invalidate e userId ;;;
         ret (json (BMessage "Product deleted successfully"))
     end).

End Products.

(** ** The router *)

Module Router.

(** The request method.  [OTHER] stands for the methods no route is
    registered for; [HEAD] and [OPTIONS], which Express answers through
    the registered routes, are not modelled. *)
Inductive method : Type := GET | POST | PUT | DELETE | OTHER.

Definition method_eqb (a b : method) : bool :=
  match a, b with
  | GET, GET | POST, POST | PUT, PUT | DELETE, DELETE | OTHER, OTHER => true
  | _, _ => false
  end.

(** A request as the router sees it: the path below the mount point as
    the client sent it, cut at its slashes (the path is a slash followed
    by the segments joined by slashes, so [/] is the empty list, and a
    last segment that is empty stands for a trailing slash; a segment
    holds no slash, and is in ASCII, with escapes); [req.query.q];
    [req.body]; and the identity the authentication collaborator derives
    from the credentials, if any. *)
Record Request : Type :=
  { verb : method;
    path : list string;
    query_q : value;
    body_of : Body.t;
    identity : option string }.

(** *** decodeURIComponent *)

Definition hex_digit (c : ascii) : option nat :=
  let n := nat_of_ascii c in
  if ((48 <=? n) && (n <=? 57))%nat then Some (n - 48)
  else if ((65 <=? n) && (n <=? 70))%nat then Some (n - 55)
  else if ((97 <=? n) && (n <=? 102))%nat then Some (n - 87)
  else None.

(** A character of the text, or the byte an escape stands for. *)
Inductive piece : Type :=
| Plain_char (c : ascii)
| Escaped (b : nat).

(** The escapes of a text, read; [None] when a percent sign is not
    followed by two hexadecimal digits. *)
Fixpoint escapes (s : string) : option (list piece) :=
  match s with
  | EmptyString => Some []
  | String c rest =>
      if Ascii.eqb c "%"
      then match rest with
           | String h (String l rest') =>
               match hex_digit h, hex_digit l, escapes rest' with
               | Some x, Some y, Some us => Some (Escaped (16 * x + y) :: us)
               | _, _, _ => None
               end
           | _ => None
           end
      else option_map (cons (Plain_char c)) (escapes rest)
  end.

Definition in_range (lo hi n : nat) : bool := ((lo <=? n) && (n <=? hi))%nat.

(** A continuation byte of UTF-8. *)
Definition cont (n : nat) : bool := in_range 128 191 n.

(** The escaped bytes must spell UTF-8: an escaped byte below 128 stands
    for itself, and a larger one must open a well-formed sequence of two
    to four escaped bytes (no overlong form, no surrogate, nothing above
    U+10FFFF).  [None] is the URIError. *)
Fixpoint utf8 (us : list piece) : option string :=
  match us with
  | [] => Some ""
  | Plain_char c :: rest => option_map (String c) (utf8 rest)
  | Escaped b :: rest =>
      if (b <? 128)%nat then option_map (String (ascii_of_nat b)) (utf8 rest)
      else
        match rest with
        | Escaped b2 :: rest2 =>
            if in_range 194 223 b && cont b2
            then option_map (fun t => String (ascii_of_nat b)
                                        (String (ascii_of_nat b2) t))
                            (utf8 rest2)
            else
              match rest2 with
              | Escaped b3 :: rest3 =>
                  if ((b =? 224)%nat && in_range 160 191 b2
                      || in_range 225 236 b && cont b2
                      || (b =? 237)%nat && in_range 128 159 b2
                      || in_range 238 239 b && cont b2) && cont b3
                  then option_map (fun t => String (ascii_of_nat b)
                                              (String (ascii_of_nat b2)
                                                 (String (ascii_of_nat b3) t)))
                                  (utf8 rest3)
                  else
                    match rest3 with
                    | Escaped b4 :: rest4 =>
                        if ((b =? 240)%nat && in_range 144 191 b2
                            || in_range 241 243 b && cont b2
                            || (b =? 244)%nat && in_range 128 143 b2)
                           && cont b3 && cont b4
                        then option_map
                               (fun t => String (ascii_of_nat b)
                                           (String (ascii_of_nat b2)
                                              (String (ascii_of_nat b3)
                                                 (String (ascii_of_nat b4) t))))
                               (utf8 rest4)
                        else None
                    | _ => None
                    end
              | _ => None
              end
        | _ => None
        end
  end.

(** [decodeURIComponent(s)]; [None] when it throws. *)
Definition decodeURIComponent (s : string) : option string :=
  match escapes s with
  | Some us => utf8 us
  | None => None
  end.

(** *** Paths *)

Inductive pattern : Type :=
| Root                      (* ['/'] *)
| Literal (s : string)      (* ['/sponsored'] *)
| Param.                    (* ['/:id'] *)

(** What matching a path against a pattern gives: no match; a match,
    with [req.params.id] (the empty string when the pattern has no
    parameter); or a parameter that cannot be decoded. *)
Inductive matching : Type :=
| NoMatch
| Matched (id : string)
| BadParam.

Fixpoint has_slash (s : string) : bool :=
  match s with
  | EmptyString => false
  | String c rest => Ascii.eqb c "/" || has_slash rest
  end.

(** The one segment of a path, a trailing slash apart. *)
Definition segment (p : list string) : option string :=
  match p with
  | [x] | [x; EmptyString] => Some x
  | _ => None
  end.

(** Modelled from the spec: Express is not part of the sources.  A router
    made by [express.Router()] without options matches a path against a
    pattern in its entirety, without regard to the case of letters, and
    allows one trailing slash; a parameter is a non-empty segment,
    decoded by [decodeURIComponent]. *)
Definition accepts (pat : pattern) (p : list string) : matching :=
  match pat with
  | Root =>
      match p with
      | [] | [EmptyString] => Matched ""
      | _ => NoMatch
      end
  | Literal s =>
      match segment p with
      | Some x => if String.eqb (lower x) (lower s) then Matched "" else NoMatch
      | None => NoMatch
      end
  | Param =>
      match segment p with
      | Some x =>
          if string_truthy x && negb (has_slash x)
          then match decodeURIComponent x with
               | Some id => Matched id
               | None => BadParam
               end
          else NoMatch
      | None => NoMatch
      end
  end.

Inductive endpoint : Type :=
| SponsoredSearch | ReadList | Create | ReadOne | Update | Delete.

(** The handler stack of a route: the handler alone, or the handler
    behind the [auth] middleware, which hands it [req.userId]. *)
Inductive stack : Type :=
| Plain (h : Env -> Request -> string -> World -> response * World)
| WithAuth (h : Env -> Request -> string -> string -> World -> response * World).

Record route : Type :=
  { on : method;
    at_path : pattern;
    serves : endpoint;
    via : stack }.

(** The routes, in the order the source registers them. *)
Definition routes : list route :=
  [ {| on := GET; at_path := Literal "sponsored"; serves := SponsoredSearch;
       via := Plain (fun e req _ => Sponsored.handler e (query_q req)) |};
    {| on := GET; at_path := Root; serves := ReadList;
       via := WithAuth (fun e _ _ userId => Products.getAll e userId) |};
    {| on := POST; at_path := Root; serves := Create;
       via := WithAuth (fun e req _ userId => Products.create e userId (body_of req)) |};
    {| on := GET; at_path := Param; serves := ReadOne;
       via := WithAuth (fun e _ id userId => Products.getOne e userId id) |};
    {| on := PUT; at_path := Param; serves := Update;
       via := WithAuth (fun e req id userId => Products.update e userId id (body_of req)) |};
    {| on := DELETE; at_path := Param; serves := Delete;
       via := WithAuth (fun e _ id userId => Products.remove e userId id) |};
    {| on := GET; at_path := Literal "sponsored"; serves := SponsoredSearch;
       via := WithAuth (fun e req _ _ => Sponsored.handler e (query_q req)) |} ].

(** The first registered route that accepts the request, with its
    position and [req.params.id].  The routes are tried in order: the
    path is matched first, then the method.  Every handler ends the
    response, so no later route is consulted; and once a parameter could
    not be decoded the router hands the error on and runs no route. *)
Fixpoint lookup_from (n : nat) (rs : list route) (req : Request)
    : option (nat * route * string) :=
  match rs with
  | [] => None
  | r :: rest =>
      match accepts (at_path r) (path req) with
      | Matched id =>
          if method_eqb (on r) (verb req) then Some (n, r, id)
          else lookup_from (S n) rest req
      | NoMatch => lookup_from (S n) rest req
      | BadParam => None
      end
  end.

Definition lookup (req : Request) : option (nat * route * string) :=
  lookup_from 0 routes req.

Definition unauthorized : response := status_json 401 BRejected.

(** Modelled from the spec: the [auth] middleware ([middleware/auth]) is
    not part of the sources.  It injects the acting user's identity
    before the handler runs; a request without one does not reach the
    handler. *)
Definition auth (req : Request)
    (next : string -> World -> response * World) : World -> response * World :=
  match identity req with
  | Some userId => next userId
  | None => fun w => (unauthorized, w)
  end.

Definition run (e : Env) (req : Request) (r : route) (id : string)
    : World -> response * World :=
  match via r with
  | Plain h => h e req id
  | WithAuth h => auth req (h e req id)
  end.

(** One request served by the router; no response when no route of this
    router accepts it, which leaves the request, or the error of a
    parameter that cannot be decoded, to the application. *)
Definition serve (e : Env) (req : Request) (w : World) : option response * World :=
  match lookup req with
  | None => (None, w)
  | Some (_, r, id) => let '(resp, w') := run e req r id w in (Some resp, w')
  end.

(** The back-ends before the first request: an empty collection, and an
    empty cache when there is one. *)
Definition initial (cache : bool) : World :=
  {| store := []; redis := if cache then Some ∅ else None; outbound := [] |}.

(** The states the router can be in. *)
Inductive reachable : World -> Prop :=
| reach_initial (cache : bool) : reachable (initial cache)
| reach_serve (e : Env) (req : Request) (w : World) :
    reachable w -> reachable (snd (serve e req w)).

(** Requests served one after the other. *)
Fixpoint serve_all (reqs : list (Env * Request)) (w : World) : World :=
  match reqs with
  | [] => w
  | (e, req) :: rest => serve_all rest (snd (serve e req w))
  end.

End Router.


(** ** The search page *)

(** The component that lists the tracked products and merges the
    sponsored offers into them.  The values it handles come from JSON
    answers.  Its state is the state after a handler has run to its end;
    rendering is not modelled. *)
Module Client.

(** A number that may be [Infinity]. *)
Inductive number : Type :=
| Finite (q : Q)
| Infinity.

(** [a < b] *)
Definition lt (a b : number) : bool :=
  match a, b with
  | Finite x, Finite y => negb (Qle_bool y x)
  | Finite _, Infinity => true
  | Infinity, _ => false
  end.

(** The loop of [safePrice] over the candidates: the first one that is
    neither [undefined] nor [null] and parses, else [Infinity]; it throws
    when [String(c)] does. *)
Fixpoint first_parsed (candidates : list value) : outcome number :=
  match candidates with
  | [] => Returned Infinity
  | c :: rest =>
      match c with
      | VUndefined | VNull => first_parsed rest
      | _ =>
          text <-- String_ c ;;
          match parseFloat (Sponsored.strip text) with
          | Some n => Returned (Finite n)
          | None => first_parsed rest
          end
      end
  end.

(** [safePrice(p)] *)
Definition safePrice (p : value) : outcome number :=
  currentPrice <-- getprop p "currentPrice" ;;
  price <-- getprop p "price" ;;
  offerPrice <-- getprop p "offerPrice" ;;
  lowestPrice <-- getprop p "lowestPrice" ;;
  priceRaw <-- getprop p "priceRaw" ;;
  let price' := getprop_opt p "price" in
  first_parsed [currentPrice; price; offerPrice; lowestPrice; priceRaw; price'].

(** [list.reduce((acc, item) => { const p = safePrice(item); return p < acc ? p : acc; }, acc)] *)
Fixpoint reduce_min (items : list value) (acc : number) : outcome number :=
  match items with
  | [] => Returned acc
  | item :: rest =>
      p <-- safePrice item ;;
      reduce_min rest (if lt p acc then p else acc)
  end.

(** [computeLowest(list)]: the value it hands to [setLowestPrice]. *)
Definition computeLowest (list : value) : outcome (option Q) :=
  match list with
  | VArr [] => Returned None
  | VArr items =>
      min <-- reduce_min items Infinity ;;
      Returned (match min with
                | Finite q => Some q      (* [Number.isFinite(min)] *)
                | Infinity => None
                end)
  | _ => Returned None
  end.

(** The state of the component. *)
Record State : Type :=
  { query : string;
    products : value;
    results : value;
    lowestPrice : option Q;
    loading : bool }.

(** What the browser and the back-end do during one handler:
    [String.prototype.toLowerCase]; the text
    [String(Math.random()).slice(2,8)] drawn for the offer at each
    index; and the outcome of the two calls of the API client, which is
    not part of the sources ([services/api]). *)
Record Browser : Type :=
  { toLowerCase : string -> string;
    random_digits : nat -> string;
    getSponsored : string -> outcome value;
    getAll : outcome value }.

Fixpoint starts_with (prefix s : string) : bool :=
  match prefix, s with
  | EmptyString, _ => true
  | String a prefix', String b s' => Ascii.eqb a b && starts_with prefix' s'
  | String _ _, EmptyString => false
  end.

(** [s.includes(t)] *)
Fixpoint includes (s t : string) : bool :=
  starts_with t s ||
  match s with
  | EmptyString => false
  | String _ rest => includes rest t
  end.

(** [(p.field || '').toLowerCase().includes(qlc)], for the value [v] of
    [p.field]. *)
Definition field_matches (b : Browser) (field : string) (v : value)
    (qlc : string) : outcome bool :=
  match JS.or v (VStr "") with
  | VStr s => Returned (includes (toLowerCase b s) qlc)
  | _ => Threw (Some ("(p." +:+ field +:+ " || " +:+ empty_literal
                      +:+ ").toLowerCase is not a function"))
  end.

(** The callback of [products.filter]. *)
Definition matches (b : Browser) (qlc : string) (p : value) : outcome bool :=
  name <-- getprop p "name" ;;
  in_name <-- field_matches b "name" name qlc ;;
  if in_name then Returned true
  else
    platform <-- getprop p "platform" ;;
    in_platform <-- field_matches b "platform" platform qlc ;;
    if in_platform then Returned true
    else
      url <-- getprop p "url" ;;
      field_matches b "url" url qlc.

Fixpoint filterM (f : value -> outcome bool) (l : list value)
    : outcome (list value) :=
  match l with
  | [] => Returned []
  | x :: rest =>
      keep <-- f x ;;
      kept <-- filterM f rest ;;
      Returned (if keep then x :: kept else kept)
  end.

(** [products.filter(...)] *)
Definition filter_products (b : Browser) (qlc : string) (products : value)
    : outcome value :=
  match products with
  | VArr l => l' <-- filterM (matches b qlc) l ;; Returned (VArr l')
  | VUndefined | VNull =>
      Threw (Some "Cannot read properties of undefined (reading 'filter')")
  | _ => Threw (Some "products.filter is not a function")
  end.

(** The decimal text of an index. *)
Definition index_text (idx : nat) : string := Z_digits (Z.of_nat idx).

(** The callback of [items.map]: the offer as a product of the list. *)
Definition as_product (b : Browser) (idx : nat) (it : value) : outcome value :=
  let id := "sponsored-" +:+ index_text idx +:+ "-" +:+ random_digits b idx in
  name <-- (getprop it "title" ||| getprop it "name"
            ||| Returned (VStr "Sponsored")) ;;
  platform <-- (getprop it "seller" ||| getprop it "source"
                ||| getprop it "seller" ||| Returned (VStr "Sponsored")) ;;
  url <-- (getprop it "url" ||| getprop it "link" ||| Returned (VStr "#")) ;;
  currentPrice <-- getprop it "price" ;;
  Returned (VObj [("_id", VStr id); ("name", name); ("platform", platform);
                  ("url", url); ("currentPrice", currentPrice);
                  ("sponsored", VBool true)]).

Fixpoint map_from (b : Browser) (idx : nat) (items : list value)
    : outcome (list value) :=
  match items with
  | [] => Returned []
  | it :: rest =>
      p <-- as_product b idx it ;;
      ps <-- map_from b (S idx) rest ;;
      Returned (p :: ps)
  end.

(** The inner [try] of [handleSearch]; what it throws is caught and
    leaves no sponsored entry. *)
Definition fetch_sponsored (b : Browser) (q : string) : list value :=
  let attempt :=
    sres <-- getSponsored b q ;;
    match JS.or (getprop_opt (getprop_opt sres "data") "items") (VArr []) with
    | VArr items => map_from b 0 items
    | _ => Threw (Some "items.map is not a function")
    end in
  match attempt with
  | Returned sponsored => sponsored
  | Threw _ => []
  end.

(** [...v] inside an array literal: the elements of an array, the
    characters of a string; anything else is not iterable. *)
Definition spread (v : value) : outcome (list value) :=
  match v with
  | VArr l => Returned l
  | VStr s => Returned (map VStr (characters s))
  | VUndefined | VNull =>
      Threw (Some "filtered is not iterable (cannot read property Symbol(Symbol.iterator))")
  | _ => Threw (Some "filtered is not iterable")
  end.

(** [handleSearch]: the state when it has run to its end. *)
Definition handleSearch (b : Browser) (st : State) : State :=
  let q := trim (query st) in
  let attempt :=
    filtered <-- (if string_truthy q
                  then filter_products b (toLowerCase b q) (products st)
                  else Returned (products st)) ;;
    let sponsored := fetch_sponsored b q in
    rest <-- spread filtered ;;
    let combined := VArr (sponsored ++ rest) in
    lowest <-- computeLowest combined ;;
    Returned (combined, lowest) in
  match attempt with
  | Returned (combined, lowest) =>
      {| query := query st; products := products st; results := combined;
         lowestPrice := lowest; loading := false |}
  | Threw _ =>
      {| query := query st; products := products st; results := VArr [];
         lowestPrice := None; loading := false |}
  end.

(** [fetchProducts]: the state when it has run to its end. *)
Definition fetchProducts (b : Browser) (st : State) : State :=
  let attempt :=
    res <-- getAll b ;;
    data <-- getprop res "data" ;;
    products <-- getprop data "products" ;;
    let all := JS.or products (VArr []) in
    lowest <-- computeLowest all ;;
    Returned (all, lowest) in
  match attempt with
  | Returned (all, lowest) =>
      {| query := query st; products := all; results := all;
         lowestPrice := lowest; loading := false |}
  | Threw _ =>
      {| query := query st; products := VArr []; results := VArr [];
         lowestPrice := None; loading := false |}
  end.

(** [clearSearch] *)
Definition clearSearch (st : State) : State :=
  {| query := ""; products := products st; results := products st;
     lowestPrice := lowestPrice st; loading := loading st |}.

End Client.
(** * Vocabulary of the properties *)

Import Sponsored Products Router.

(** Equality of two nullable numbers. *)
Definition same_number (x y : option Q) : Prop :=
  match x, y with
  | None, None => True
  | Some a, Some b => Qeq a b
  | _, _ => False
  end.

(** ** The lowest-price reducer *)

Definition prices (items : list Offer.t) : list (option Q) :=
  map Offer.price items.

(** [m] is the least of the non-null prices of [items]. *)
Definition least_price (m : Q) (items : list Offer.t) : Prop :=
  In (Some m) (prices items) /\
  forall q, In (Some q) (prices items) -> (m <= q)%Q.


(** An offer that carries nothing but a price. *)
Definition priced (p : option Q) : Offer.t :=
  Offer.mk (VStr "") (VStr "") (VStr "") p VNull.

(** ** The price parser *)

(** Every character of [s] passes [f]. *)
Fixpoint every (f : ascii -> bool) (s : string) : bool :=
  match s with
  | EmptyString => true
  | String c rest => f c && every f rest
  end.

Definition no_digit (s : string) : bool := every (fun c => negb (is_digit c)) s.

(** No character of [s] survives the stripping regex. *)
Definition all_dropped (s : string) : bool := every (fun c => negb (kept c)) s.

(** [s] is empty or begins with something other than a digit. *)
Definition starts_nondigit (s : string) : Prop :=
  match s with
  | String c _ => is_digit c = false
  | EmptyString => True
  end.

(** A numeric run: an optional minus sign, the digits before the point
    and, after a point, the digits behind it; at least one digit. *)
Record numeral : Type :=
  { negative : bool;
    int_part : list ascii;
    frac_part : list ascii }.

Definition well_formed (n : numeral) : Prop :=
  forallb is_digit (int_part n) = true /\
  forallb is_digit (frac_part n) = true /\
  (int_part n <> [] \/ frac_part n <> []).

Definition spelled (n : numeral) : string :=
  (if negative n then "-" else "") +:+
  string_of_list_ascii (int_part n) +:+
  match frac_part n with
  | [] => ""
  | fp => "." +:+ string_of_list_ascii fp
  end.

(** Positional value of a sequence of digits. *)
Fixpoint positional (ds : list ascii) : Z :=
  match ds with
  | [] => 0
  | d :: rest => digit_value d * 10 ^ Z.of_nat (List.length rest) + positional rest
  end.

(** The numeric interpretation of a run. *)
Definition numeral_value (n : numeral) : Q :=
  ((if negative n then - (1) else 1) *
   (inject_Z (positional (int_part n)) +
    inject_Z (positional (frac_part n)) /
    inject_Z (10 ^ Z.of_nat (List.length (frac_part n)))))%Q.

(** A value [String] prints: no record with a [toString] of its own,
    and no array with an element that is not printable. *)
Fixpoint printable (v : value) : bool :=
  match v with
  | VObj fields =>
      match own "toString" fields with
      | None => true
      | Some _ => false
      end
  | VArr elems => forallb printable elems
  | _ => true
  end.

(** The price parser on a string. *)
Definition parse_text (s : string) : outcome (option Q) := parsePrice (VStr s).

(** The run [500], written after the currency mark [Rs.]. *)
Definition five_hundred : numeral :=
  {| negative := false; int_part := ["5"; "0"; "0"]%char; frac_part := [] |}.

(** The run [12.50]. *)
Definition twelve_fifty : numeral :=
  {| negative := false; int_part := ["1"; "2"]%char; frac_part := ["5"; "0"]%char |}.

(** ** The offer normaliser *)

(** The field of the record that is first present among [names], the way
    the specification words the resolution order. *)
Fixpoint first_present (names : list string) (fields : list (string * value))
    (default : value) : value :=
  match names with
  | [] => default
  | k :: rest =>
      match assoc k fields with
      | VUndefined => first_present rest fields default
      | v => v
      end
  end.

(** The field of the record that is first truthy among [names]. *)
Fixpoint first_truthy (names : list string) (fields : list (string * value))
    (default : value) : value :=
  match names with
  | [] => default
  | k :: rest =>
      if truthy (assoc k fields) then assoc k fields
      else first_truthy rest fields default
  end.

Definition title_names : list string := ["title"; "product_title"; "name"].
Definition url_names : list string := ["link"; "product_link"; "offer_link"; "source"].
Definition seller_names : list string := ["source"; "merchant"; "store"].
Definition price_names : list string := ["price"; "extracted_price"].

(** Sample provider records. *)
Definition record_A_B : list (string * value) :=
  [("title", VStr "A"); ("product_title", VStr "B"); ("price", VStr "$12.50");
   ("link", VStr "https://shop.example/a"); ("source", VStr "Shop")].

Definition record_empty_title : list (string * value) :=
  [("title", VStr ""); ("product_title", VStr "B")].

Definition record_free : list (string * value) :=
  [("title", VStr "Sample"); ("price", VNum 0)].

(** ** The sponsored-search gateway *)

Definition sent (url : string) (w : World) : World :=
  {| store := store w; redis := redis w; outbound := outbound w ++ [url] |}.

Definition fetch_error (detail : option string) : response :=
  status_json 500 (BError "Error fetching sponsored results" detail).

(** A run of the gateway's collaborators: the given credential, and an
    upstream that answers every request the same way. *)
Definition gateway_env (key : option string) (answer : outcome value) : Env :=
  {| now := 0; fresh_id := ""; scraped := Returned None; store_fault := None;
     cache_fault := None; api_key := key; axios_get := fun _ => answer |}.

Definition idle : World := {| store := []; redis := None; outbound := [] |}.

(** ** The product endpoints *)

(** The current price is the price of the most recent history entry,
    when there is one. *)
Definition price_consistent (p : Product.t) : Prop :=
  match last (Product.priceHistory p) with
  | Some entry => (Product.currentPrice p == HistoryEntry.price entry)%Q
  | None => True
  end.

Definition store_consistent (w : World) : Prop :=
  Forall price_consistent (store w).

(** The body sets neither the current price nor the history. *)
Definition keeps_prices (b : Body.t) : Prop :=
  Body.currentPrice b = None /\ Body.priceHistory b = None.

(** No collaborator rejects during the request. *)
Definition no_fault (e : Env) : Prop :=
  store_fault e = None /\ cache_fault e = None.

(** The identifier of the new document is not in use. *)
Definition fresh (e : Env) (w : World) : Prop :=
  ~ In (fresh_id e) (map Product._id (store w)).

Definition ids_unique (w : World) : Prop :=
  List.NoDup (map Product._id (store w)).

(** Every cached listing of a user holds documents of that user only. *)
Definition cache_scoped (w : World) : Prop :=
  forall m userId c,
    redis w = Some m -> m !! cacheKey userId = Some c ->
    Forall (fun p => Product.userId p = userId) (payload c).

(** The cache holds no live listing for the user. *)
Definition cache_miss (now : N) (userId : string) (w : World) : Prop :=
  match redis w with
  | None => True
  | Some m =>
      match m !! cacheKey userId with
      | Some c => live now c = false
      | None => True
      end
  end.

(** The cache holds nothing at all under the user's key. *)
Definition uncached (userId : string) (w : World) : Prop :=
  match redis w with
  | None => True
  | Some m => m !! cacheKey userId = None
  end.

(** Newest first. *)
Definition newest_first (l : list Product.t) : Prop :=
  StronglySorted (fun p q => (Product.createdAt q <= Product.createdAt p)%N) l.

(** The state after a cache miss: the listing is stored under the user's
    key with the given expiry, when there is a cache. *)
Definition populated (e : Env) (userId : string) (w : World) : World :=
  match redis w with
  | None => w
  | Some m =>
      set_cache (<[cacheKey userId :=
                    {| payload := listing userId (store w);
                       written := now e; ex := 300 |}]> m) w
  end.

(** The state after the user's cache entry has been deleted, when there
    is a cache. *)
Definition invalidated (userId : string) (w : World) : World :=
  match redis w with
  | None => w
  | Some m => set_cache (delete (cacheKey userId) m) w
  end.

(** A write leaves the cache alone or deletes the writer's key. *)
Definition deletes_at_most (userId : string) (w w' : World) : Prop :=
  redis w' = redis w \/
  exists m, redis w = Some m /\ redis w' = Some (delete (cacheKey userId) m).

(** The path is the root, a path the sponsored search is registered
    under, or a path that names a document. *)
Definition at_root (p : list string) : Prop := accepts Root p = Matched "".

Definition names_sponsored (p : list string) : Prop :=
  accepts (Literal "sponsored") p = Matched "".

Definition names (id : string) (p : list string) : Prop :=
  accepts Param p = Matched id.

Definition is_list_read (userId : string) (req : Request) : Prop :=
  verb req = GET /\ at_root (path req) /\ identity req = Some userId.

Definition is_write (req : Request) : Prop :=
  verb req = POST \/ verb req = PUT \/ verb req = DELETE.

Definition list_read (userId : string) : Request :=
  {| verb := GET; path := []; query_q := VUndefined; body_of := Body.empty;
     identity := Some userId |}.

Definition succeeded (r : response) : Prop := (status r < 300)%nat.

(** Sample collaborators and documents. *)
Definition quiet (t : N) (id : string) (price : option Q) : Env :=
  {| now := t; fresh_id := id;
     scraped := Returned (option_map Build_PriceData price);
     store_fault := None; cache_fault := None;
     api_key := None; axios_get := fun _ => Threw None |}.

Definition tv : Body.t :=
  Body.mk (VStr "tv") (VStr "https://shop.example/tv") (VStr "amazon")
    (VNum 15) None None None None None.

Definition post (b : Body.t) (userId : string) : Request :=
  {| verb := POST; path := []; query_q := VUndefined; body_of := b;
     identity := Some userId |}.

Definition put (id : string) (b : Body.t) (userId : string) : Request :=
  {| verb := PUT; path := [id]; query_q := VUndefined; body_of := b;
     identity := Some userId |}.

(** One product of user [U], scraped at 19.99, in a world with a cache. *)
Definition one_product : World :=
  snd (serve (quiet 1 "a" (Some (1999 # 100))) (post tv "U") (initial true)).

(** The same world after [U] has read the list. *)
Definition one_product_cached : World :=
  snd (serve (quiet 2 "b" None) (list_read "U") one_product).

Definition with_scrape (priceData : outcome (option PriceData)) (e : Env) : Env :=
  {| now := now e; fresh_id := fresh_id e; scraped := priceData;
     store_fault := store_fault e; cache_fault := cache_fault e;
     api_key := api_key e; axios_get := axios_get e |}.

Definition created (p : Product.t) : response :=
  status_json 201 (BMessageProduct "Product added successfully" p).

(** The collaborators of [quiet], with a scraper that rejects. *)
Definition scraper_down (t : N) (id : string) : Env :=
  {| now := t; fresh_id := id; scraped := Threw (Some "Navigation timeout");
     store_fault := None; cache_fault := None;
     api_key := None; axios_get := fun _ => Threw None |}.

(** ** The router *)

Definition wrap (r : response * World) : option response * World :=
  (Some (fst r), snd r).

(** Some route accepts the request, and it is not the sponsored search. *)
Definition product_route (req : Request) : Prop :=
  lookup req <> None /\ ~ (verb req = GET /\ names_sponsored (path req)).

(** What the router does with a request, by cases on the request. *)
Inductive served (e : Env) (req : Request) (w : World)
    : option response * World -> Prop :=
| served_nothing :
    lookup req = None -> served e req w (None, w)
| served_sponsored :
    verb req = GET -> names_sponsored (path req) ->
    served e req w (wrap (Sponsored.handler e (query_q req) w))
| served_rejected :
    product_route req -> identity req = None ->
    served e req w (Some unauthorized, w)
| served_list userId :
    verb req = GET -> at_root (path req) -> identity req = Some userId ->
    served e req w (wrap (getAll e userId w))
| served_create userId :
    verb req = POST -> at_root (path req) -> identity req = Some userId ->
    served e req w (wrap (create e userId (body_of req) w))
| served_one userId id :
    verb req = GET -> names id (path req) -> ~ names_sponsored (path req) ->
    identity req = Some userId ->
    served e req w (wrap (getOne e userId id w))
| served_update userId id :
    verb req = PUT -> names id (path req) -> identity req = Some userId ->
    served e req w (wrap (update e userId id (body_of req) w))
| served_remove userId id :
    verb req = DELETE -> names id (path req) -> identity req = Some userId ->
    served e req w (wrap (remove e userId id w)).

(** An update that sets the current price alone. *)
Definition reprice (p : Q) : Body.t :=
  Body.mk VUndefined VUndefined VUndefined VUndefined (Some p) None None None None.

(** An update that names another owner. *)
Definition hand_over (v : string) : Body.t :=
  Body.mk VUndefined VUndefined VUndefined VUndefined None (Some v) None None None.

(** An update that renames the product. *)
Definition rename (n : string) : Body.t :=
  Body.mk (VStr n) VUndefined VUndefined VUndefined None None None None None.

Definition get (p : list string) (userId : string) : Request :=
  {| verb := GET; path := p; query_q := VUndefined; body_of := Body.empty;
     identity := Some userId |}.

(** The products a response carries. *)
Definition answered (r : option response) : list Product.t :=
  match r with
  | Some {| payload_of := BProducts ps _ |} => ps
  | Some {| payload_of := BProduct p |} => [p]
  | Some {| payload_of := BMessageProduct _ p |} => [p]
  | _ => []
  end.

(** A sponsored search sent without credentials. *)
Definition anonymous_search : Request :=
  {| verb := GET; path := ["sponsored"]; query_q := VStr "shoes";
     body_of := Body.empty; identity := None |}.

Definition two_offers : value :=
  VObj [("shopping_results",
         VArr [VObj [("title", VStr "A"); ("price", VStr "$12.50")];
               VObj [("title", VStr "B"); ("extracted_price", VNum 8)]])].

(** The collaborators of [quiet], with a cache that rejects. *)
Definition cache_down (t : N) (id : string) : Env :=
  {| now := t; fresh_id := id; scraped := Returned None;
     store_fault := None; cache_fault := Some "The client is closed";
     api_key := None; axios_get := fun _ => Threw None |}.

(** * Vocabulary of the further properties *)

(** [null] or [undefined]. *)
Definition nullish (v : value) : bool :=
  match v with
  | VUndefined | VNull => true
  | _ => false
  end.

Definition is_array (v : value) : bool :=
  match v with
  | VArr _ => true
  | _ => false
  end.

(** The price candidate of a provider record:
    [r.price || r.extracted_price || r['price'] || null]. *)
Definition price_candidate (r : value) : value :=
  JS.or (getprop_opt r "price") (JS.or (getprop_opt r "extracted_price") VNull).

(** A record the normaliser can read: it is neither [null] nor
    [undefined], and its price candidate can be printed. *)
Definition readable (r : value) : bool :=
  negb (nullish r) && printable (price_candidate r).

(** The no-break space U+00A0. *)
Definition no_break_space : string :=
  String (ascii_of_nat 194) (String (ascii_of_nat 160) "").

(** Percent-decoding, the inverse of [encodeURIComponent] on bytes. *)
Definition hex_value (c : ascii) : nat :=
  let n := nat_of_ascii c in
  if (n <? 58)%nat then n - 48 else n - 55.

Fixpoint percent_decode (s : string) : string :=
  match s with
  | EmptyString => EmptyString
  | String c rest =>
      match rest with
      | String h (String l rest') =>
          if Ascii.eqb c "%"
          then String (ascii_of_nat (16 * hex_value h + hex_value l))
                      (percent_decode rest')
          else String c (percent_decode rest)
      | _ => String c (percent_decode rest)
      end
  end.

(** The characters a query may turn into. *)
Definition url_safe (c : ascii) : bool := unreserved c || Ascii.eqb c "%".

(** A number the language prints in plain positional notation and
    exactly: a decimal of fewer than sixteen significant digits with at
    most six digits after the point. *)
Definition plain_decimal (q : Q) : Prop :=
  exists (m : Z) (k : nat),
    (q == inject_Z m / inject_Z (10 ^ Z.of_nat k))%Q /\
    (Z.abs m < 10 ^ 15)%Z /\ (k <= 6)%nat.

(** ** The product endpoints *)

(** One more view of the document with the given identifier. *)
Definition viewed (id : string) (p : Product.t) : Product.t :=
  if has_id id p then Product.with_views (Product.views p + 1) p else p.

(** The answers of the three writes. *)
Definition updated (p : Product.t) : response :=
  json (BMessageProduct "Product updated successfully" p).

Definition deleted : response :=
  json (BMessage "Product deleted successfully").

Definition failed (message : string) (detail : string) : response :=
  status_json 500 (BError message (Some detail)).

(** Views of one document, one after the other. *)
Fixpoint view_all (es : list Env) (userId id : string) (w : World) : World :=
  match es with
  | [] => w
  | e :: rest => view_all rest userId id (snd (getOne e userId id w))
  end.

(** The documents of a user. *)
Definition owned_by (userId : string) (w : World) : list Product.t :=
  List.filter (owned userId) (store w).

(** [n] more views of the document with the given identifier. *)
Definition viewed_times (n : nat) (id : string) (p : Product.t) : Product.t :=
  if has_id id p then Product.with_views (Product.views p + N.of_nat n) p else p.

(** The collection without the document under the given identifier. *)
Definition without (id : string) (s : list Product.t) : list Product.t :=
  List.filter (fun q => negb (has_id id q)) s.

(** The collection with the body merged into the selected document. *)
Definition merged (id userId : string) (b : Body.t) (s : list Product.t)
    : list Product.t :=
  map (fun q => if selects id userId q then apply_set b q else q) s.

(** The scraped television set of [one_product]. *)
Definition the_tv : Product.t :=
  new_product (quiet 1 "a" (Some (1999 # 100))) "U" tv
    (Some {| scraped_price := 1999 # 100 |}).

(** The collaborators of [e], with the cache rejecting or not. *)
Definition with_cache_fault (f : option string) (e : Env) : Env :=
  {| now := now e; fresh_id := fresh_id e; scraped := scraped e;
     store_fault := store_fault e; cache_fault := f;
     api_key := api_key e; axios_get := axios_get e |}.

(** The collaborators of [quiet], with a store that rejects. *)
Definition store_down (t : N) (id : string) : Env :=
  {| now := t; fresh_id := id; scraped := Returned None;
     store_fault := Some "buffering timed out"; cache_fault := None;
     api_key := None; axios_get := fun _ => Threw None |}.

(** What every cache entry looks like: it sits under the key of some
    user, expires after 300 seconds, and holds at most one hundred
    documents of that user, newest first. *)
Definition well_cached (k : string) (c : CacheEntry) : Prop :=
  exists userId,
    k = cacheKey userId /\ ex c = 300%N /\
    Forall (fun p => Product.userId p = userId) (payload c) /\
    (List.length (payload c) <= 100)%nat /\
    newest_first (payload c).

Definition get_sponsored : Request :=
  {| verb := GET; path := ["sponsored"]; query_q := VUndefined;
     body_of := Body.empty; identity := Some "U" |}.

(** ** The search page *)

(** The names [safePrice] tries, in order. *)
Definition safe_names : list string :=
  ["currentPrice"; "price"; "offerPrice"; "lowestPrice"; "priceRaw"].

(** The values of those names on an entry. *)
Definition candidates (p : value) : list value :=
  map (getprop_opt p) safe_names.

(** An entry [safePrice] can price: it is neither [null] nor
    [undefined], and its candidates can be printed. *)
Definition priceable (p : value) : bool :=
  negb (nullish p) && forallb printable (candidates p).

Definition finite (n : Client.number) : option Q :=
  match n with
  | Client.Finite q => Some q
  | Client.Infinity => None
  end.

(** [m] is the least of the finite prices. *)
Definition least_finite (m : Q) (prices : list Client.number) : Prop :=
  In (Client.Finite m) prices /\
  forall q, In (Client.Finite q) prices -> (m <= q)%Q.

(** A tracked product as the list endpoint answers it, reduced to what
    the page reads. *)
Definition tracked (name : string) (price : Q) : value :=
  VObj [("name", VStr name); ("platform", VStr "amazon");
        ("url", VStr "https://shop.example/item"); ("currentPrice", VNum price)].

(** What [(v || '')] is when it is a string. *)
Definition text_of (v : value) : string :=
  match JS.or v (VStr "") with
  | VStr s => s
  | _ => ""
  end.

(** A field the filter can search: a string, or something falsy. *)
Definition searchable_text (v : value) : bool :=
  match v with
  | VStr _ => true
  | _ => negb (truthy v)
  end.

(** A product the filter can search: an object whose name, platform and
    url are strings or missing. *)
Definition searchable (p : value) : bool :=
  match p with
  | VObj fields =>
      searchable_text (assoc "name" fields)
      && searchable_text (assoc "platform" fields)
      && searchable_text (assoc "url" fields)
  | _ => false
  end.

(** The lower-cased query occurs in the name, the platform or the url. *)
Definition hit (b : Client.Browser) (qlc : string) (p : value) : bool :=
  match p with
  | VObj fields =>
      Client.includes (Client.toLowerCase b (text_of (assoc "name" fields))) qlc
      || Client.includes (Client.toLowerCase b (text_of (assoc "platform" fields))) qlc
      || Client.includes (Client.toLowerCase b (text_of (assoc "url" fields))) qlc
  | _ => false
  end.

(** The tracked products a search keeps. *)
Definition kept_products (b : Client.Browser) (q : string) (l : list value)
    : list value :=
  if string_truthy q then List.filter (hit b (Client.toLowerCase b q)) l else l.

(** A browser whose sponsored search answers as given; its texts are in
    ASCII. *)
Definition browser (sponsored : outcome value) : Client.Browser :=
  {| Client.toLowerCase := lower;
     Client.random_digits := fun _ => "123456";
     Client.getSponsored := fun _ => sponsored;
     Client.getAll := Threw (Some "Network Error") |}.

Definition searching (q : string) (l : list value) : Client.State :=
  {| Client.query := q; Client.products := VArr l; Client.results := VArr l;
     Client.lowestPrice := None; Client.loading := false |}.

(** The answer of the sponsored endpoint as the page receives it. *)
Definition sponsored_answer (items : list value) : value :=
  VObj [("data", VObj [("items", VArr items); ("lowestPrice", VNull)])].

(** The state [handleSearch] and [fetchProducts] leave when something
    inside them throws. *)
Definition emptied (q : string) (products : value) : Client.State :=
  {| Client.query := q; Client.products := products;
     Client.results := VArr []; Client.lowestPrice := None;
     Client.loading := false |}.

(** The item the page receives for an offer of the gateway: an object
    whose [price] is the offer's, a number or [null]. *)
Definition price_json (p : option Q) : value :=
  match p with
  | Some q => VNum q
  | None => VNull
  end.

Definition carries (o : Offer.t) (it : value) : Prop :=
  nullish it = false /\
  getprop it "price" = Returned (price_json (Offer.price o)).

(** The page's price of an offer and the gateway's are the same. *)
Definition same_price (o : Offer.t) (n : Client.number) : Prop :=
  match Offer.price o, n with
  | Some p, Client.Finite v => (v == p)%Q
  | None, Client.Infinity => True
  | _, _ => False
  end.
(** * Properties *)

(** ** Numbers *)

Section MathMin.

Local Open Scope Q_scope.

Lemma Math_min_le_l (a b : Q) : Math_min a b <= a.
Proof.
  unfold Math_min. destruct (Qle_bool a b) eqn:E.
  - apply Qle_refl.
  - apply Qlt_le_weak, Qnot_le_lt. intros H.
    apply Qle_bool_iff in H. congruence.
Qed.

Lemma Math_min_le_r (a b : Q) : Math_min a b <= b.
Proof.
  unfold Math_min. destruct (Qle_bool a b) eqn:E.
  - now apply Qle_bool_iff.
  - apply Qle_refl.
Qed.

Lemma Math_min_cases (a b : Q) : Math_min a b = a \/ Math_min a b = b.
Proof. unfold Math_min. destruct (Qle_bool a b); auto. Qed.

End MathMin.

(** ** The lowest-price reducer *)

Section Reducer.

Local Open Scope Q_scope.

(** What the fold computes from any accumulator. *)
Lemma fold_lowest_step (items : list Offer.t) :
  forall acc,
    match fold_left lowest_step items acc with
    | None => acc = None /\ forall q, ~ In (Some q) (prices items)
    | Some m =>
        (acc = Some m \/ In (Some m) (prices items)) /\
        (forall a, acc = Some a -> m <= a) /\
        (forall q, In (Some q) (prices items) -> m <= q)
    end.
Proof.
  induction items as [|it items IH]; intros acc.
  - cbn. destruct acc as [a|].
    + split; [now left|]. split; [|tauto].
      intros a' [= <-]. apply Qle_refl.
    + split; [reflexivity|tauto].
  - cbn [fold_left]. specialize (IH (lowest_step acc it)).
    change (prices (it :: items)) with (Offer.price it :: prices items).
    remember (lowest_step acc it) as acc' eqn:Hacc'.
    unfold lowest_step in Hacc'.
    destruct (fold_left lowest_step items acc') as [m|].
    + destruct IH as (Hin & Hacc & Hall).
      destruct (Offer.price it) as [p|]; [destruct acc as [a|]|]; subst acc'.
      * assert (Hm : m <= Math_min a p) by (apply Hacc; reflexivity).
        repeat split.
        -- destruct Hin as [[= Hin]|Hin]; [|now right; right].
           destruct (Math_min_cases a p) as [E|E].
           ++ left. congruence.
           ++ right. left. congruence.
        -- intros a' [= <-].
           eapply Qle_trans; [exact Hm|apply Math_min_le_l].
        -- intros q [[= <-]|Hq]; [|now apply Hall].
           eapply Qle_trans; [exact Hm|apply Math_min_le_r].
      * repeat split.
        -- destruct Hin as [[= Hin]|Hin]; [|now right; right].
           right. left. congruence.
        -- intros a' [=].
        -- intros q [[= <-]|Hq]; [|now apply Hall].
           apply Hacc. reflexivity.
      * repeat split.
        -- destruct Hin as [Hin|Hin]; [now left|now right; right].
        -- exact Hacc.
        -- intros q [[=]|Hq]. now apply Hall.
    + destruct IH as (Hacc & Hall).
      destruct (Offer.price it) as [p|]; [destruct acc as [a|]|]; subst acc';
        try discriminate.
      split; [exact Hacc|]. intros q [[=]|Hq]. now apply (Hall q).
Qed.

Lemma lowestPrice_none (items : list Offer.t) :
  lowestPrice items = None <-> forall q, ~ In (Some q) (prices items).
Proof.
  unfold lowestPrice. pose proof (fold_lowest_step items None) as H.
  destruct (fold_left lowest_step items None) as [m|].
  - destruct H as ([[=]|Hin] & _ & _).
    split; [discriminate|]. intros Hno. now destruct (Hno m).
  - destruct H as [_ H]. tauto.
Qed.

Lemma lowestPrice_some (items : list Offer.t) (m : Q) :
  lowestPrice items = Some m -> least_price m items.
Proof.
  unfold lowestPrice. pose proof (fold_lowest_step items None) as H.
  intros E. rewrite E in H. destruct H as ([[=]|Hin] & _ & Hall).
  now split.
Qed.

Lemma least_price_unique (m m' : Q) (items items' : list Offer.t) :
  Permutation items items' ->
  least_price m items -> least_price m' items' -> m == m'.
Proof.
  intros HP [Hin Hle] [Hin' Hle'].
  assert (HPp : Permutation (prices items) (prices items'))
    by now apply Permutation_map.
  apply Qle_antisym.
  - apply Hle. eapply Permutation_in; [symmetry; exact HPp|exact Hin'].
  - apply Hle'. eapply Permutation_in; [exact HPp|exact Hin].
Qed.

(** C5.  The reducer yields [null] on the empty sequence and on a sequence
    whose prices are all [null]; on any other sequence it yields a price
    of the sequence that is below every non-null price of it; reordering
    the sequence does not change the number it yields.  Being a fold of a
    total step function, it has a result on every sequence. *)
Theorem lowestPrice_is_minimum (items : list Offer.t) :
  lowestPrice [] = None /\
  ((forall it, In it items -> Offer.price it = None) ->
   lowestPrice items = None) /\
  ((exists it, In it items /\ Offer.price it <> None) ->
   exists m, lowestPrice items = Some m /\ least_price m items) /\
  (forall items', Permutation items items' ->
   same_number (lowestPrice items) (lowestPrice items')) /\
  (exists r, lowestPrice items = r).
Proof.
  split; [reflexivity|]. split; [|split; [|split]].
  - intros Hnull. apply lowestPrice_none. intros q Hq.
    apply in_map_iff in Hq as (it & Hp & Hit).
    rewrite (Hnull it Hit) in Hp. discriminate.
  - intros (it & Hit & Hp).
    destruct (lowestPrice items) as [m|] eqn:E.
    + exists m. split; [reflexivity|]. now apply lowestPrice_some.
    + exfalso. destruct (Offer.price it) as [q|] eqn:P; [|congruence].
      apply (proj1 (lowestPrice_none items) E q).
      apply in_map_iff. now exists it.
  - intros items' HP.
    destruct (lowestPrice items) as [m|] eqn:E;
      destruct (lowestPrice items') as [m'|] eqn:E'; cbn.
    + eapply least_price_unique; eauto using lowestPrice_some.
    + apply lowestPrice_some in E as [Hin _].
      apply (proj1 (lowestPrice_none items') E' m).
      eapply Permutation_in; [|exact Hin]. now apply Permutation_map.
    + apply lowestPrice_some in E' as [Hin _].
      apply (proj1 (lowestPrice_none items) E m').
      eapply Permutation_in; [|exact Hin].
      apply Permutation_map. now symmetry.
    + exact I.
  - eexists. reflexivity.
Qed.

Lemma lowestPrice_is_minimum_witness :
  exists m, lowestPrice [priced (Some (25 # 2)); priced None; priced (Some 8)] = Some m
            /\ least_price m [priced (Some (25 # 2)); priced None; priced (Some 8)].
Proof.
  apply (lowestPrice_is_minimum
           [priced (Some (25 # 2)); priced None; priced (Some 8)]).
  exists (priced (Some 8)). split; [simpl; tauto|discriminate].
Defined.

End Reducer.

(** ** The price parser *)

Section Parser.

Lemma append_nil (b : string) : "" +:+ b = b.
Proof. reflexivity. Qed.

Lemma append_cons (x : ascii) (a b : string) :
  String x a +:+ b = String x (a +:+ b).
Proof. reflexivity. Qed.

Lemma append_empty_r (a : string) : a +:+ "" = a.
Proof.
  induction a as [|x a IH]; [reflexivity|].
  rewrite append_cons. now rewrite IH.
Qed.

Lemma append_assoc (a b c : string) : (a +:+ b) +:+ c = a +:+ (b +:+ c).
Proof.
  induction a as [|x a IH]; [reflexivity|].
  rewrite !append_cons. now rewrite IH.
Qed.

Lemma strip_app (a b : string) : strip (a +:+ b) = strip a +:+ strip b.
Proof.
  induction a as [|x a IH]; [reflexivity|].
  rewrite append_cons. simpl. rewrite IH.
  destruct (kept x); [now rewrite append_cons|reflexivity].
Qed.

Lemma strip_dropped (s : string) : all_dropped s = true -> strip s = "".
Proof.
  induction s as [|x s IH]; cbn; [reflexivity|].
  intros [Hx Hs]%andb_true_iff. apply negb_true_iff in Hx.
  rewrite Hx. now apply IH.
Qed.

Lemma strip_kept (s : string) : every kept s = true -> strip s = s.
Proof.
  induction s as [|x s IH]; cbn; [reflexivity|].
  intros [Hx Hs]%andb_true_iff. rewrite Hx. now rewrite IH.
Qed.

(** What the regex leaves is made of digits, points and minus signs. *)
Lemma strip_alphabet (s : string) : every kept (strip s) = true.
Proof.
  induction s as [|x s IH]; cbn; [reflexivity|].
  destruct (kept x) eqn:K; cbn; [now rewrite K|exact IH].
Qed.

Lemma every_app (f : ascii -> bool) (a b : string) :
  every f (a +:+ b) = every f a && every f b.
Proof.
  induction a as [|x a IH]; [reflexivity|].
  rewrite append_cons. simpl. now rewrite IH, andb_assoc.
Qed.

Lemma every_digits (f : ascii -> bool) (ds : list ascii) :
  (forall c, is_digit c = true -> f c = true) ->
  forallb is_digit ds = true -> every f (string_of_list_ascii ds) = true.
Proof.
  intros Hf. induction ds as [|d ds IH]; cbn; [reflexivity|].
  intros [Hd Hds]%andb_true_iff. now rewrite (Hf d Hd), IH.
Qed.

Lemma kept_digit (c : ascii) : is_digit c = true -> kept c = true.
Proof. unfold kept. now intros ->. Qed.

Lemma spelled_kept (n : numeral) :
  well_formed n -> every kept (spelled n) = true.
Proof.
  intros (Hi & Hf & _). unfold spelled.
  rewrite !every_app. apply andb_true_iff. split.
  - now destruct (negative n).
  - apply andb_true_iff. split.
    + apply every_digits; auto using kept_digit.
    + destruct (frac_part n) as [|d fp] eqn:E; [reflexivity|].
      rewrite <- E in *. rewrite every_app. apply andb_true_iff.
      split; [reflexivity|]. apply every_digits; auto using kept_digit.
Qed.

Lemma take_digits_stop (s : string) :
  starts_nondigit s -> take_digits s = ([], s).
Proof. destruct s as [|c s]; simpl; [reflexivity|]. now intros ->. Qed.

Lemma take_digits_app (ds : list ascii) (rest : string) :
  forallb is_digit ds = true -> starts_nondigit rest ->
  take_digits (string_of_list_ascii ds +:+ rest) = (ds, rest).
Proof.
  intros Hds Hrest. induction ds as [|d ds IH].
  - now apply take_digits_stop.
  - simpl in Hds. apply andb_true_iff in Hds as [Hd Hds].
    cbn [string_of_list_ascii]. rewrite append_cons. simpl.
    now rewrite Hd, IH.
Qed.

Lemma digits_value_fold (ds : list ascii) :
  forall acc,
    fold_left (fun acc c => (10 * acc + digit_value c)%Z) ds acc
    = (acc * 10 ^ Z.of_nat (List.length ds) + positional ds)%Z.
Proof.
  induction ds as [|d ds IH]; intros acc.
  - cbn. lia.
  - cbn [fold_left positional List.length]. rewrite IH.
    rewrite Nat2Z.inj_succ, Z.pow_succ_r by lia. ring.
Qed.

Lemma digits_value_positional (ds : list ascii) :
  digits_value ds = positional ds.
Proof. unfold digits_value. rewrite digits_value_fold. lia. Qed.

Lemma digits_value_app (ip fp : list ascii) :
  digits_value (ip ++ fp)
  = (positional ip * 10 ^ Z.of_nat (List.length fp) + positional fp)%Z.
Proof.
  unfold digits_value. rewrite fold_left_app, digits_value_fold.
  f_equal. f_equal. apply digits_value_positional.
Qed.

Lemma pow10_pos (n : nat) : Z.pos (pow10 n) = (10 ^ Z.of_nat n)%Z.
Proof. unfold pow10. apply Z2Pos.id. apply Z.pow_pos_nonneg; lia. Qed.

(** The number the parser builds is the one the digits denote. *)
Lemma decimal_value (n : numeral) :
  (decimal (negative n) (int_part n) (frac_part n) == numeral_value n)%Q.
Proof.
  unfold decimal, numeral_value. rewrite Qred_correct, Qmake_Qdiv.
  rewrite pow10_pos, digits_value_app.
  assert (Hp : ~ (inject_Z (10 ^ Z.of_nat (List.length (frac_part n))) == 0)%Q).
  { change 0%Q with (inject_Z 0). rewrite inject_Z_injective.
    apply Z.pow_nonzero; lia. }
  destruct (negative n).
  - rewrite inject_Z_opp, inject_Z_plus, inject_Z_mult. now field.
  - rewrite inject_Z_plus, inject_Z_mult. now field.
Qed.

(** The fractional digits read after the integer part. *)
Lemma parseFloat_shape (neg : bool) (ip fp : list ascii) (tail : string) :
  forallb is_digit ip = true ->
  starts_nondigit tail ->
  match tail with
  | String c rest => if Ascii.eqb c "." then fst (take_digits rest) else []
  | EmptyString => []
  end = fp ->
  (ip <> [] \/ fp <> []) ->
  (ip = [] -> tail <> "" /\ forall rest, tail <> String "-" rest) ->
  parseFloat ((if neg then "-" else "") +:+ string_of_list_ascii ip +:+ tail)
  = Some (decimal neg ip fp).
Proof.
  intros Hi Htail Hfp Hne Hhead.
  assert (Hend : match ip, fp with
                 | [], [] => None
                 | _, _ => Some (decimal neg ip fp)
                 end = Some (decimal neg ip fp)).
  { destruct ip, fp; try reflexivity. now destruct Hne. }
  unfold parseFloat. destruct neg.
  - rewrite append_cons, append_nil. cbv beta iota.
    rewrite Ascii.eqb_refl, take_digits_app by assumption. now rewrite Hfp.
  - rewrite append_nil.
    destruct (string_of_list_ascii ip +:+ tail) as [|c rest] eqn:E.
    + exfalso. destruct ip as [|d ip]; [|discriminate E].
      rewrite append_nil in E. now destruct (Hhead eq_refl).
    + assert (Hc : Ascii.eqb c "-" = false).
      { destruct (Ascii.eqb c "-") eqn:D; [|reflexivity].
        apply Ascii.eqb_eq in D. subst c. exfalso.
        destruct ip as [|d ip].
        - rewrite append_nil in E. destruct (Hhead eq_refl) as [_ H].
          now apply (H rest).
        - cbn [string_of_list_ascii] in E. rewrite append_cons in E.
          injection E as -> _. discriminate Hi. }
      rewrite Hc, <- E, take_digits_app by assumption. now rewrite Hfp.
Qed.

Lemma parseFloat_no_digit (s : string) :
  no_digit s = true -> parseFloat s = None.
Proof.
  intros H.
  assert (Hstop : forall t, no_digit t = true -> take_digits t = ([], t)).
  { intros t Ht. apply take_digits_stop. destruct t as [|c t]; [exact I|].
    simpl in Ht. apply andb_true_iff in Ht as [Hc _].
    now apply negb_true_iff. }
  unfold parseFloat. destruct s as [|c s].
  - reflexivity.
  - pose proof H as H'. simpl in H'. apply andb_true_iff in H' as [_ Hs].
    assert (Hfrac : forall t, no_digit t = true ->
              match t with
              | String c rest =>
                  if Ascii.eqb c "." then fst (take_digits rest) else []
              | EmptyString => []
              end = []).
    { intros [|c' t] Ht; [reflexivity|].
      simpl in Ht. apply andb_true_iff in Ht as [_ Ht].
      destruct (Ascii.eqb c' "."); [|reflexivity]. now rewrite Hstop. }
    destruct (Ascii.eqb c "-").
    + rewrite (Hstop s Hs). cbv beta iota. now rewrite (Hfrac s Hs).
    + rewrite (Hstop _ H). cbv beta iota. now rewrite (Hfrac _ H).
Qed.

Lemma no_digit_strip (s : string) : no_digit s = true -> no_digit (strip s) = true.
Proof.
  unfold no_digit. induction s as [|c s IH]; [reflexivity|].
  cbn [every strip]. intros [Hc Hs]%andb_true_iff.
  destruct (kept c); cbn [every]; [rewrite Hc|]; auto.
Qed.

Lemma no_digit_starts (s : string) : no_digit s = true -> starts_nondigit s.
Proof.
  destruct s as [|c s]; [intros _; exact I|]. cbn.
  intros [Hc _]%andb_true_iff. now apply negb_true_iff.
Qed.

(** A run is read as such whatever follows it, as long as no digit
    does. *)
Lemma parseFloat_run (n : numeral) (junk : string) :
  well_formed n -> no_digit junk = true ->
  parseFloat (spelled n +:+ junk)
  = Some (decimal (negative n) (int_part n) (frac_part n)).
Proof.
  intros (Hi & Hf & Hne) Hj. unfold spelled. rewrite !append_assoc.
  pose proof (no_digit_starts junk Hj) as Hstart.
  apply parseFloat_shape; try assumption.
  - destruct (frac_part n); [rewrite append_nil; exact Hstart|reflexivity].
  - destruct (frac_part n) as [|d fp] eqn:E.
    + rewrite append_nil. destruct junk as [|c rest]; [reflexivity|].
      destruct (Ascii.eqb c "."); [|reflexivity].
      cbn in Hj. apply andb_true_iff in Hj as [_ Hrest].
      now rewrite (take_digits_stop rest (no_digit_starts rest Hrest)).
    + rewrite <- E in *. rewrite !append_cons, append_nil.
      cbv beta iota. rewrite Ascii.eqb_refl.
      now rewrite take_digits_app.
  - intros Hip. destruct (frac_part n) as [|d fp].
    + now destruct Hne.
    + split; [discriminate|]. intros rest. rewrite !append_cons. discriminate.
Qed.

(** Induction on values, through the elements of arrays. *)
Lemma value_array_ind (P : value -> Prop) :
  (forall v, is_array v = false -> P v) ->
  (forall elems, Forall P elems -> P (VArr elems)) ->
  forall v, P v.
Proof.
  intros Hflat Harr. fix IH 1. intros v.
  destruct v as [ | | b | n | s | elems | fields | name];
    try (apply Hflat; reflexivity).
  apply Harr. induction elems as [|e elems IHe]; constructor.
  - apply IH.
  - exact IHe.
Qed.

(** [String] throws on the values that are not printable, and on no
    other. *)
Lemma String_printable (v : value) :
  if printable v
  then exists text, String_ v = Returned text
  else exists m, String_ v = Threw (Some m).
Proof.
  induction v as [v Hv|elems IH] using value_array_ind.
  - destruct v as [ | | b | n | s | elems | fields | name];
      try discriminate; cbn [printable String_]; eauto.
    unfold object_text.
    destruct (own "toString" fields) as [t|]; [|eauto].
    destruct t; eauto; destruct (own "valueOf" fields) as [[]|]; eauto.
  - cbn [printable String_].
    induction IH as [|e elems He _ IHelems]; cbn [forallb]; [cbn; eauto|].
    set (each := fix each (l : list value) : outcome (list string) := _) in *.
    assert (Hhead : match e with
                    | VUndefined | VNull => Returned ""
                    | _ => String_ e
                    end
                    = String_ e \/ printable e = true /\
                      exists t, match e with
                                | VUndefined | VNull => Returned ""
                                | _ => String_ e
                                end = Returned t).
    { destruct e; eauto. }
    change (each (e :: elems))
      with (obind (match e with
                   | VUndefined | VNull => Returned ""
                   | _ => String_ e
                   end)
              (fun s => obind (each elems) (fun ss => Returned (s :: ss)))).
    destruct (printable e) eqn:Pe; cbn [andb].
    + assert (Hp : exists t, match e with
                             | VUndefined | VNull => Returned ""
                             | _ => String_ e
                             end = Returned t).
      { destruct Hhead as [-> | [_ H]]; assumption. }
      destruct Hp as [t ->]. cbn [obind].
      destruct (forallb printable elems).
      * destruct IHelems as [text Htext].
        destruct (each elems) as [ss|]; [|discriminate]. cbn. eauto.
      * destruct IHelems as [m Hm].
        destruct (each elems) as [ss|m']; [discriminate|].
        cbn in Hm |- *. injection Hm as ->. eauto.
    + destruct Hhead as [-> | [H _]]; [|discriminate].
      destruct He as [m ->]. cbn. eauto.
Qed.

Lemma parsePrice_printable (priceRaw : value) :
  if printable priceRaw
  then exists r, parsePrice priceRaw = Returned r
  else exists m, parsePrice priceRaw = Threw (Some m).
Proof.
  pose proof (String_printable priceRaw) as H. unfold parsePrice.
  destruct (printable priceRaw) eqn:P.
  - destruct H as [text H]. destruct priceRaw; eauto; rewrite H; cbn; eauto.
  - destruct H as [m H]. destruct priceRaw; try discriminate;
      rewrite H; cbn; eauto.
Qed.

(** C6, as amended.  The price parser reads a string that holds one
    numeric run, before it only characters that are neither a digit nor a
    point nor a minus sign and after it no digit, as the number the run
    denotes; it yields [null] for every input whose text has no digit;
    it has a result on every printable input, and throws on every
    other. *)
Theorem parsePrice_single_run :
  (forall (pre post : string) (n : numeral),
     all_dropped pre = true -> no_digit post = true -> well_formed n ->
     exists v, parse_text (pre +:+ spelled n +:+ post) = Returned (Some v)
               /\ (v == numeral_value n)%Q) /\
  (forall priceRaw text,
     String_ priceRaw = Returned text -> no_digit text = true ->
     parsePrice priceRaw = Returned None) /\
  (forall priceRaw, printable priceRaw = true ->
     exists r, parsePrice priceRaw = Returned r) /\
  (forall priceRaw, printable priceRaw = false ->
     exists m, parsePrice priceRaw = Threw (Some m)).
Proof.
  split; [|split; [|split]].
  - intros pre post n Hpre Hpost Hn.
    exists (decimal (negative n) (int_part n) (frac_part n)).
    split; [|apply decimal_value].
    unfold parse_text, parsePrice. cbn [String_ obind]. f_equal.
    rewrite !strip_app, (strip_dropped pre Hpre), append_nil.
    rewrite strip_kept by now apply spelled_kept.
    apply parseFloat_run; [assumption|now apply no_digit_strip].
  - intros v text Hv Ht. unfold parsePrice.
    destruct v; try reflexivity; rewrite Hv; cbn [obind]; f_equal;
      now apply parseFloat_no_digit, no_digit_strip.
  - intros v Hv. pose proof (parsePrice_printable v) as H.
    now rewrite Hv in H.
  - intros v Hv. pose proof (parsePrice_printable v) as H.
    now rewrite Hv in H.
Qed.

Lemma parsePrice_single_run_witness :
  exists v, parse_text ("$" +:+ spelled twelve_fifty +:+ "/-") = Returned (Some v)
            /\ (v == numeral_value twelve_fifty)%Q.
Proof.
  apply (proj1 parsePrice_single_run "$" "/-" twelve_fifty).
  - reflexivity.
  - reflexivity.
  - repeat split; [left; discriminate].
Defined.

(** C6, as stated, fails twice.  [Rs. 500] holds the single numeric run
    [500], and the point of the currency mark survives the stripping, so
    the parser reads one half.  And the parser throws on a record that
    has a [toString] of its own. *)
Lemma parsePrice_digit_run_counterexample :
  (no_digit "Rs. " = true /\ no_digit "" = true /\ well_formed five_hundred /\
   "Rs. " +:+ spelled five_hundred +:+ "" = "Rs. 500" /\
   parse_text "Rs. 500" = Returned (Some (1 # 2)) /\
   ~ (1 # 2 == numeral_value five_hundred)%Q) /\
  parsePrice (VObj [("toString", VNum 0)])
  = Threw (Some "Cannot convert object to primitive value").
Proof.
  split; [|reflexivity].
  repeat split; try reflexivity.
  - left. discriminate.
  - intros H. vm_compute in H. discriminate.
Qed.

End Parser.

(** ** The offer normaliser *)

Section Normalizer.

Lemma orM_returned (x : value) (b : outcome value) :
  Returned x ||| b = if truthy x then Returned x else b.
Proof. reflexivity. Qed.

(** A chain of [||] over the fields of a record yields the first truthy
    one. *)
Ltac chains fields :=
  unfold getprop, orM, obind,
         title_names, url_names, seller_names, price_names;
  cbn [first_truthy];
  repeat match goal with
         | |- context [truthy (assoc ?k fields)] =>
             destruct (truthy (assoc k fields)) eqn:?
         end;
  try reflexivity; try congruence.

(** C7, as amended.  On a record, each normalised field is the first
    truthy candidate in priority order, else its default: the empty
    string for title, url and seller, [null] for the price candidate,
    which the price parser then reads; the record itself is kept as
    [raw].  When the price parser throws on the candidate, so does the
    normaliser. *)
Theorem normalize_first_truthy (fields : list (string * value)) :
  normalize (VObj fields)
  = (price <-- parsePrice (first_truthy price_names fields VNull) ;;
     Returned
       {| Offer.title := first_truthy title_names fields (VStr "");
          Offer.url := first_truthy url_names fields (VStr "");
          Offer.seller := first_truthy seller_names fields (VStr "");
          Offer.price := price;
          Offer.raw := VObj fields |}).
Proof.
  set (r := VObj fields).
  assert (Hp : getprop r "price" ||| getprop r "extracted_price"
               ||| getprop r "price" ||| Returned VNull
               = Returned (first_truthy price_names fields VNull))
    by (subst r; chains fields).
  assert (Ht : getprop r "title" ||| getprop r "product_title"
               ||| getprop r "name" ||| Returned (VStr "")
               = Returned (first_truthy title_names fields (VStr "")))
    by (subst r; chains fields).
  assert (Hu : getprop r "link" ||| getprop r "product_link"
               ||| getprop r "offer_link" ||| getprop r "source"
               ||| Returned (VStr "")
               = Returned (first_truthy url_names fields (VStr "")))
    by (subst r; chains fields).
  assert (Hs : getprop r "source" ||| getprop r "merchant"
               ||| getprop r "store" ||| Returned (VStr "")
               = Returned (first_truthy seller_names fields (VStr "")))
    by (subst r; chains fields).
  unfold normalize. rewrite Hp. cbn [obind].
  destruct (parsePrice (first_truthy price_names fields VNull)) as [price|m];
    cbn [obind]; [|reflexivity].
  now rewrite Ht, Hu, Hs.
Qed.

(** C7, as stated, fails: with an empty-string title present, the first
    present candidate is that title, and the normaliser takes the next
    one. *)
Lemma normalize_first_present_counterexample :
  exists o,
    normalize (VObj record_empty_title) = Returned o /\
    first_present title_names record_empty_title (VStr "") = VStr "" /\
    Offer.title o = VStr "B" /\
    Offer.title o <> first_present title_names record_empty_title (VStr "").
Proof.
  eexists. split; [reflexivity|]. repeat split. discriminate.
Qed.

(** C10.  Candidates are chosen by truthiness: a record whose price is
    the number zero, with no truthy [extracted_price], is normalised to a
    [null] price, and the reducer skips it; a record whose title is the
    empty string takes its title from the later candidates (the record
    is normalised when its price candidate can be printed). *)
Theorem normalize_by_truthiness :
  (forall fields n,
     assoc "price" fields = VNum n -> (n == 0)%Q ->
     truthy (assoc "extracted_price" fields) = false ->
     exists o, normalize (VObj fields) = Returned o /\
               Offer.price o = None /\
               forall items, lowestPrice (o :: items) = lowestPrice items) /\
  (forall fields,
     assoc "title" fields = VStr "" ->
     printable (first_truthy price_names fields VNull) = true ->
     exists o, normalize (VObj fields) = Returned o /\
               Offer.title o
               = first_truthy ["product_title"; "name"] fields (VStr "")).
Proof.
  split.
  - intros fields n Hp Hn He.
    assert (Hz : truthy (assoc "price" fields) = false).
    { rewrite Hp. cbn. unfold num_truthy.
      apply negb_false_iff, Qeq_bool_iff, Hn. }
    assert (Hnull : first_truthy price_names fields VNull = VNull).
    { unfold price_names. cbn [first_truthy]. now rewrite Hz, He. }
    eexists. split.
    + rewrite normalize_first_truthy, Hnull. reflexivity.
    + split; [reflexivity|]. intros items. reflexivity.
  - intros fields Ht Hpr.
    assert (Hname : forall price,
              Offer.title
                {| Offer.title := first_truthy title_names fields (VStr "");
                   Offer.url := first_truthy url_names fields (VStr "");
                   Offer.seller := first_truthy seller_names fields (VStr "");
                   Offer.price := price;
                   Offer.raw := VObj fields |}
              = first_truthy ["product_title"; "name"] fields (VStr "")).
    { intros price. cbn [Offer.title]. unfold title_names.
      cbn [first_truthy]. now rewrite Ht. }
    rewrite normalize_first_truthy.
    pose proof (parsePrice_printable (first_truthy price_names fields VNull))
      as Hp.
    rewrite Hpr in Hp. destruct Hp as [price ->]. cbn [obind].
    eexists. split; [reflexivity|apply Hname].
Qed.

Lemma normalize_by_truthiness_witness :
  (exists o, normalize (VObj record_free) = Returned o /\
             Offer.price o = None /\
             forall items, lowestPrice (o :: items) = lowestPrice items) /\
  (exists o, normalize (VObj record_empty_title) = Returned o /\
             Offer.title o
             = first_truthy ["product_title"; "name"] record_empty_title (VStr "")).
Proof.
  split.
  - apply (proj1 normalize_by_truthiness record_free 0%Q); reflexivity.
  - apply (proj2 normalize_by_truthiness record_empty_title); reflexivity.
Defined.

(** The example of the specification: the title is the first candidate. *)
Example normalize_A_B :
  exists o, normalize (VObj record_A_B) = Returned o /\
            Offer.title o = VStr "A" /\ Offer.price o = Some (25 # 2).
Proof. eexists. split; [reflexivity|]. split; reflexivity. Qed.

(** A price of 1e21 is printed with an exponent, which the stripping
    turns into the digits 121. *)
Example normalize_exponent :
  exists o,
    normalize (VObj [("price", VNum (inject_Z (10 ^ 21)))]) = Returned o /\
    Offer.price o = Some 121%Q.
Proof. eexists. split; [vm_compute; reflexivity|reflexivity]. Qed.

(** A price that is a record with a [toString] of its own makes the
    callback throw. *)
Example normalize_unprintable :
  normalize (VObj [("price", VObj [("toString", VNum 0)])])
  = Threw (Some "Cannot convert object to primitive value").
Proof. reflexivity. Qed.

(** A [null] entry of the result collection makes the callback throw. *)
Example normalize_null :
  normalize VNull
  = Threw (Some "Cannot read properties of null (reading 'price')").
Proof. reflexivity. Qed.

End Normalizer.

(** ** The sponsored-search gateway *)

Section Gateway.


Lemma query_text_string (s : string) : query_text (VStr s) = Returned (trim s).
Proof. unfold query_text, JS.or. cbn [truthy]. now destruct s. Qed.

Lemma handler_no_query (e : Env) (q : value) (w : World) :
  query_text q = Returned "" -> handler e q w = (missing_query, w).
Proof.
  intros H. unfold handler, try_catch, bind, lift. now rewrite H.
Qed.



(** A query that is a no-break space is a missing query. *)
Example sponsored_no_break_space :
  handler (gateway_env (Some "K") (Returned two_offers))
    (VStr (String (ascii_of_nat 194) (String (ascii_of_nat 160) ""))) idle
  = (missing_query, idle).
Proof. reflexivity. Qed.

(** Scenario 4 of the specification, run through the gateway. *)
Example sponsored_scenario_4 :
  exists items,
    fst (handler
           (gateway_env (Some "K")
              (Returned (VObj [("shopping_results",
                 VArr [VObj [("price", VStr "$12.50")];
                       VObj [("extracted_price", VNum 8)]])])))
           (VStr "shoes") idle)
    = json (BSponsored items (Some 8%Q)).
Proof. eexists. reflexivity. Qed.

End Gateway.

(** ** The document store *)

Section Listing.

Lemma insert_desc_perm (p : Product.t) (l : list Product.t) :
  Permutation (insert_desc p l) (p :: l).
Proof.
  induction l as [|q l IH]; cbn; [reflexivity|].
  destruct (Product.createdAt q <=? Product.createdAt p)%N; [reflexivity|].
  rewrite IH. apply perm_swap.
Qed.

Lemma sort_desc_perm (l : list Product.t) : Permutation (sort_desc l) l.
Proof.
  induction l as [|p l IH]; cbn; [reflexivity|].
  rewrite insert_desc_perm. now constructor.
Qed.

Lemma insert_desc_sorted (p : Product.t) (l : list Product.t) :
  newest_first l -> newest_first (insert_desc p l).
Proof.
  unfold newest_first. induction l as [|q l IH]; intros Hs; cbn.
  - repeat constructor.
  - apply StronglySorted_inv in Hs as [Hl Hq].
    destruct (Product.createdAt q <=? Product.createdAt p)%N eqn:E.
    + apply N.leb_le in E. constructor; [now constructor|].
      constructor; [exact E|].
      eapply List.Forall_impl; [|exact Hq]. cbn. intros r Hr. lia.
    + apply N.leb_gt in E. constructor; [now apply IH|].
      apply List.Forall_forall. intros r Hr.
      apply (Permutation_in _ (insert_desc_perm p l)) in Hr as [<-|Hr].
      * lia.
      * now apply (proj1 (List.Forall_forall _ _) Hq).
Qed.

Lemma sort_desc_sorted (l : list Product.t) : newest_first (sort_desc l).
Proof.
  induction l as [|p l IH]; cbn; [constructor|now apply insert_desc_sorted].
Qed.

Lemma firstn_sorted (n : nat) (l : list Product.t) :
  newest_first l -> newest_first (firstn n l).
Proof.
  unfold newest_first. revert l.
  induction n as [|n IH]; intros [|p l] Hs; cbn; try constructor.
  - apply IH. now apply StronglySorted_inv in Hs.
  - apply StronglySorted_inv in Hs as [_ Hp].
    apply List.Forall_forall. intros q Hq.
    apply (proj1 (List.Forall_forall _ _) Hp).
    clear -Hq. revert n Hq. induction l as [|x l IHl]; intros [|n] Hq;
      cbn in Hq; try contradiction.
    destruct Hq as [->|Hq]; [now left|right; eauto].
Qed.

Lemma firstn_incl (n : nat) (l : list Product.t) (p : Product.t) :
  In p (firstn n l) -> In p l.
Proof.
  revert n. induction l as [|x l IH]; intros [|n] H; cbn in H;
    try contradiction.
  destruct H as [->|H]; [now left|right; eauto].
Qed.

(** The listing of a user: that user's documents, newest first, at most
    one hundred of them. *)
Lemma listing_shape (userId : string) (s : list Product.t) :
  (exists sorted,
     Permutation sorted (List.filter (owned userId) s) /\
     newest_first sorted /\
     listing userId s = firstn 100 sorted) /\
  newest_first (listing userId s) /\
  (List.length (listing userId s) <= 100)%nat /\
  (forall p, In p (listing userId s) -> In p s /\ Product.userId p = userId).
Proof.
  unfold listing. split; [|split; [|split]].
  - exists (sort_desc (List.filter (owned userId) s)).
    auto using sort_desc_perm, sort_desc_sorted.
  - apply firstn_sorted, sort_desc_sorted.
  - apply firstn_le_length.
  - intros p Hp. apply firstn_incl in Hp.
    apply (Permutation_in _ (sort_desc_perm _)) in Hp.
    apply filter_In in Hp as [Hin Ho]. split; [exact Hin|].
    now apply String.eqb_eq.
Qed.

End Listing.

(** ** Handlers, step by step *)

Lemma world_eta (w : World) :
  {| store := store w; redis := redis w; outbound := outbound w |} = w.
Proof. now destruct w. Qed.

(** Unfolds a handler into the commands it sends. *)
Ltac unfold_handler :=
  unfold getAll, create, getOne, update, remove in *;
  unfold invalidate, scrapePrice in *;
  unfold getRedisClient, redis_get, redis_setEx, redis_del, redis_cmd,
         Product_find, Product_insert, Product_findOne, Product_save_views,
         Product_findOneAndUpdate, Product_findOneAndDelete, store_cmd in *;
  unfold try_catch, bind, ret, lift, set_store, set_cache in *;
  cbn [store redis outbound fst snd] in *.

(** Runs the unfolded handler as far as the rewriting [tac] allows. *)
Ltac run_with tac :=
  repeat (progress (cbv beta iota; cbn [store redis outbound fst snd]; tac)).

Section ListRead.

(** A list read that finds no live value reads the store. *)
Lemma getAll_miss (e : Env) (userId : string) (w : World) :
  no_fault e -> cache_miss (now e) userId w ->
  getAll e userId w
  = (json (BProducts (listing userId (store w)) false), populated e userId w).
Proof.
  intros [Hs Hc]. unfold cache_miss, populated. intros Hmiss. unfold_handler.
  destruct (redis w) as [m|] eqn:Hm.
  - destruct (m !! cacheKey userId) as [c|] eqn:Hk;
      run_with ltac:(rewrite ?Hm, ?Hc, ?Hs, ?Hk, ?Hmiss); reflexivity.
  - run_with ltac:(rewrite ?Hm, ?Hs). f_equal. rewrite <- Hm. apply world_eta.
Qed.

(** A list read answers a cached value only if one is live. *)
Lemma getAll_hit (e : Env) (userId : string) (w : World) (ps : list Product.t) :
  payload_of (fst (getAll e userId w)) = BProducts ps true ->
  exists m c,
    redis w = Some m /\ m !! cacheKey userId = Some c /\
    live (now e) c = true /\ ps = payload c.
Proof.
  unfold_handler. destruct w as [s [m|] o]; cbn [store redis outbound].
  - destruct (cache_fault e); [cbn; discriminate|].
    destruct (m !! cacheKey userId) as [c|] eqn:Hk;
      [destruct (live (now e) c) eqn:Hl|]; cbn [store redis outbound].
    + cbn. intros [= <-]. now exists m, c.
    + destruct (store_fault e); cbn; discriminate.
    + destruct (store_fault e); cbn; discriminate.
  - destruct (store_fault e); cbn; discriminate.
Qed.


Lemma cacheKey_inj (u v : string) : cacheKey u = cacheKey v -> u = v.
Proof.
  unfold cacheKey. rewrite !append_cons, !append_nil. now intros [=].
Qed.

(** A list read writes under the reader's key at most. *)
Lemma getAll_redis (e : Env) (userId : string) (w : World) :
  redis (snd (getAll e userId w)) = redis w \/
  exists m,
    redis w = Some m /\
    redis (snd (getAll e userId w))
    = Some (<[cacheKey userId :=
               {| payload := listing userId (store w);
                  written := now e; ex := 300 |}]> m).
Proof.
  unfold_handler. destruct w as [s [m|] o]; cbn [store redis outbound].
  - destruct (cache_fault e); [now left|].
    destruct (m !! cacheKey userId) as [c|]; [destruct (live (now e) c)|];
      try (now left); (destruct (store_fault e); [now left|]);
      right; exists m; split; reflexivity.
  - destruct (store_fault e); now left.
Qed.



(** Scenario 5 of the specification: the second of two list reads in a
    row is served from the cache and carries the same products. *)
Example list_read_twice :
  exists ps,
    fst (getAll (quiet 2 "b" None) "U" one_product)
    = json (BProducts ps false) /\
    fst (getAll (quiet 3 "c" None) "U" one_product_cached)
    = json (BProducts ps true).
Proof. eexists. split; vm_compute; reflexivity. Qed.

End ListRead.

(** ** The router, by cases *)

Section Dispatch.

Lemma wrap_let (r : response * World) :
  (let '(resp, w') := r in (Some resp, w')) = wrap r.
Proof. now destruct r. Qed.

Lemma accepts_literal_cases (s : string) (p : list string) :
  accepts (Literal s) p = NoMatch \/ accepts (Literal s) p = Matched "".
Proof.
  unfold accepts. destruct (segment p) as [x|]; [|now left].
  destruct (String.eqb _ _); auto.
Qed.

Lemma accepts_root_cases (p : list string) :
  accepts Root p = NoMatch \/ accepts Root p = Matched "".
Proof. destruct p as [|[|c x] [|y l]]; cbn; auto. Qed.

Lemma serve_served (e : Env) (req : Request) (w : World) :
  served e req w (serve e req w).
Proof.
  destruct req as [v p q b i].
  assert (Hlookup : lookup {| verb := v; path := p; query_q := q;
                              body_of := b; identity := i |}
                    = lookup_from 0 routes
                        {| verb := v; path := p; query_q := q;
                           body_of := b; identity := i |}) by reflexivity.
  unfold serve. rewrite Hlookup. unfold routes in *.
  cbn [lookup_from verb path on at_path] in *.
  destruct (accepts_literal_cases "sponsored" p) as [L|L]; rewrite L in *;
    destruct (accepts_root_cases p) as [R|R]; rewrite R in *;
    destruct (accepts Param p) as [|id|] eqn:P;
    destruct v; cbn [method_eqb] in *; cbv beta iota in *;
    first
      [ now apply served_nothing
      | cbn [run via]; rewrite wrap_let; now apply served_sponsored
      | cbn [run via auth identity]; destruct i as [u|];
        [ rewrite wrap_let;
          first [ now apply served_list
                | now apply served_create
                | apply served_one; try reflexivity; try assumption;
                  unfold names_sponsored; cbn [path]; congruence
                | now apply served_update
                | now apply served_remove ]
        | apply served_rejected; [|reflexivity];
          split; [rewrite Hlookup; discriminate|];
          intros [Hv Hn]; unfold names_sponsored in Hn; cbn [verb path] in *;
          congruence ] ].
Qed.

End Dispatch.

(** ** What each handler does to the store *)

Section StoreEffects.

Lemma fresh_existsb (e : Env) (w : World) :
  fresh e w -> existsb (has_id (fresh_id e)) (store w) = false.
Proof.
  unfold fresh. intros H. destruct (existsb _ _) eqn:E; [|reflexivity].
  exfalso. apply H. apply existsb_exists in E as (p & Hp & Hid).
  apply in_map_iff. exists p. split; [|exact Hp].
  now apply String.eqb_eq.
Qed.

Lemma sponsored_backends (e : Env) (q : value) (w : World) :
  store (snd (Sponsored.handler e q w)) = store w /\
  redis (snd (Sponsored.handler e q w)) = redis w.
Proof.
  unfold Sponsored.handler, try_catch, bind, lift, ret, axios.
  destruct (query_text q) as [s|]; [|now split].
  destruct (negb (string_truthy s)); [now split|].
  destruct (api_key e) as [k|]; [|now split].
  destruct (negb (string_truthy k)); [now split|].
  destruct (axios_get e _); [|now split].
  destruct (results_of _); [|now split].
  destruct (mapM normalize _); now split.
Qed.

Lemma getAll_store (e : Env) (userId : string) (w : World) :
  store (snd (getAll e userId w)) = store w.
Proof.
  unfold_handler. destruct w as [s [m|] o]; cbn [store redis outbound].
  - destruct (cache_fault e); [reflexivity|].
    destruct (m !! cacheKey userId) as [c|]; [destruct (live (now e) c)|];
      try reflexivity; destruct (store_fault e); reflexivity.
  - destruct (store_fault e); reflexivity.
Qed.

Lemma create_store (e : Env) (userId : string) (b : Body.t) (w : World) :
  store (snd (create e userId b w)) = store w \/
  exists d,
    scraped e = Returned d /\
    store (snd (create e userId b w)) = store w ++ [new_product e userId b d].
Proof.
  unfold_handler. destruct w as [s r o]; cbn [store redis outbound].
  destruct (scraped e) as [d|]; [|now left].
  destruct (store_fault e); [now left|].
  match goal with |- context [existsb ?f s] => destruct (existsb f s) end;
    [now left|].
  cbn [store redis outbound].
  destruct r as [m|]; [destruct (cache_fault e)|]; right; now exists d.
Qed.

Lemma getOne_store (e : Env) (userId id : string) (w : World) :
  store (snd (getOne e userId id w)) = store w \/
  exists p,
    List.find (selects id userId) (store w) = Some p /\
    store (snd (getOne e userId id w))
    = update_first (has_id (Product._id p))
        (Product.with_views (Product.views p + 1)) (store w).
Proof.
  unfold_handler. destruct w as [s r o]; cbn [store redis outbound].
  destruct (store_fault e); [now left|].
  destruct (List.find (selects id userId) s) as [p|] eqn:F; [|now left].
  right. exists p. split; reflexivity.
Qed.

Lemma update_first_none (test : Product.t -> bool) (f : Product.t -> Product.t)
    (l : list Product.t) :
  List.find test l = None -> update_first test f l = l.
Proof.
  induction l as [|p l IH]; cbn; [reflexivity|].
  destruct (test p); [discriminate|]. intros H. now rewrite IH.
Qed.

Lemma remove_first_none (test : Product.t -> bool) (l : list Product.t) :
  List.find test l = None -> remove_first test l = l.
Proof.
  induction l as [|p l IH]; cbn; [reflexivity|].
  destruct (test p); [discriminate|]. intros H. now rewrite IH.
Qed.

Lemma update_store (e : Env) (userId id : string) (b : Body.t) (w : World) :
  store (snd (update e userId id b w)) = store w \/
  store (snd (update e userId id b w))
  = update_first (selects id userId) (apply_set b) (store w).
Proof.
  unfold_handler. destruct w as [s r o]; cbn [store redis outbound].
  destruct (store_fault e); [now left|].
  destruct (List.find (selects id userId) s) as [p|] eqn:F; cbn [option_map].
  - cbn [store redis outbound].
    destruct r as [m|]; [destruct (cache_fault e)|]; now right.
  - right. cbn. reflexivity.
Qed.

Lemma remove_store (e : Env) (userId id : string) (w : World) :
  store (snd (remove e userId id w)) = store w \/
  store (snd (remove e userId id w))
  = remove_first (selects id userId) (store w).
Proof.
  unfold_handler. destruct w as [s r o]; cbn [store redis outbound].
  destruct (store_fault e); [now left|].
  destruct (List.find (selects id userId) s) as [p|] eqn:F.
  - cbn [store redis outbound].
    destruct r as [m|]; [destruct (cache_fault e)|]; now right.
  - right. cbn. reflexivity.
Qed.

Lemma Forall_update_first (P : Product.t -> Prop) (test : Product.t -> bool)
    (f : Product.t -> Product.t) (l : list Product.t) :
  (forall p, P p -> test p = true -> P (f p)) ->
  Forall P l -> Forall P (update_first test f l).
Proof.
  intros Hf. induction 1 as [|p l Hp Hl IH]; cbn; [constructor|].
  destruct (test p) eqn:T; constructor; auto.
Qed.

Lemma Forall_remove_first (P : Product.t -> Prop) (test : Product.t -> bool)
    (l : list Product.t) :
  Forall P l -> Forall P (remove_first test l).
Proof.
  induction 1 as [|p l Hp Hl IH]; cbn; [constructor|].
  destruct (test p); [assumption|now constructor].
Qed.

End StoreEffects.

(** ** Creation *)

Section Creation.

Lemma create_ok (e : Env) (userId : string) (b : Body.t) (w : World)
    (d : option PriceData) :
  no_fault e -> fresh e w -> scraped e = Returned d ->
  create e userId b w
  = (created (new_product e userId b d),
     invalidated userId
       (set_store (store w ++ [new_product e userId b d]) w)).
Proof.
  intros [Hs Hc] Hf%fresh_existsb Hd. unfold invalidated. unfold_handler.
  rewrite Hd.
  change (Product._id (new_product e userId b d)) with (fresh_id e).
  destruct (redis w) as [m|] eqn:Hm;
    run_with ltac:(rewrite ?Hs, ?Hf, ?Hm, ?Hc); reflexivity.
Qed.

Lemma create_status_scrape (e : Env) (userId : string) (b : Body.t) (w : World)
    (d d' : option PriceData) :
  status (fst (create (with_scrape (Returned d) e) userId b w))
  = status (fst (create (with_scrape (Returned d') e) userId b w)).
Proof.
  unfold_handler. unfold with_scrape.
  cbn [store_fault cache_fault fresh_id scraped now].
  change (Product._id (new_product _ userId b d)) with (fresh_id e).
  change (Product._id (new_product _ userId b d')) with (fresh_id e).
  destruct (store_fault e); [reflexivity|].
  destruct (existsb (has_id (fresh_id e)) (store w)); [reflexivity|].
  cbn [store redis outbound].
  destruct (redis w); [destruct (cache_fault e)|]; reflexivity.
Qed.

Lemma create_rejected (e : Env) (userId : string) (b : Body.t) (w : World)
    (detail : option string) :
  scraped e = Threw detail ->
  create e userId b w
  = (status_json 500 (BError "Error adding product" detail), w).
Proof. intros Hd. unfold_handler. now rewrite Hd. Qed.

Lemma In_invalidated_store (userId : string) (w : World) :
  store (invalidated userId w) = store w.
Proof. unfold invalidated. now destruct (redis w). Qed.

(** C3, as amended.  When no collaborator rejects and the new identifier
    is free, a create request whose scrape yields nothing is answered 201
    with a product of current price zero and empty history, which is in
    the store afterwards; when the scrape yields price [p], the product
    has current price [p] and a history of one entry.  Whatever else
    happens, a create request that is answered 201 with a scraped price
    is answered 201 without one: creation does not fail for want of a
    price.  When the scrape call rejects, the request is answered 500
    with the message of the error, and nothing is stored or sent to the
    cache. *)
Theorem create_degrades_without_price (e : Env) (userId : string)
    (b : Body.t) (w : World) :
  (no_fault e -> fresh e w ->
   (scraped e = Returned None ->
    exists p w',
      create e userId b w = (created p, w') /\ status (created p) = 201 /\
      Product.currentPrice p = 0%Q /\ Product.priceHistory p = [] /\
      In p (store w')) /\
   (forall d, scraped e = Returned (Some d) ->
    exists p w',
      create e userId b w = (created p, w') /\
      (Product.currentPrice p == scraped_price d)%Q /\
      List.length (Product.priceHistory p) = 1%nat /\
      In p (store w'))) /\
  (forall d,
     status (fst (create (with_scrape (Returned (Some d)) e) userId b w)) = 201 ->
     status (fst (create (with_scrape (Returned None) e) userId b w)) = 201) /\
  (forall detail,
     scraped e = Threw detail ->
     create e userId b w
     = (status_json 500 (BError "Error adding product" detail), w)).
Proof.
  split; [|split].
  - intros Hn Hf. split.
    + intros Hsc. eexists. eexists.
      split; [now apply (create_ok e userId b w None)|].
      repeat split.
      rewrite In_invalidated_store. cbn [set_store store].
      apply in_or_app. right. now left.
    + intros d Hsc. eexists. eexists.
      split; [now apply (create_ok e userId b w (Some d))|].
      repeat split.
      * cbn [new_product Product.currentPrice initial_price].
        unfold num_truthy.
        destruct (Qeq_bool (scraped_price d) 0) eqn:E; cbn [negb].
        -- symmetry. now apply Qeq_bool_iff.
        -- reflexivity.
      * rewrite In_invalidated_store. cbn [set_store store].
        apply in_or_app. right. now left.
  - intros d H. now rewrite (create_status_scrape e userId b w None (Some d)).
  - intros detail. apply create_rejected.
Qed.

Lemma create_degrades_without_price_witness :
  exists p w',
    create (quiet 1 "a" None) "U" tv (initial true) = (created p, w') /\
    status (created p) = 201 /\
    Product.currentPrice p = 0%Q /\ Product.priceHistory p = [] /\
    In p (store w').
Proof.
  apply (create_degrades_without_price (quiet 1 "a" None) "U" tv (initial true)).
  - split; reflexivity.
  - intros [].
  - reflexivity.
Defined.

(** C3, as stated, fails when the scraper rejects: the store and the
    cache answer and the identifier is free, yet the create is answered
    500 and no product is stored. *)
Lemma create_scraper_rejects_counterexample :
  no_fault (scraper_down 1 "a") /\ fresh (scraper_down 1 "a") (initial true) /\
  create (scraper_down 1 "a") "U" tv (initial true)
  = (status_json 500
       (BError "Error adding product" (Some "Navigation timeout")),
     initial true) /\
  store (snd (create (scraper_down 1 "a") "U" tv (initial true))) = [].
Proof.
  split; [split; reflexivity|]. split; [intros []|].
  split; reflexivity.
Qed.

(** Scenario 1 of the specification. *)
Example create_scenario_1 :
  exists p w',
    create (quiet 1 "a" (Some (1999 # 100))) "U" tv (initial true)
    = (created p, w') /\
    Product.currentPrice p = (1999 # 100)%Q /\
    List.length (Product.priceHistory p) = 1%nat.
Proof. eexists. eexists. split; [vm_compute; reflexivity|]. now split. Qed.

End Creation.

(** ** The current price and the history *)

Section PriceInvariant.

Lemma initial_price_scraped (d : PriceData) :
  (initial_price (Some d) == scraped_price d)%Q.
Proof.
  cbn [initial_price]. unfold num_truthy.
  destruct (Qeq_bool (scraped_price d) 0) eqn:E; cbn [negb].
  - symmetry. now apply Qeq_bool_iff.
  - reflexivity.
Qed.

Lemma price_consistent_new (e : Env) (userId : string) (b : Body.t)
    (priceData : option PriceData) :
  price_consistent (new_product e userId b priceData).
Proof.
  unfold price_consistent. destruct priceData as [d|]; cbn; [|exact I].
  apply initial_price_scraped.
Qed.

Lemma price_consistent_views (n : N) (p : Product.t) :
  price_consistent p -> price_consistent (Product.with_views n p).
Proof. now unfold price_consistent. Qed.

Lemma price_consistent_set (b : Body.t) (p : Product.t) :
  keeps_prices b -> price_consistent p -> price_consistent (apply_set b p).
Proof.
  intros [Hc Hh]. unfold price_consistent, apply_set.
  cbn [Product.priceHistory Product.currentPrice]. now rewrite Hc, Hh.
Qed.

(** C1, as amended.  If the current price of every stored product is the
    price of its most recent history entry, the same holds after any
    request the router serves, provided an update sets neither the
    current price nor the history.  A product created with a successful
    scrape has a history of exactly one entry, whose price is the scraped
    price, and that price as its current price. *)
Theorem current_price_follows_history (e : Env) (w : World) :
  (forall req,
     store_consistent w ->
     (verb req = PUT -> keeps_prices (body_of req)) ->
     store_consistent (snd (serve e req w))) /\
  (forall userId b d,
     no_fault e -> fresh e w -> scraped e = Returned (Some d) ->
     exists p w' entry,
       create e userId b w = (created p, w') /\ In p (store w') /\
       Product.priceHistory p = [entry] /\
       HistoryEntry.price entry = scraped_price d /\
       (Product.currentPrice p == scraped_price d)%Q).
Proof.
  split.
  - intros req Hw Hput. unfold store_consistent in *.
    destruct (serve_served e req w) as
      [ _ | _ _ | _ _ | u _ _ _ | u _ _ _ | u id _ _ _ _
      | u id Hv _ _ | u id _ _ _ ]; cbn [snd wrap]; try assumption.
    + now rewrite (proj1 (sponsored_backends e _ w)).
    + now rewrite getAll_store.
    + destruct (create_store e u (body_of req) w) as [-> | (d & _ & ->)];
        [assumption|].
      apply Forall_app. split; [assumption|].
      constructor; [apply price_consistent_new|constructor].
    + destruct (getOne_store e u id w) as [-> | (p & _ & ->)];
        [assumption|].
      apply Forall_update_first; [|assumption].
      intros q Hq _. now apply price_consistent_views.
    + destruct (update_store e u id (body_of req) w) as [-> | ->];
        [assumption|].
      apply Forall_update_first; [|assumption].
      intros q Hq _. apply price_consistent_set; auto.
    + destruct (remove_store e u id w) as [-> | ->]; [assumption|].
      now apply Forall_remove_first.
  - intros userId b d Hn Hf Hsc.
    exists (new_product e userId b (Some d)).
    eexists. exists (HistoryEntry.mk (scraped_price d) (now e)).
    split; [now apply (create_ok e userId b w (Some d))|]. repeat split.
    + rewrite In_invalidated_store. cbn [set_store store].
      apply in_or_app. right. now left.
    + apply initial_price_scraped.
Qed.

Lemma current_price_follows_history_witness :
  store_consistent
    (snd (serve (quiet 2 "b" None) (put "a" (rename "telly") "U") one_product)).
Proof.
  apply (current_price_follows_history (quiet 2 "b" None) one_product).
  - unfold store_consistent.
    remember (store one_product) as s eqn:E. vm_compute in E. subst s.
    constructor; [|constructor]. unfold price_consistent. cbn. reflexivity.
  - intros _. split; reflexivity.
Defined.

(** C1, as stated, fails: an update may set the current price and leave
    the history alone. *)
Lemma current_price_update_counterexample :
  reachable one_product /\ store_consistent one_product /\
  ~ store_consistent
      (snd (serve (quiet 2 "b" None) (put "a" (reprice 5) "U") one_product)).
Proof.
  split; [apply reach_serve, reach_initial|]. split.
  - unfold store_consistent.
    remember (store one_product) as s eqn:E. vm_compute in E. subst s.
    constructor; [|constructor]. unfold price_consistent. cbn. reflexivity.
  - unfold store_consistent.
    remember (store (snd (serve _ _ one_product))) as s eqn:E.
    vm_compute in E. subst s. intros H. apply Forall_inv in H.
    unfold price_consistent in H. cbn in H. discriminate H.
Qed.

End PriceInvariant.

(** ** What each handler does to the cache *)

Section CacheEffects.

Lemma getOne_redis (e : Env) (userId id : string) (w : World) :
  redis (snd (getOne e userId id w)) = redis w.
Proof.
  unfold_handler. destruct w as [s r o]; cbn [store redis outbound].
  destruct (store_fault e); [reflexivity|].
  destruct (List.find (selects id userId) s); reflexivity.
Qed.

Lemma create_redis (e : Env) (userId : string) (b : Body.t) (w : World) :
  deletes_at_most userId w (snd (create e userId b w)).
Proof.
  unfold deletes_at_most. unfold_handler.
  destruct w as [s r o]; cbn [store redis outbound].
  destruct (scraped e) as [d|]; [|now left].
  destruct (store_fault e); [now left|].
  match goal with |- context [existsb ?f s] => destruct (existsb f s) end;
    [now left|].
  cbn [store redis outbound].
  destruct r as [m|]; [destruct (cache_fault e)|]; try (now left).
  right. now exists m.
Qed.

Lemma update_redis (e : Env) (userId id : string) (b : Body.t) (w : World) :
  deletes_at_most userId w (snd (update e userId id b w)).
Proof.
  unfold deletes_at_most. unfold_handler.
  destruct w as [s r o]; cbn [store redis outbound].
  destruct (store_fault e); [now left|].
  destruct (List.find (selects id userId) s); cbn [option_map];
    [|now left].
  cbn [store redis outbound].
  destruct r as [m|]; [destruct (cache_fault e)|]; try (now left).
  right. now exists m.
Qed.

Lemma remove_redis (e : Env) (userId id : string) (w : World) :
  deletes_at_most userId w (snd (remove e userId id w)).
Proof.
  unfold deletes_at_most. unfold_handler.
  destruct w as [s r o]; cbn [store redis outbound].
  destruct (store_fault e); [now left|].
  destruct (List.find (selects id userId) s); [|now left].
  cbn [store redis outbound].
  destruct r as [m|]; [destruct (cache_fault e)|]; try (now left).
  right. now exists m.
Qed.

(** A write that is answered with success has deleted the writer's key. *)
Lemma create_succeeded (e : Env) (userId : string) (b : Body.t) (w : World) :
  succeeded (fst (create e userId b w)) ->
  uncached userId (snd (create e userId b w)).
Proof.
  unfold succeeded, uncached. unfold_handler.
  destruct w as [s r o]; cbn [store redis outbound].
  destruct (scraped e) as [d|]; [|cbn; lia].
  destruct (store_fault e); [cbn; lia|].
  match goal with |- context [existsb ?f s] => destruct (existsb f s) end;
    [cbn; lia|].
  cbn [store redis outbound].
  destruct r as [m|]; [destruct (cache_fault e)|]; cbn; try lia;
    intros _; try apply lookup_delete_eq; trivial.
Qed.

Lemma update_succeeded (e : Env) (userId id : string) (b : Body.t) (w : World) :
  succeeded (fst (update e userId id b w)) ->
  uncached userId (snd (update e userId id b w)).
Proof.
  unfold succeeded, uncached. unfold_handler.
  destruct w as [s r o]; cbn [store redis outbound].
  destruct (store_fault e); [cbn; lia|].
  destruct (List.find (selects id userId) s); cbn [option_map];
    [|cbn; lia].
  cbn [store redis outbound].
  destruct r as [m|]; [destruct (cache_fault e)|]; cbn; try lia;
    intros _; try apply lookup_delete_eq; trivial.
Qed.

Lemma remove_succeeded (e : Env) (userId id : string) (w : World) :
  succeeded (fst (remove e userId id w)) ->
  uncached userId (snd (remove e userId id w)).
Proof.
  unfold succeeded, uncached. unfold_handler.
  destruct w as [s r o]; cbn [store redis outbound].
  destruct (store_fault e); [cbn; lia|].
  destruct (List.find (selects id userId) s); [|cbn; lia].
  cbn [store redis outbound].
  destruct r as [m|]; [destruct (cache_fault e)|]; cbn; try lia;
    intros _; try apply lookup_delete_eq; trivial.
Qed.

Lemma uncached_deletes (u v : string) (w w' : World) :
  deletes_at_most v w w' -> uncached u w -> uncached u w'.
Proof.
  unfold deletes_at_most, uncached.
  intros [-> | (m & Hm & ->)]; [trivial|]. rewrite Hm. intros Hu.
  destruct (decide (cacheKey v = cacheKey u)) as [<-|Hne].
  - apply lookup_delete_eq.
  - now rewrite lookup_delete_ne.
Qed.

(** Only the user's own list read can put something under the user's
    key. *)
Lemma uncached_serve (u : string) (e : Env) (req : Request) (w : World) :
  uncached u w -> ~ is_list_read u req -> uncached u (snd (serve e req w)).
Proof.
  intros Hu Hnot.
  destruct (serve_served e req w) as
    [ _ | _ _ | _ _ | v Hv Hp Hi | v _ _ _ | v id _ _ _ _
    | v id _ _ _ | v id _ _ _ ]; cbn [snd wrap]; try assumption.
  - unfold uncached in *. now rewrite (proj2 (sponsored_backends e _ w)).
  - assert (Hne : v <> u) by (intros ->; now apply Hnot).
    unfold uncached in *.
    destruct (getAll_redis e v w) as [-> | (m & Hm & ->)]; [assumption|].
    rewrite Hm in Hu. rewrite lookup_insert_ne; [assumption|].
    intros H%cacheKey_inj. contradiction.
  - eapply uncached_deletes; [apply create_redis|assumption].
  - unfold uncached in *. now rewrite getOne_redis.
  - eapply uncached_deletes; [apply update_redis|assumption].
  - eapply uncached_deletes; [apply remove_redis|assumption].
Qed.

Lemma uncached_serve_all (u : string) (reqs : list (Env * Request)) :
  forall w,
    uncached u w ->
    Forall (fun er => ~ is_list_read u (snd er)) reqs ->
    uncached u (serve_all reqs w).
Proof.
  induction reqs as [|[e req] reqs IH]; intros w Hu Hall; cbn; [assumption|].
  apply Forall_cons_iff in Hall as [Hreq Hall].
  apply IH; [|assumption]. now apply uncached_serve.
Qed.

Lemma uncached_miss (t : N) (u : string) (w : World) :
  uncached u w -> cache_miss t u w.
Proof.
  unfold uncached, cache_miss. destruct (redis w); [|trivial].
  now intros ->.
Qed.

End CacheEffects.

(** ** Writes and the next list read *)

Section WriteThenRead.

Lemma serve_list_read (e : Env) (u : string) (w : World) :
  serve e (list_read u) w = wrap (getAll e u w).
Proof.
  unfold serve, lookup, routes, list_read.
  cbn [lookup_from verb path on at_path method_eqb accepts run via auth identity].
  apply wrap_let.
Qed.

(** With nothing under the user's key, a list read that answers products
    answers the store's. *)
Lemma getAll_uncached (e : Env) (u : string) (w : World)
    (ps : list Product.t) (tag : bool) :
  uncached u w ->
  payload_of (fst (getAll e u w)) = BProducts ps tag ->
  tag = false /\ ps = listing u (store w).
Proof.
  intros Hu. destruct tag.
  - intros (m & c & Hm & Hk & _)%getAll_hit.
    unfold uncached in Hu. rewrite Hm in Hu. congruence.
  - unfold uncached in Hu. unfold_handler.
    destruct w as [s [m|] o]; cbn [store redis outbound] in *.
    + destruct (cache_fault e); [cbn; discriminate|].
      rewrite Hu. cbn [store redis outbound].
      destruct (store_fault e); cbn; [discriminate|].
      now intros [= <-].
    + destruct (store_fault e); cbn; [discriminate|].
      now intros [= <-].
Qed.

(** A successful write leaves nothing under the writer's key. *)
Lemma write_uncached (e : Env) (req : Request) (w : World) (u : string)
    (resp : response) :
  is_write req -> identity req = Some u ->
  fst (serve e req w) = Some resp -> succeeded resp ->
  uncached u (snd (serve e req w)).
Proof.
  intros Hw Hi Hr Hok. pose proof (serve_served e req w) as Hs.
  remember (serve e req w) as r eqn:E. clear E.
  assert (Hget : verb req <> GET).
  { destruct Hw as [H|[H|H]]; rewrite H; discriminate. }
  destruct Hs as
    [ _ | Hv _ | _ Hn | v Hv _ _ | v _ _ Hv | v id Hv _ _ _
    | v id _ _ Hv | v id _ _ Hv ]; cbn [fst snd wrap] in *;
    try contradiction; try congruence.
  - assert (v = u) by congruence. subst v. injection Hr as <-.
    now apply create_succeeded.
  - assert (v = u) by congruence. subst v. injection Hr as <-.
    now apply update_succeeded.
  - assert (v = u) by congruence. subst v. injection Hr as <-.
    now apply remove_succeeded.
Qed.

(** C2, as amended.  After a create, update or delete by user [U] that
    is answered with success, nothing is cached under the key of [U].  Whatever
    requests follow, as long as none is a list read by [U], the next list
    read by [U] never answers a cached value: if it answers products at
    all, they are the listing of the store at that moment, without the
    [cached] tag; and when no collaborator rejects it does answer them,
    and caches them when there is a cache. *)
Theorem write_invalidates_listing (e : Env) (req : Request) (w : World)
    (u : string) (resp : response) :
  is_write req -> identity req = Some u ->
  fst (serve e req w) = Some resp -> succeeded resp ->
  uncached u (snd (serve e req w)) /\
  forall between,
    Forall (fun er => ~ is_list_read u (snd er)) between ->
    forall e2 ps tag,
      let w2 := serve_all between (snd (serve e req w)) in
      (forall r, fst (serve e2 (list_read u) w2) = Some r ->
         payload_of r = BProducts ps tag ->
         tag = false /\ ps = listing u (store w2)) /\
      (no_fault e2 ->
       serve e2 (list_read u) w2
       = (Some (json (BProducts (listing u (store w2)) false)),
          populated e2 u w2)).
Proof.
  intros Hw Hi Hr Hok.
  assert (Hu : uncached u (snd (serve e req w)))
    by (eapply write_uncached; eauto).
  split; [exact Hu|].
  intros between Hall e2 ps tag w2.
  assert (Hu2 : uncached u w2) by now apply uncached_serve_all.
  rewrite serve_list_read. split.
  - intros r [= <-]. now apply getAll_uncached.
  - intros Hn. unfold wrap. rewrite getAll_miss; [reflexivity|assumption|].
    now apply uncached_miss.
Qed.

Lemma write_invalidates_listing_witness :
  uncached "U"
    (snd (serve (quiet 3 "c" None) (put "a" (rename "telly") "U")
            one_product_cached)) /\
  forall between,
    Forall (fun er => ~ is_list_read "U" (snd er)) between ->
    forall e2 ps tag,
      let w2 := serve_all between
                  (snd (serve (quiet 3 "c" None) (put "a" (rename "telly") "U")
                          one_product_cached)) in
      (forall r, fst (serve e2 (list_read "U") w2) = Some r ->
         payload_of r = BProducts ps tag ->
         tag = false /\ ps = listing "U" (store w2)) /\
      (no_fault e2 ->
       serve e2 (list_read "U") w2
       = (Some (json (BProducts (listing "U" (store w2)) false)),
          populated e2 "U" w2)).
Proof.
  eapply (write_invalidates_listing (quiet 3 "c" None)
            (put "a" (rename "telly") "U") one_product_cached "U").
  - right. left. reflexivity.
  - reflexivity.
  - vm_compute. reflexivity.
  - vm_compute. lia.
Defined.

(** Scenario 6 of the specification: the list read after an update shows
    the update, although the list was cached before it. *)
Example update_then_list :
  exists m c p ps,
    redis one_product_cached = Some m /\ m !! cacheKey "U" = Some c /\
    fst (serve (quiet 4 "d" None) (list_read "U")
           (snd (serve (quiet 3 "c" None) (put "a" (rename "telly") "U")
                   one_product_cached)))
    = Some (json (BProducts (p :: ps) false)) /\
    Product.name p = VStr "telly".
Proof.
  eexists. eexists. eexists. eexists.
  split; [reflexivity|]. split; [vm_compute; reflexivity|].
  split; [vm_compute; reflexivity|reflexivity].
Qed.

(** C2, as stated, fails when the cache rejects the deletion: the update
    of [U] has changed the store by then, it is answered 500, the listing
    cached before it stays, and the next list read of [U] answers that
    listing, tagged [cached], although it is not the listing of the
    store any more. *)
Lemma stale_listing_counterexample :
  exists resp w1 ps p,
    is_write (put "a" (rename "telly") "U") /\
    serve (cache_down 3 "c") (put "a" (rename "telly") "U") one_product_cached
    = (Some resp, w1) /\
    status resp = 500 /\
    store w1 = [p] /\ Product.name p = VStr "telly" /\
    store w1 <> store one_product_cached /\
    serve (quiet 4 "d" None) (list_read "U") w1
    = (Some (json (BProducts ps true)), w1) /\
    ps = listing "U" (store one_product_cached) /\
    ps <> listing "U" (store w1).
Proof.
  eexists. eexists. eexists. eexists.
  split; [right; left; reflexivity|].
  split; [vm_compute; reflexivity|].
  split; [reflexivity|]. split; [reflexivity|]. split; [reflexivity|].
  split; [vm_compute; discriminate|].
  split; [vm_compute; reflexivity|].
  split; [vm_compute; reflexivity|vm_compute; discriminate].
Qed.

(** A write whose invalidation the cache rejects is answered 500 although
    the store has changed, and the cached listing stays. *)
Example rejected_invalidation :
  exists p m c,
    serve (cache_down 3 "c") (put "a" (rename "telly") "U") one_product_cached
    = (Some (status_json 500
               (BError "Error updating product" (Some "The client is closed"))),
       set_store [p] one_product_cached) /\
    Product.name p = VStr "telly" /\
    redis one_product_cached = Some m /\ m !! cacheKey "U" = Some c /\
    payload c = store one_product.
Proof.
  eexists. eexists. eexists. split; [vm_compute; reflexivity|].
  split; [reflexivity|]. split; [reflexivity|].
  split; vm_compute; reflexivity.
Qed.

End WriteThenRead.

(** ** Invariants of the reachable states *)

Section Invariants.

Lemma map_id_update_first (test : Product.t -> bool) (f : Product.t -> Product.t)
    (l : list Product.t) :
  (forall p, Product._id (f p) = Product._id p) ->
  map Product._id (update_first test f l) = map Product._id l.
Proof.
  intros Hf. induction l as [|p l IH]; cbn; [reflexivity|].
  destruct (test p); cbn; [now rewrite Hf|now rewrite IH].
Qed.

Lemma In_remove_first (test : Product.t -> bool) (l : list Product.t)
    (x : Product.t) :
  In x (remove_first test l) -> In x l.
Proof.
  induction l as [|p l IH]; cbn; [trivial|].
  destruct (test p); [now right|]. intros [->|H]; [now left|right; auto].
Qed.

Lemma NoDup_remove_first (test : Product.t -> bool) (l : list Product.t) :
  List.NoDup (map Product._id l) ->
  List.NoDup (map Product._id (remove_first test l)).
Proof.
  induction l as [|p l IH]; cbn; [trivial|].
  intros [Hp Hl]%List.NoDup_cons_iff. destruct (test p); [assumption|].
  cbn. apply List.NoDup_cons_iff. split; [|auto].
  intros (x & Hx & Hin%In_remove_first)%in_map_iff.
  apply Hp. apply in_map_iff. now exists x.
Qed.

Lemma create_store_fresh (e : Env) (userId : string) (b : Body.t) (w : World) :
  store (snd (create e userId b w)) = store w \/
  exists d,
    existsb (has_id (fresh_id e)) (store w) = false /\
    store (snd (create e userId b w)) = store w ++ [new_product e userId b d].
Proof.
  unfold_handler.
  destruct w as [s r o]; cbn [store redis outbound].
  destruct (scraped e) as [d|]; [|now left].
  change (Product._id (new_product e userId b d)) with (fresh_id e).
  destruct (store_fault e); [now left|].
  destruct (existsb (has_id (fresh_id e)) s) eqn:E; [now left|].
  cbn [store redis outbound].
  destruct r as [m|]; [destruct (cache_fault e)|]; right; now exists d.
Qed.

Lemma ids_unique_serve (e : Env) (req : Request) (w : World) :
  ids_unique w -> ids_unique (snd (serve e req w)).
Proof.
  unfold ids_unique. intros Hw.
  destruct (serve_served e req w) as
    [ _ | _ _ | _ _ | u _ _ _ | u _ _ _ | u id _ _ _ _
    | u id _ _ _ | u id _ _ _ ]; cbn [snd wrap]; try assumption.
  - now rewrite (proj1 (sponsored_backends e _ w)).
  - now rewrite getAll_store.
  - destruct (create_store_fresh e u (body_of req) w) as [-> | (d & Hf & ->)];
      [assumption|].
    rewrite map_app. cbn [map new_product Product._id].
    apply List.NoDup_app; [assumption|repeat constructor; intros []|].
    intros x Hx Hx'. destruct Hx' as [<-|[]].
    apply in_map_iff in Hx as (p & Hid & Hp).
    assert (Hex : existsb (has_id (fresh_id e)) (store w) = true).
    { apply existsb_exists. exists p. split; [exact Hp|].
      now apply String.eqb_eq. }
    congruence.
  - destruct (getOne_store e u id w) as [-> | (p & _ & ->)]; [assumption|].
    now rewrite map_id_update_first.
  - destruct (update_store e u id (body_of req) w) as [-> | ->];
      [assumption|].
    now rewrite map_id_update_first.
  - destruct (remove_store e u id w) as [-> | ->]; [assumption|].
    now apply NoDup_remove_first.
Qed.

Lemma cache_scoped_deletes (v : string) (w w' : World) :
  deletes_at_most v w w' -> cache_scoped w -> cache_scoped w'.
Proof.
  unfold deletes_at_most, cache_scoped.
  intros [Hr | (m & Hm & Hr)] Hw m' u c Hm' Hk.
  - rewrite Hr in Hm'. eauto.
  - rewrite Hr in Hm'. injection Hm' as <-.
    apply lookup_delete_Some in Hk as [_ Hk]. eauto.
Qed.

Lemma cache_scoped_serve (e : Env) (req : Request) (w : World) :
  cache_scoped w -> cache_scoped (snd (serve e req w)).
Proof.
  intros Hw.
  destruct (serve_served e req w) as
    [ _ | _ _ | _ _ | u _ _ _ | u _ _ _ | u id _ _ _ _
    | u id _ _ _ | u id _ _ _ ]; cbn [snd wrap]; try assumption.
  - unfold cache_scoped in *.
    now rewrite (proj2 (sponsored_backends e _ w)).
  - unfold cache_scoped in *.
    destruct (getAll_redis e u w) as [-> | (m & Hm & ->)]; [assumption|].
    intros m' v c [= <-] Hk.
    destruct (decide (cacheKey u = cacheKey v)) as [Heq|Hne].
    + rewrite Heq, lookup_insert_eq in Hk. injection Hk as <-.
      apply cacheKey_inj in Heq. subst v. cbn [payload].
      apply List.Forall_forall. intros p Hp.
      now apply (listing_shape u (store w)).
    + rewrite lookup_insert_ne in Hk by assumption. eauto.
  - eapply cache_scoped_deletes; [apply create_redis|assumption].
  - unfold cache_scoped in *. now rewrite getOne_redis.
  - eapply cache_scoped_deletes; [apply update_redis|assumption].
  - eapply cache_scoped_deletes; [apply remove_redis|assumption].
Qed.

Lemma reachable_invariants (w : World) :
  reachable w -> ids_unique w /\ cache_scoped w.
Proof.
  induction 1 as [cache|e req w _ [IHi IHc]].
  - split; [constructor|].
    intros m u c Hm Hk. destruct cache; [|discriminate].
    injection Hm as <-. now rewrite lookup_empty in Hk.
  - split; [now apply ids_unique_serve|now apply cache_scoped_serve].
Qed.

End Invariants.

(** ** Scope of the product endpoints *)

Section Scope.

Lemma owned_userId (u : string) (p : Product.t) :
  owned u p = true <-> Product.userId p = u.
Proof. apply String.eqb_eq. Qed.

Lemma selects_owned (id u : string) (p : Product.t) :
  selects id u p = true -> Product.userId p = u /\ Product._id p = id.
Proof.
  unfold selects. intros [Hid Ho]%andb_true_iff. split.
  - now apply owned_userId.
  - now apply String.eqb_eq.
Qed.

Lemma In_update_first (test : Product.t -> bool) (f : Product.t -> Product.t)
    (l : list Product.t) (x : Product.t) :
  In x l -> test x = false -> In x (update_first test f l).
Proof.
  intros Hin Hx. induction l as [|p l IH]; cbn; [contradiction|].
  destruct Hin as [->|Hin].
  - rewrite Hx. now left.
  - destruct (test p); right; auto.
Qed.

Lemma In_remove_first_kept (test : Product.t -> bool) (l : list Product.t)
    (x : Product.t) :
  In x l -> test x = false -> In x (remove_first test l).
Proof.
  intros Hin Hx. induction l as [|p l IH]; cbn; [contradiction|].
  destruct Hin as [->|Hin].
  - rewrite Hx. now left.
  - destruct (test p); [assumption|right; auto].
Qed.

Lemma unique_id (l : list Product.t) (x y : Product.t) :
  List.NoDup (map Product._id l) -> In x l -> In y l ->
  Product._id x = Product._id y -> x = y.
Proof.
  induction l as [|p l IH]; cbn; [contradiction|].
  intros [Hp Hl]%List.NoDup_cons_iff [->|Hx] [->|Hy] Hid; auto.
  - exfalso. apply Hp. rewrite Hid. now apply in_map.
  - exfalso. apply Hp. rewrite <- Hid. now apply in_map.
Qed.

(** The documents of other users stay where they are. *)
Lemma others_kept (e : Env) (req : Request) (w : World) (u : string)
    (p : Product.t) :
  ids_unique w -> identity req = Some u ->
  In p (store w) -> Product.userId p <> u ->
  In p (store (snd (serve e req w))).
Proof.
  intros Hid Hi Hp Hne.
  assert (Hsel : forall id, selects id u p = false).
  { intros id. destruct (selects id u p) eqn:E; [|reflexivity].
    now apply selects_owned in E as [E _]. }
  destruct (serve_served e req w) as
    [ _ | _ _ | _ _ | v _ _ Hv | v _ _ Hv | v id _ _ _ Hv
    | v id _ _ Hv | v id _ _ Hv ]; cbn [snd wrap]; try assumption;
    try (assert (v = u) by congruence; subst v).
  - now rewrite (proj1 (sponsored_backends e _ w)).
  - now rewrite getAll_store.
  - destruct (create_store e u (body_of req) w) as [-> | (d & _ & ->)];
      [assumption|].
    apply in_or_app. now left.
  - destruct (getOne_store e u id w) as [-> | (q & Hq & ->)]; [assumption|].
    apply find_some in Hq as [Hq Hs]. apply selects_owned in Hs as [Hu _].
    apply In_update_first; [assumption|].
    unfold has_id. destruct (String.eqb _ _) eqn:E; [|reflexivity].
    apply String.eqb_eq in E.
    assert (p = q) by (eapply unique_id; eauto). congruence.
  - destruct (update_store e u id (body_of req) w) as [-> | ->];
      [assumption|].
    now apply In_update_first.
  - destruct (remove_store e u id w) as [-> | ->]; [assumption|].
    now apply In_remove_first_kept.
Qed.

(** The cached listings of other users stay what they are. *)
Lemma cache_others_kept (e : Env) (req : Request) (w : World) (u v : string)
    (m : gmap string CacheEntry) :
  identity req = Some u -> product_route req -> v <> u ->
  redis w = Some m ->
  exists m', redis (snd (serve e req w)) = Some m' /\
             m' !! cacheKey v = m !! cacheKey v.
Proof.
  intros Hi [_ Hnot] Hne Hm.
  assert (Hkey : cacheKey u <> cacheKey v).
  { intros H%cacheKey_inj. congruence. }
  assert (Hdel : forall w', deletes_at_most u w w' ->
            exists m', redis w' = Some m' /\ m' !! cacheKey v = m !! cacheKey v).
  { intros w' [-> | (m0 & Hm0 & ->)]; [now exists m|].
    eexists. split; [reflexivity|].
    rewrite lookup_delete_ne by assumption. congruence. }
  destruct (serve_served e req w) as
    [ _ | Hv Hp | _ _ | x _ _ Hx | x _ _ Hx | x id _ _ _ Hx
    | x id _ _ Hx | x id _ _ Hx ]; cbn [snd wrap];
    try (now exists m); try (assert (x = u) by congruence; subst x).
  - now destruct Hnot.
  - destruct (getAll_redis e u w) as [-> | (m0 & Hm0 & ->)]; [now exists m|].
    eexists. split; [reflexivity|].
    rewrite lookup_insert_ne by assumption. congruence.
  - apply Hdel, create_redis.
  - rewrite getOne_redis. now exists m.
  - apply Hdel, update_redis.
  - apply Hdel, remove_redis.
Qed.

Lemma getAll_answered (e : Env) (u : string) (w : World) (p : Product.t) :
  cache_scoped w ->
  In p (answered (Some (fst (getAll e u w)))) -> Product.userId p = u.
Proof.
  unfold cache_scoped. intros Hc. unfold_handler.
  assert (Hl : In p (listing u (store w)) -> Product.userId p = u)
    by apply listing_shape.
  destruct w as [s [m|] o]; cbn [store redis outbound] in *.
  - destruct (cache_fault e); [cbn; contradiction|].
    destruct (m !! cacheKey u) as [c|] eqn:Hk;
      [destruct (live (now e) c)|]; cbn [store redis outbound].
    + cbn [answered payload_of fst json]. intros Hp.
      specialize (Hc m u c eq_refl Hk).
      now apply (proj1 (List.Forall_forall _ _) Hc).
    + destruct (store_fault e); cbn [answered payload_of fst json status_json];
        [contradiction|assumption].
    + destruct (store_fault e); cbn [answered payload_of fst json status_json];
        [contradiction|assumption].
  - destruct (store_fault e); cbn [answered payload_of fst json status_json];
      [contradiction|assumption].
Qed.

Lemma create_answered (e : Env) (u : string) (b : Body.t) (w : World)
    (p : Product.t) :
  In p (answered (Some (fst (create e u b w)))) -> Product.userId p = u.
Proof.
  unfold_handler. destruct w as [s r o]; cbn [store redis outbound].
  destruct (scraped e) as [d|]; [|cbn; contradiction].
  destruct (store_fault e); [cbn; contradiction|].
  match goal with |- context [existsb ?f s] => destruct (existsb f s) end;
    [cbn; contradiction|].
  cbn [store redis outbound].
  destruct r as [m|]; [destruct (cache_fault e)|];
    cbn [answered payload_of fst json status_json]; try contradiction;
    now intros [<-|[]].
Qed.

Lemma getOne_answered (e : Env) (u id : string) (w : World) (p : Product.t) :
  In p (answered (Some (fst (getOne e u id w)))) -> Product.userId p = u.
Proof.
  unfold_handler. destruct w as [s r o]; cbn [store redis outbound].
  destruct (store_fault e); [cbn; contradiction|].
  destruct (List.find (selects id u) s) as [q|] eqn:F;
    cbn [answered payload_of fst json status_json not_found];
    [|contradiction].
  apply find_some in F as [_ [Hu _]%selects_owned].
  now intros [<-|[]].
Qed.

Lemma update_answered (e : Env) (u id : string) (b : Body.t) (w : World)
    (p : Product.t) :
  In p (answered (Some (fst (update e u id b w)))) ->
  exists q, In q (store w) /\ Product.userId q = u /\ p = apply_set b q.
Proof.
  unfold_handler. destruct w as [s r o]; cbn [store redis outbound].
  destruct (store_fault e); [cbn; contradiction|].
  destruct (List.find (selects id u) s) as [q|] eqn:F; cbn [option_map];
    [|cbn; contradiction].
  apply find_some in F as [Hq [Hu _]%selects_owned].
  cbn [store redis outbound].
  destruct r as [m|]; [destruct (cache_fault e)|];
    cbn [answered payload_of fst json status_json]; try contradiction;
    intros [<-|[]]; now exists q.
Qed.

Lemma remove_answered (e : Env) (u id : string) (w : World) :
  answered (Some (fst (remove e u id w))) = [].
Proof.
  unfold_handler. destruct w as [s r o]; cbn [store redis outbound].
  destruct (store_fault e); [reflexivity|].
  destruct (List.find (selects id u) s); [|reflexivity].
  cbn [store redis outbound].
  destruct r as [m|]; [destruct (cache_fault e)|]; reflexivity.
Qed.

(** Every product in the answer to a request by [u] is a document of
    [u], or the document of [u] that the request has just updated. *)
Lemma answered_scoped (e : Env) (req : Request) (w : World) (u : string)
    (p : Product.t) :
  cache_scoped w -> identity req = Some u -> product_route req ->
  In p (answered (fst (serve e req w))) ->
  Product.userId p = u \/
  (verb req = PUT /\
   exists q, In q (store w) /\ Product.userId q = u /\
             p = apply_set (body_of req) q).
Proof.
  intros Hc Hi [_ Hnot].
  destruct (serve_served e req w) as
    [ _ | Hv Hp | _ Hn | x _ _ Hx | x _ _ Hx | x id _ _ _ Hx
    | x id Hv _ Hx | x id _ _ Hx ]; cbn [fst wrap];
    try (assert (x = u) by congruence; subst x).
  - contradiction.
  - now destruct Hnot.
  - contradiction.
  - left. now apply (getAll_answered e u w).
  - left. now apply (create_answered e u (body_of req) w).
  - left. now apply (getOne_answered e u id w).
  - right. split; [assumption|]. now apply (update_answered e u id).
  - now rewrite remove_answered.
Qed.

End Scope.

Section ScopeTheorem.

Lemma serve_sponsored (e : Env) (req : Request) (w : World) :
  verb req = GET -> names_sponsored (path req) ->
  serve e req w = wrap (Sponsored.handler e (query_q req) w).
Proof.
  destruct req as [v p q b i]. unfold names_sponsored.
  cbn [verb path query_q]. intros -> L.
  unfold serve, lookup, routes.
  cbn [lookup_from verb path on at_path]. rewrite L.
  cbn [method_eqb run via query_q]. apply wrap_let.
Qed.

Lemma filter_update_first (v : string) (test : Product.t -> bool)
    (f : Product.t -> Product.t) (l : list Product.t) :
  (forall x, In x l -> test x = true ->
     owned v x = false /\ owned v (f x) = false) ->
  List.filter (owned v) (update_first test f l) = List.filter (owned v) l.
Proof.
  induction l as [|p l IH]; intros H; cbn [update_first List.filter];
    [reflexivity|].
  destruct (test p) eqn:T.
  - destruct (H p (or_introl eq_refl) T) as [Hp Hf].
    cbn [List.filter]. now rewrite Hp, Hf.
  - cbn [List.filter]. rewrite IH; [reflexivity|].
    intros x Hx. apply H. now right.
Qed.

Lemma filter_remove_first (v : string) (test : Product.t -> bool)
    (l : list Product.t) :
  (forall x, In x l -> test x = true -> owned v x = false) ->
  List.filter (owned v) (remove_first test l) = List.filter (owned v) l.
Proof.
  induction l as [|p l IH]; intros H; cbn [remove_first List.filter];
    [reflexivity|].
  destruct (test p) eqn:T.
  - now rewrite (H p (or_introl eq_refl) T).
  - cbn [List.filter]. rewrite IH; [reflexivity|].
    intros x Hx. apply H. now right.
Qed.

Lemma owned_other (u v : string) (x : Product.t) :
  v <> u -> Product.userId x = u -> owned v x = false.
Proof.
  intros Hne Hx. unfold owned. apply String.eqb_neq. congruence.
Qed.

(** The documents another user owns stay the same, unless an update
    names that user as the new owner. *)
Lemma others_owned (e : Env) (req : Request) (w : World) (u v : string) :
  ids_unique w -> identity req = Some u -> v <> u ->
  (verb req = PUT -> Body.userId (body_of req) <> Some v) ->
  List.filter (owned v) (store (snd (serve e req w)))
  = List.filter (owned v) (store w).
Proof.
  intros Hid Hi Hne Hput.
  destruct (serve_served e req w) as
    [ _ | _ _ | _ _ | x _ _ Hx | x _ _ Hx | x id _ _ _ Hx
    | x id Hv _ Hx | x id _ _ Hx ]; cbn [snd wrap]; try reflexivity;
    try (assert (x = u) by congruence; subst x).
  - now rewrite (proj1 (sponsored_backends e _ w)).
  - now rewrite getAll_store.
  - destruct (create_store e u (body_of req) w) as [-> | (d & _ & ->)];
      [reflexivity|].
    rewrite List.filter_app. cbn [List.filter new_product].
    rewrite (owned_other u v) by (assumption || reflexivity).
    apply app_nil_r.
  - destruct (getOne_store e u id w) as [-> | (q & Hq & ->)]; [reflexivity|].
    apply find_some in Hq as [Hq Hs]. apply selects_owned in Hs as [Hu _].
    apply filter_update_first. intros y Hy Ht.
    assert (y = q).
    { eapply unique_id; eauto. now apply String.eqb_eq in Ht. }
    subst y. split; now apply (owned_other u v).
  - destruct (update_store e u id (body_of req) w) as [-> | ->];
      [reflexivity|].
    apply filter_update_first. intros y Hy Ht.
    apply selects_owned in Ht as [Hu _]. split.
    + now apply (owned_other u v).
    + unfold owned, apply_set. cbn [Product.userId].
      apply String.eqb_neq. specialize (Hput Hv).
      destruct (Body.userId (body_of req)) as [o|]; cbn [set_field];
        congruence.
  - destruct (remove_store e u id w) as [-> | ->]; [reflexivity|].
    apply filter_remove_first. intros y Hy Ht.
    apply selects_owned in Ht as [Hu _]. now apply (owned_other u v).
Qed.

(** C4, as amended.  The list, create, read-one, update and delete
    endpoints run behind the authentication middleware: without an
    identity the request is rejected and nothing changes.  With identity
    [u], in every state the router can be in, each product in the answer
    is a document of [u] (or the document of [u] that the request has
    just updated); every stored document of another user is still in the
    store afterwards; the cached listing of every other user is what it
    was; and the documents another user [v] owns are the same as before,
    unless the request is an update whose body names [v] as the owner.
    The sponsored search is answered by the handler registered without
    the middleware, whoever asks. *)
Theorem product_endpoints_scoped (e : Env) (req : Request) (w : World) :
  (product_route req -> identity req = None ->
   serve e req w = (Some unauthorized, w)) /\
  (forall u,
     product_route req -> identity req = Some u -> reachable w ->
     (forall p, In p (answered (fst (serve e req w))) ->
        Product.userId p = u \/
        (verb req = PUT /\
         exists q, In q (store w) /\ Product.userId q = u /\
                   p = apply_set (body_of req) q)) /\
     (forall p, In p (store w) -> Product.userId p <> u ->
        In p (store (snd (serve e req w)))) /\
     (forall v m, v <> u -> redis w = Some m ->
        exists m', redis (snd (serve e req w)) = Some m' /\
                   m' !! cacheKey v = m !! cacheKey v) /\
     (forall v, v <> u ->
        (verb req = PUT -> Body.userId (body_of req) <> Some v) ->
        List.filter (owned v) (store (snd (serve e req w)))
        = List.filter (owned v) (store w))) /\
  (verb req = GET -> names_sponsored (path req) ->
   serve e req w = wrap (Sponsored.handler e (query_q req) w)).
Proof.
  split; [|split].
  - intros [Hl Hnot] Hi.
    destruct (serve_served e req w) as
      [ H | Hv Hp | _ _ | x _ _ Hx | x _ _ Hx | x id _ _ _ Hx
      | x id _ _ Hx | x id _ _ Hx ];
      try congruence; try reflexivity; try contradiction.
    now destruct Hnot.
  - intros u Hroute Hi [Hids Hcache]%reachable_invariants.
    split; [|split; [|split]].
    + intros p. now apply answered_scoped.
    + intros p. now apply others_kept.
    + intros v m Hne Hm. now apply (cache_others_kept e req w u v m).
    + intros v Hne Hput. now apply (others_owned e req w u v).
  - apply serve_sponsored.
Qed.

Lemma product_endpoints_scoped_witness :
  (forall p,
     In p (answered (fst (serve (quiet 2 "b" None) (get ["a"] "V") one_product))) ->
     Product.userId p = "V" \/
     (verb (get ["a"] "V") = PUT /\
      exists q, In q (store one_product) /\ Product.userId q = "V" /\
                p = apply_set (body_of (get ["a"] "V")) q)) /\
  (forall p, In p (store one_product) -> Product.userId p <> "V" ->
     In p (store (snd (serve (quiet 2 "b" None) (get ["a"] "V") one_product)))) /\
  (forall v m, v <> "V" -> redis one_product = Some m ->
     exists m',
       redis (snd (serve (quiet 2 "b" None) (get ["a"] "V") one_product))
       = Some m' /\
       m' !! cacheKey v = m !! cacheKey v) /\
  (forall v, v <> "V" ->
     (verb (get ["a"] "V") = PUT ->
      Body.userId (body_of (get ["a"] "V")) <> Some v) ->
     List.filter (owned v)
       (store (snd (serve (quiet 2 "b" None) (get ["a"] "V") one_product)))
     = List.filter (owned v) (store one_product)).
Proof.
  apply (product_endpoints_scoped (quiet 2 "b" None) (get ["a"] "V") one_product).
  - split; [discriminate|]. intros [_ [=]].
  - reflexivity.
  - apply reach_serve, reach_initial.
Defined.

(** The sponsored search answers a path in capitals, and one with a
    trailing slash, without credentials. *)
Example sponsored_in_capitals :
  forall p, p = ["SPONSORED"] \/ p = ["Sponsored"; ""] ->
    fst (serve (gateway_env None (Returned VNull))
           {| verb := GET; path := p; query_q := VStr "shoes";
              body_of := Body.empty; identity := None |} idle)
    = Some not_configured.
Proof. intros p [-> | ->]; reflexivity. Qed.

(** A parameter that cannot be decoded is answered by no route. *)
Example undecodable_parameter :
  serve (quiet 2 "b" None) (get ["%E0%A4%A"] "U") one_product
  = (None, one_product).
Proof. reflexivity. Qed.

(** C4, as stated, fails twice.  A sponsored search without credentials
    is routed to the handler registered without the middleware, which
    calls the provider and answers.  And an update whose body names
    another user hands the document over: that user, who owned nothing,
    owns it afterwards, and it is the acting user's no more. *)
Lemma sponsored_without_identity_counterexample :
  (identity anonymous_search = None /\
   (exists r h,
      lookup anonymous_search = Some (0%nat, r, "") /\
      serves r = SponsoredSearch /\ via r = Plain h) /\
   (exists items,
      serve (gateway_env (Some "K") (Returned two_offers)) anonymous_search idle
      = (Some (json (BSponsored items (Some 8%Q))),
         sent (search_url "shoes" "K") idle)) /\
   fst (serve (gateway_env (Some "K") (Returned two_offers)) anonymous_search idle)
   <> Some unauthorized) /\
  (reachable one_product /\
   product_route (put "a" (hand_over "V") "U") /\
   List.filter (owned "V") (store one_product) = [] /\
   exists p,
     store (snd (serve (quiet 2 "b" None) (put "a" (hand_over "V") "U")
                   one_product)) = [p] /\
     List.filter (owned "V")
       (store (snd (serve (quiet 2 "b" None) (put "a" (hand_over "V") "U")
                      one_product))) = [p] /\
     Product._id p = "a").
Proof.
  split.
  - split; [reflexivity|]. split; [|split].
    + eexists. eexists. split; [reflexivity|]. split; reflexivity.
    + eexists. vm_compute. reflexivity.
    + vm_compute. discriminate.
  - split; [apply reach_serve, reach_initial|]. split; [|split].
    + split; [discriminate|]. intros [[=] _].
    + reflexivity.
    + eexists. split; [vm_compute; reflexivity|]. split; reflexivity.
Qed.

(** The second registration of the sponsored search, behind the
    middleware, is never chosen. *)
Lemma sponsored_second_route_dead_at (req : Request) (n : nat) (r : route)
    (id : string) :
  lookup req = Some (n, r, id) -> n <> 6%nat.
Proof.
  destruct req as [v p q b i]. unfold lookup, routes.
  cbn [lookup_from verb path on at_path].
  destruct (accepts_literal_cases "sponsored" p) as [L|L]; rewrite L;
    destruct (accepts_root_cases p) as [R|R]; rewrite R;
    destruct (accepts Param p) as [|x|];
    destruct v; cbn [method_eqb]; try discriminate;
    intros [= <- _ _]; discriminate.
Qed.

End ScopeTheorem.

(** * Further properties *)

(** ** The gateway: what it sends and what it answers *)

Section GatewayMore.



Lemma getprop_returned (r : value) (k : string) :
  nullish r = false -> exists v, getprop r k = Returned v.
Proof. destruct r; cbn; try discriminate; eauto. Qed.

Lemma orM_returns (a b : outcome value) :
  (exists x, a = Returned x) -> (exists y, b = Returned y) ->
  exists z, a ||| b = Returned z.
Proof.
  intros [x ->] [y ->]. unfold orM, obind. destruct (truthy x); eauto.
Qed.

Lemma getprop_opt_returned (r : value) (k : string) :
  nullish r = false -> getprop r k = Returned (getprop_opt r k).
Proof. now destruct r. Qed.

Lemma price_chain (r : value) :
  nullish r = false ->
  getprop r "price" ||| getprop r "extracted_price" ||| getprop r "price"
  ||| Returned VNull
  = Returned (price_candidate r).
Proof.
  intros Hr. rewrite !getprop_opt_returned by assumption.
  unfold orM, obind, price_candidate, JS.or.
  destruct (truthy (getprop_opt r "price")) eqn:P; [now rewrite !P|].
  destruct (truthy (getprop_opt r "extracted_price")) eqn:E;
    [now rewrite E|].
  now rewrite P.
Qed.

(** The callback returns on the readable entries, and throws on every
    other; what it returns keeps the entry as [raw]. *)
Lemma normalize_returns (r : value) :
  readable r = true ->
  exists o, normalize r = Returned o /\ Offer.raw o = r.
Proof.
  intros [Hr Hp]%andb_true_iff. apply negb_true_iff in Hr.
  unfold normalize. rewrite (price_chain r Hr). cbn [obind].
  pose proof (parsePrice_printable (price_candidate r)) as Hprice.
  rewrite Hp in Hprice. destruct Hprice as [price ->]. cbn [obind].
  assert (G : forall k, exists v, getprop r k = Returned v)
    by (intros k; now apply getprop_returned).
  assert (C : forall d, exists v, Returned d = Returned v :> outcome value)
    by eauto.
  repeat match goal with
         | |- context [obind (?a ||| ?b) _] =>
             let H := fresh "H" in
             assert (H : exists z, a ||| b = Returned z)
               by (repeat apply orM_returns; auto);
             destruct H as [? ->]; cbn [obind]
         end.
  eauto.
Qed.

Lemma normalize_throws (r : value) :
  readable r = false -> exists m, normalize r = Threw (Some m).
Proof.
  unfold readable. destruct (nullish r) eqn:Hr; cbn [negb andb].
  - intros _. destruct r; try discriminate; cbn; eauto.
  - intros Hp. unfold normalize. rewrite (price_chain r Hr). cbn [obind].
    pose proof (parsePrice_printable (price_candidate r)) as Hprice.
    rewrite Hp in Hprice. destruct Hprice as [m ->]. cbn. eauto.
Qed.

Lemma mapM_normalize_returns (results : list value) :
  forallb readable results = true ->
  exists items,
    mapM normalize results = Returned items /\ map Offer.raw items = results.
Proof.
  induction results as [|r results IH]; cbn [forallb mapM].
  - exists []. now split.
  - intros [Hr Hrs]%andb_true_iff.
    destruct (normalize_returns r Hr) as (o & -> & Ho).
    destruct (IH Hrs) as (items & -> & Hi). cbn [obind].
    exists (o :: items). split; [reflexivity|]. cbn. now rewrite Ho, Hi.
Qed.

Lemma mapM_normalize_throws (results : list value) :
  forallb readable results = false ->
  exists m, mapM normalize results = Threw (Some m).
Proof.
  induction results as [|r results IH]; cbn [forallb mapM]; [discriminate|].
  destruct (readable r) eqn:Hr; cbn [andb].
  - intros Hrs. destruct (normalize_returns r Hr) as (o & -> & _).
    destruct (IH Hrs) as [m ->]. cbn. eauto.
  - intros _. destruct (normalize_throws r Hr) as [m ->]. cbn. eauto.
Qed.

(** X2.  When the provider answers with a result array, the gateway
    answers one offer per entry, in the order of the array, each keeping
    its entry as [raw], together with the lowest price of those offers,
    provided every entry is readable: it is not [null], and its price
    candidate can be printed.  An entry that is not makes the whole
    search fail with the fetch error, after the provider has been called;
    so does a result collection that is not an array. *)
Theorem sponsored_one_offer_per_result (e : Env) (s key : string) (data : value)
    (w : World) :
  trim s <> "" -> api_key e = Some key -> key <> "" ->
  axios_get e (search_url (trim s) key) = Returned data ->
  (forall results,
     getprop_opt data "shopping_results" = VArr results ->
     (forallb readable results = true ->
      exists items,
        handler e (VStr s) w
        = (json (BSponsored items (lowestPrice items)),
           sent (search_url (trim s) key) w) /\
        map Offer.raw items = results) /\
     (forallb readable results = false ->
      exists m,
        handler e (VStr s) w
        = (fetch_error (Some m), sent (search_url (trim s) key) w))) /\
  (truthy (getprop_opt data "shopping_results") = true ->
   is_array (getprop_opt data "shopping_results") = false ->
   handler e (VStr s) w
   = (fetch_error (Some "results.map is not a function"),
      sent (search_url (trim s) key) w)).
Proof.
  intros Hs Hkey Hne Hax.
  assert (Hq : string_truthy (trim s) = true) by now destruct (trim s).
  assert (Hk : string_truthy key = true) by now destruct key.
  assert (Hrun : handler e (VStr s) w
                 = try_catch "Error fetching sponsored results"
                     (results <- lift (results_of data) ;;
                      items <- lift (mapM normalize results) ;;
                      ret (json (BSponsored items (lowestPrice items))))
                     (sent (search_url (trim s) key) w)).
  { unfold handler, try_catch, bind, lift.
    rewrite query_text_string, Hq, Hkey, Hk. cbn [negb].
    unfold axios. now rewrite Hax. }
  rewrite Hrun. unfold try_catch, bind, lift, ret, results_of. split.
  - intros results Hres. rewrite Hres. cbn [JS.or truthy]. split.
    + intros Hall. destruct (mapM_normalize_returns results Hall)
        as (items & -> & Hraw).
      exists items. now split.
    + intros Hsome. destruct (mapM_normalize_throws results Hsome) as [m ->].
      now exists m.
  - intros Ht Ha. unfold JS.or. rewrite Ht.
    now destruct (getprop_opt data "shopping_results").
Qed.

Lemma sponsored_one_offer_per_result_witness :
  exists items,
    handler (gateway_env (Some "K") (Returned two_offers)) (VStr "shoes") idle
    = (json (BSponsored items (lowestPrice items)),
       sent (search_url (trim "shoes") "K") idle) /\
    map Offer.raw items
    = [VObj [("title", VStr "A"); ("price", VStr "$12.50")];
       VObj [("title", VStr "B"); ("extracted_price", VNum 8)]].
Proof.
  destruct (sponsored_one_offer_per_result
              (gateway_env (Some "K") (Returned two_offers)) "shoes" "K"
              two_offers idle) as [H _];
    [discriminate|reflexivity|discriminate|reflexivity|].
  apply (H _ eq_refl). reflexivity.
Defined.

End GatewayMore.

(** ** The query text *)

Section QueryText.

Lemma trim_start_spaces (pad s : string) :
  every is_space pad = true -> trim_start (pad +:+ s) = trim_start s.
Proof.
  induction pad as [|c pad IH]; [reflexivity|].
  cbn [every]. intros [Hc Hp]%andb_true_iff.
  rewrite append_cons. cbn [trim_start]. rewrite Hc. now apply IH.
Qed.

Lemma trim_start_rev_spaces (pad s : string) :
  every is_space pad = true -> trim_start_rev (pad +:+ s) = trim_start_rev s.
Proof.
  induction pad as [|c pad IH]; [reflexivity|].
  cbn [every]. intros [Hc Hp]%andb_true_iff.
  rewrite append_cons. cbn [trim_start_rev]. rewrite Hc. now apply IH.
Qed.

Lemma rev_string_app (s acc : string) :
  rev_string s acc = rev_string s "" +:+ acc.
Proof.
  revert acc. induction s as [|c s IH]; intros acc; [reflexivity|].
  cbn [rev_string]. rewrite IH, (IH (String c "")).
  now rewrite append_assoc, append_cons, append_nil.
Qed.

Lemma rev_string_append (a b : string) :
  rev_string (a +:+ b) "" = rev_string b "" +:+ rev_string a "".
Proof.
  induction a as [|c a IH].
  - now rewrite append_nil, append_empty_r.
  - rewrite append_cons. cbn [rev_string].
    rewrite (rev_string_app (a +:+ b)), IH, (rev_string_app a (String c "")).
    now rewrite append_assoc.
Qed.

Lemma every_rev_string (f : ascii -> bool) (s : string) :
  every f (rev_string s "") = every f s.
Proof.
  induction s as [|c s IH]; [reflexivity|].
  cbn [rev_string]. rewrite rev_string_app, every_app, IH.
  cbn [every]. now rewrite andb_true_r, andb_comm.
Qed.

(** A white space of one byte is no part of a longer one. *)
Lemma is_space_single (c : ascii) :
  is_space c = true ->
  (forall a, is_space2 a c = false) /\
  (forall a b, is_space3 a c b = false) /\
  (forall a b, is_space3 a b c = false).
Proof.
  unfold is_space, is_space2, is_space3. intros H.
  assert (Hc : (nat_of_ascii c <= 32)%nat).
  { apply orb_true_iff in H as [[_ H]%andb_true_iff | H].
    - apply Nat.leb_le in H. lia.
    - apply Nat.eqb_eq in H. lia. }
  assert (Hne : forall n, (32 < n)%nat -> (nat_of_ascii c =? n)%nat = false).
  { intros n Hn. apply Nat.eqb_neq. lia. }
  assert (Hle : forall n, (32 < n)%nat -> (n <=? nat_of_ascii c)%nat = false).
  { intros n Hn. apply Nat.leb_gt. lia. }
  repeat split; intros;
    rewrite ?Hne, ?Hle by lia;
    rewrite ?andb_false_r, ?andb_false_l, ?orb_false_r; cbn;
    rewrite ?andb_false_r; reflexivity.
Qed.

(** White space of one byte after a text is left in place by
    [trimStart], unless the text is white space throughout. *)
Lemma trim_start_append (after : string) :
  every is_space after = true ->
  forall s,
    trim_start (s +:+ after)
    = match trim_start s with
      | EmptyString => EmptyString
      | x => x +:+ after
      end.
Proof.
  intros Ha.
  assert (Hall : trim_start after = "").
  { rewrite <- (append_empty_r after). now rewrite trim_start_spaces. }
  assert (Hhead : forall c rest, after = String c rest ->
            is_space c = true /\ every is_space rest = true).
  { intros c rest ->. cbn [every] in Ha. now apply andb_true_iff in Ha. }
  assert (IH : forall n s, (String.length s <= n)%nat ->
            trim_start (s +:+ after)
            = match trim_start s with
              | EmptyString => EmptyString
              | x => x +:+ after
              end).
  { induction n as [|n IH]; intros s Hn.
    - destruct s; [now rewrite append_nil, Hall|cbn in Hn; lia].
    - destruct s as [|c1 r1]; [now rewrite append_nil, Hall|].
      cbn [String.length] in Hn.
      rewrite append_cons. cbn [trim_start].
      destruct (is_space c1) eqn:S1; [apply IH; lia|].
      destruct r1 as [|c2 r2].
      + (* one byte, then the padding *)
        rewrite append_nil. destruct after as [|a1 rest1]; [reflexivity|].
        destruct (Hhead a1 rest1 eq_refl) as [Sa1 Hrest1].
        destruct (is_space_single a1 Sa1) as (H2 & H3 & _).
        rewrite H2. destruct rest1 as [|a2 rest2]; [reflexivity|].
        now rewrite H3.
      + cbn [String.length] in Hn. rewrite append_cons.
        destruct (is_space2 c1 c2) eqn:S2; [apply IH; lia|].
        destruct r2 as [|c3 r3].
        * (* two bytes, then the padding *)
          rewrite append_nil. destruct after as [|a1 rest1]; [reflexivity|].
          destruct (Hhead a1 rest1 eq_refl) as [Sa1 _].
          destruct (is_space_single a1 Sa1) as (_ & _ & H3).
          now rewrite H3.
        * cbn [String.length] in Hn. rewrite append_cons.
          destruct (is_space3 c1 c2 c3) eqn:S3; [apply IH; lia|].
          reflexivity. }
  intros s. now apply (IH (String.length s)).
Qed.

(** White space of one byte around the text does not count. *)
Lemma trim_padding (before after s : string) :
  every is_space before = true -> every is_space after = true ->
  trim (before +:+ s +:+ after) = trim s.
Proof.
  intros Hb Ha. unfold trim.
  rewrite trim_start_spaces, (trim_start_append after Ha) by assumption.
  destruct (trim_start s) as [|c t]; [reflexivity|].
  rewrite rev_string_append, trim_start_rev_spaces; [reflexivity|].
  now rewrite every_rev_string.
Qed.

(** X3.  White space around the query is ignored: the search answers a
    padded query exactly as it answers the bare one, and a query made of
    white space only is rejected as missing, with nothing sent; the
    no-break space counts as white space.  A query that is not a string
    (a repeated or nested parameter) is answered with the fetch error and
    the message of the engine, again with nothing sent. *)
Theorem query_is_trimmed (e : Env) (w : World) :
  (forall before after s,
     every is_space before = true -> every is_space after = true ->
     handler e (VStr (before +:+ s +:+ after)) w = handler e (VStr s) w) /\
  (forall s, every is_space s = true ->
     handler e (VStr s) w = (missing_query, w)) /\
  handler e (VStr no_break_space) w = (missing_query, w) /\
  (forall q, truthy q = true -> (forall s, q <> VStr s) ->
     exists detail, handler e q w = (fetch_error (Some detail), w)).
Proof.
  split; [|split; [|split]].
  - intros before after s Hb Ha. unfold handler, try_catch, bind, lift.
    now rewrite !query_text_string, trim_padding.
  - intros s Hs. apply handler_no_query. rewrite query_text_string.
    replace (trim s) with (trim (s +:+ "" +:+ ""))
      by (now rewrite append_nil, append_empty_r).
    now rewrite trim_padding.
  - apply handler_no_query. reflexivity.
  - intros q Ht Hn. unfold handler, try_catch, bind, lift, query_text, JS.or.
    rewrite Ht. destruct q; eauto; try discriminate.
    now destruct (Hn s).
Qed.

Lemma query_is_trimmed_witness :
  handler (gateway_env (Some "K") (Returned two_offers)) (VStr "  shoes ") idle
  = handler (gateway_env (Some "K") (Returned two_offers)) (VStr "shoes") idle.
Proof.
  apply (proj1 (query_is_trimmed (gateway_env (Some "K") (Returned two_offers))
                  idle) "  " " " "shoes"); reflexivity.
Defined.

End QueryText.

(** ** The price parser on separators and on numbers *)

Section ParserMore.

(** X4.  Characters other than digits, points and minus signs never
    change what the parser reads, wherever they stand: currency marks,
    thousands separators and blanks can be inserted or removed at will. *)
Theorem parse_ignores_separators (a junk b : string) :
  all_dropped junk = true ->
  parse_text (a +:+ junk +:+ b) = parse_text (a +:+ b).
Proof.
  intros Hj. unfold parse_text, parsePrice. cbn [String_ obind].
  now rewrite !strip_app, (strip_dropped junk Hj), append_nil.
Qed.

Lemma parse_ignores_separators_witness :
  parse_text ("$1" +:+ "," +:+ "299.00") = parse_text ("$1" +:+ "299.00").
Proof. apply (parse_ignores_separators "$1" "," "299.00"). reflexivity. Defined.

Lemma digit_char_digit (d : Z) :
  (0 <= d < 10)%Z ->
  is_digit (digit_char d) = true /\ digit_value (digit_char d) = d.
Proof.
  intros Hd. unfold is_digit, digit_value, digit_char.
  assert (Hn : (Z.to_nat d < 10)%nat) by lia.
  rewrite nat_ascii_embedding by lia. split.
  - apply andb_true_iff. split; [apply Nat.leb_le|apply Nat.leb_le]; lia.
  - lia.
Qed.

Lemma digits_value_snoc (ds : list ascii) (d : ascii) :
  digits_value (ds ++ [d]) = (10 * digits_value ds + digit_value d)%Z.
Proof. unfold digits_value. now rewrite fold_left_app. Qed.

(** The digits of a non-negative integer, given enough fuel. *)
Lemma nat_digits_spec (fuel : nat) :
  forall n acc,
    (0 <= n < 2 ^ Z.of_nat fuel)%Z -> (0 < fuel)%nat ->
    exists ds,
      nat_digits fuel n (string_of_list_ascii acc)
      = string_of_list_ascii (ds ++ acc) /\
      forallb is_digit ds = true /\ ds <> [] /\ digits_value ds = n.
Proof.
  induction fuel as [|fuel IH]; intros n acc Hn Hf; [lia|].
  cbn [nat_digits].
  assert (Hd : (0 <= n mod 10 < 10)%Z) by (apply Z.mod_pos_bound; lia).
  destruct (digit_char_digit _ Hd) as [Hdig Hval].
  destruct (n / 10 =? 0)%Z eqn:E.
  - apply Z.eqb_eq in E. exists [digit_char (n mod 10)].
    repeat split.
    + cbn. now rewrite Hdig.
    + discriminate.
    + unfold digits_value. cbn. rewrite Hval.
      pose proof (Z.div_mod n 10). lia.
  - apply Z.eqb_neq in E.
    assert (Hq : (0 <= n / 10 < 2 ^ Z.of_nat fuel)%Z).
    { split; [apply Z.div_pos; lia|].
      rewrite Nat2Z.inj_succ, Z.pow_succ_r in Hn by lia.
      apply Z.div_lt_upper_bound; lia. }
    assert (Hfuel : (0 < fuel)%nat).
    { destruct fuel; [|lia]. cbn in Hq. lia. }
    destruct (IH (n / 10)%Z (digit_char (n mod 10) :: acc) Hq Hfuel)
      as (ds & Heq & Hds & Hne & Hv).
    exists (ds ++ [digit_char (n mod 10)]). repeat split.
    + cbn [string_of_list_ascii] in Heq. rewrite Heq.
      now rewrite <- app_assoc.
    + rewrite forallb_app, Hds. cbn. now rewrite Hdig.
    + intros H. now apply app_eq_nil in H as [_ [=]].
    + rewrite digits_value_snoc, Hv, Hval.
      pose proof (Z.div_mod n 10). lia.
Qed.

Lemma Z_digits_spec (n : Z) :
  (0 <= n)%Z ->
  exists ds,
    Z_digits n = string_of_list_ascii ds /\
    forallb is_digit ds = true /\ ds <> [] /\ digits_value ds = n.
Proof.
  intros Hn. unfold Z_digits.
  destruct (nat_digits_spec (S (Z.to_nat (Z.log2 n))) n []) as (ds & H & R).
  - split; [assumption|].
    rewrite Nat2Z.inj_succ, Z2Nat.id by apply Z.log2_nonneg.
    destruct (Z.eq_dec n 0%Z) as [->|Hz]; [cbn; lia|].
    apply Z.log2_spec. lia.
  - lia.
  - exists ds. rewrite app_nil_r in H. now split.
Qed.

(** The digits after the point, when the expansion ends within the
    fuel. *)
Lemma frac_digits_spec (d : Z) (fuel : nat) :
  forall r,
    (0 <= r < d)%Z -> ((r * 10 ^ Z.of_nat fuel) mod d = 0)%Z ->
    exists fs,
      frac_digits fuel r d = string_of_list_ascii fs /\
      forallb is_digit fs = true /\
      (positional fs * d = r * 10 ^ Z.of_nat (List.length fs))%Z.
Proof.
  induction fuel as [|fuel IH]; intros r Hr Hm.
  - exists []. cbn in *. rewrite Z.mul_1_r, Z.mod_small in Hm by lia.
    repeat split. lia.
  - cbn [frac_digits]. destruct (r =? 0)%Z eqn:E.
    + apply Z.eqb_eq in E. exists []. cbn. repeat split. lia.
    + apply Z.eqb_neq in E.
      assert (Hd : (0 <= r * 10 / d < 10)%Z).
      { split; [apply Z.div_pos; lia|apply Z.div_lt_upper_bound; lia]. }
      destruct (digit_char_digit _ Hd) as [Hdig Hval].
      assert (Hr' : (0 <= (r * 10) mod d < d)%Z)
        by (apply Z.mod_pos_bound; lia).
      assert (Hm' : (((r * 10) mod d * 10 ^ Z.of_nat fuel) mod d = 0)%Z).
      { rewrite Z.mul_mod_idemp_l by lia. rewrite <- Hm.
        f_equal. rewrite Nat2Z.inj_succ, Z.pow_succ_r by lia. ring. }
      destruct (IH _ Hr' Hm') as (fs & -> & Hfs & Hv).
      exists (digit_char (r * 10 / d) :: fs). repeat split.
      * cbn. now rewrite Hdig, Hfs.
      * cbn [positional List.length]. rewrite Hval.
        rewrite Nat2Z.inj_succ, Z.pow_succ_r by lia.
        pose proof (Z.div_mod (r * 10) d ltac:(lia)). nia.
Qed.

(** Printing a plain decimal and parsing the text gives it back. *)
Lemma print_then_parse (q : Q) :
  plain_decimal q ->
  exists v, parseFloat (strip (Number_toString q)) = Some v /\ (v == q)%Q.
Proof.
  intros (m & k & Hq & Hm & Hk).
  destruct q as [num den].
  unfold Number_toString. cbn [Qnum Qden].
  set (d := Z.pos den). set (a := Z.abs num).
  set (F := (Z.to_nat (Z.log2 d) + 22)%nat).
  assert (HF : (k <= F)%nat) by (subst F; lia).
  assert (Hd : (0 < d)%Z) by (subst d; lia).
  assert (Ha : (0 <= a)%Z) by (subst a; lia).
  assert (Hz : (num * 10 ^ Z.of_nat k = m * d)%Z).
  { unfold Qeq in Hq. cbn in Hq. unfold Qinv in Hq. cbn in Hq.
    assert (Hp : (0 < 10 ^ Z.of_nat k)%Z) by (apply Z.pow_pos_nonneg; lia).
    destruct (10 ^ Z.of_nat k)%Z as [|p|p] eqn:Ep; try lia.
    cbn in Hq. subst d. lia. }
  (* the number is printed in positional notation *)
  assert (Hk1 : (1 <= 10 ^ Z.of_nat k <= 10 ^ 6)%Z).
  { split.
    - assert (0 < 10 ^ Z.of_nat k)%Z by (apply Z.pow_pos_nonneg; lia). lia.
    - apply Z.pow_le_mono_r; lia. }
  assert (Habs : (a * 10 ^ Z.of_nat k = Z.abs m * d)%Z).
  { subst a. rewrite <- (Z.abs_eq (10 ^ Z.of_nat k)) at 1 by lia.
    rewrite <- Z.abs_mul, Hz, Z.abs_mul. f_equal; lia. }
  assert (Hpos : ((a / d <? 10 ^ 21) && ((a =? 0) || (d <=? a * 10 ^ 6)))%Z
                 = true).
  { set (P := (10 ^ Z.of_nat k)%Z) in *.
    change (10 ^ 21)%Z with 1000000000000000000000%Z.
    change (10 ^ 15)%Z with 1000000000000000%Z in Hm.
    change (10 ^ 6)%Z with 1000000%Z in *.
    apply andb_true_iff. split.
    - apply Z.ltb_lt. apply Z.div_lt_upper_bound; [lia|]. nia.
    - apply orb_true_iff. destruct (Z.eq_dec a 0%Z) as [Hz0|Hne].
      + left. now apply Z.eqb_eq.
      + right. apply Z.leb_le.
        assert (1 <= Z.abs m)%Z by nia. nia. }
  rewrite Hpos.
  (* the expansion ends within the fuel *)
  assert (Hdiv : ((a mod d * 10 ^ Z.of_nat F) mod d = 0)%Z).
  { rewrite Z.mul_mod_idemp_l by lia.
    assert (Hnum : ((num * 10 ^ Z.of_nat F) mod d = 0)%Z).
    { replace (10 ^ Z.of_nat F)%Z
        with (10 ^ Z.of_nat k * 10 ^ Z.of_nat (F - k))%Z
        by (rewrite <- Z.pow_add_r by lia; f_equal; lia).
      rewrite Z.mul_assoc, Hz.
      rewrite <- Z.mul_assoc, (Z.mul_comm d), Z.mul_assoc.
      apply Z.mod_mul. lia. }
    subst a. destruct (Z.abs_spec num) as [[_ ->]|[_ ->]]; [exact Hnum|].
    rewrite Z.mul_opp_l. apply Z.mod_opp_l_z; [lia|exact Hnum]. }
  destruct (Z_digits_spec (a / d) ltac:(apply Z.div_pos; lia))
    as (ip & -> & Hip & Hne & Hvi).
  destruct (frac_digits_spec d F (a mod d)
              ltac:(apply Z.mod_pos_bound; lia) Hdiv)
    as (fp & -> & Hfp & Hvf).
  set (neg := (num <? 0)%Z).
  set (tail := if string_truthy (string_of_list_ascii fp)
               then "." +:+ string_of_list_ascii fp else "").
  assert (Hkept : every kept ((if neg then "-" else "") +:+
                              string_of_list_ascii ip +:+ tail) = true).
  { rewrite !every_app. apply andb_true_iff. split; [now destruct neg|].
    apply andb_true_iff. split.
    - apply every_digits; auto using kept_digit.
    - subst tail. destruct (string_truthy _); [|reflexivity].
      rewrite every_app. apply andb_true_iff. split; [reflexivity|].
      apply every_digits; auto using kept_digit. }
  rewrite strip_kept by exact Hkept.
  rewrite (parseFloat_shape neg ip fp tail); try assumption.
  - eexists. split; [reflexivity|].
    unfold decimal. rewrite Qred_correct. unfold Qeq. cbn [Qnum Qden].
    rewrite pow10_pos, digits_value_app, digits_value_positional in *.
    fold d. pose proof (Z.div_mod a d ltac:(lia)) as Hdm.
    assert (Hsign : ((if neg then - a else a) = num)%Z).
    { subst neg a. destruct (Z.ltb_spec num 0); lia. }
    rewrite <- Hsign, Hvi.
    set (P := (10 ^ Z.of_nat (List.length fp))%Z) in *.
    assert (Hmain : ((a / d * P + positional fp) * d = a * P)%Z).
    { rewrite Z.mul_add_distr_r, Hvf. rewrite Hdm at 3. ring. }
    destruct neg; [rewrite Z.mul_opp_l, Hmain|exact Hmain]; ring.
  - subst tail. destruct fp as [|c fp]; [exact I|reflexivity].
  - subst tail. destruct fp as [|c fp]; [reflexivity|].
    cbn [string_of_list_ascii string_truthy].
    rewrite append_cons, append_nil. cbv beta iota. rewrite Ascii.eqb_refl.
    change (String c (string_of_list_ascii fp))
      with (string_of_list_ascii (c :: fp)).
    rewrite <- (append_empty_r (string_of_list_ascii (c :: fp))).
    now rewrite take_digits_app.
  - now left.
  - congruence.
Qed.

(** X5.  A price given as a number is read back as that number: for a
    plain decimal (such as 8, 12.5 or 19.99), printing it and parsing the
    text is the identity. *)
Theorem number_price_round_trip (q : Q) :
  plain_decimal q ->
  exists v, parsePrice (VNum q) = Returned (Some v) /\ (v == q)%Q.
Proof.
  intros H. unfold parsePrice. cbn [String_ obind].
  destruct (print_then_parse q H) as (v & -> & Hv). now exists v.
Qed.

Lemma number_price_round_trip_witness :
  exists v, parsePrice (VNum (1999 # 100)) = Returned (Some v)
            /\ (v == 1999 # 100)%Q.
Proof.
  apply (number_price_round_trip (1999 # 100)).
  exists 1999%Z, 2%nat. split; [reflexivity|]. split; [reflexivity|lia].
Defined.

End ParserMore.

(** ** The search URL *)

Section SearchUrl.

Lemma encode_char_cases (c : ascii) :
  (unreserved c = true /\ Ascii.eqb c "%" = false) \/
  (unreserved c = false /\
   url_safe (hex_char (nat_of_ascii c / 16)) = true /\
   url_safe (hex_char (nat_of_ascii c mod 16)) = true /\
   ascii_of_nat (16 * hex_value (hex_char (nat_of_ascii c / 16))
                 + hex_value (hex_char (nat_of_ascii c mod 16))) = c).
Proof.
  destruct c as [[] [] [] [] [] [] [] []]; vm_compute;
    (left; split; reflexivity) || (right; repeat split; reflexivity).
Qed.

Lemma percent_decode_plain (c : ascii) (rest : string) :
  Ascii.eqb c "%" = false ->
  percent_decode (String c rest) = String c (percent_decode rest).
Proof.
  intros Hc. cbn [percent_decode]. rewrite Hc.
  destruct rest as [|h [|l rest']]; reflexivity.
Qed.

Lemma percent_decode_escape (h l : ascii) (rest : string) :
  percent_decode (String "%" (String h (String l rest)))
  = String (ascii_of_nat (16 * hex_value h + hex_value l)) (percent_decode rest).
Proof. reflexivity. Qed.

Lemma percent_decode_encode (s : string) :
  percent_decode (encodeURIComponent s) = s.
Proof.
  induction s as [|c s IH]; [reflexivity|].
  cbn [encodeURIComponent].
  destruct (encode_char_cases c) as [[Hu Hp]|(Hu & _ & _ & Hc)]; rewrite Hu.
  - rewrite percent_decode_plain by assumption. now rewrite IH.
  - rewrite percent_decode_escape, Hc. now rewrite IH.
Qed.

Lemma append_inv_tail (a b t : string) : a +:+ t = b +:+ t -> a = b.
Proof.
  intros H.
  assert (L : forall x y, String.length (x +:+ y)
                          = (String.length x + String.length y)%nat).
  { induction x as [|c x IHx]; intros y; [reflexivity|].
    rewrite append_cons. cbn. now rewrite IHx. }
  revert b H. induction a as [|c a IH]; intros [|c' b] H.
  - reflexivity.
  - exfalso. apply (f_equal String.length) in H.
    rewrite append_nil, append_cons in H. cbn in H. rewrite L in H. lia.
  - exfalso. apply (f_equal String.length) in H.
    rewrite append_nil, append_cons in H. cbn in H. rewrite L in H. lia.
  - rewrite !append_cons in H. injection H as -> H. f_equal. now apply IH.
Qed.

(** X6.  The query is percent-encoded into the search URL: the encoded
    text holds only unreserved characters and percent escapes, so no [&],
    [=], [#] or blank of the query reaches the URL as such; the encoding
    can be undone, so different queries give different URLs. *)
Theorem query_is_encoded (q : string) :
  every url_safe (encodeURIComponent q) = true /\
  percent_decode (encodeURIComponent q) = q /\
  (forall q' key, search_url q key = search_url q' key -> q = q').
Proof.
  split; [|split].
  - induction q as [|c q IH]; [reflexivity|].
    cbn [encodeURIComponent].
    destruct (encode_char_cases c) as [[Hu Hp]|(Hu & Hh & Hl & _)]; rewrite Hu.
    + cbn [every]. unfold url_safe at 1. now rewrite Hu, IH.
    + cbn [every]. now rewrite Hh, Hl, IH.
  - apply percent_decode_encode.
  - intros q' key H. unfold search_url in H.
    rewrite <- (percent_decode_encode q), <- (percent_decode_encode q').
    f_equal.
    set (prefix := "https://serpapi.com/search.json?engine=google_shopping&q=") in H.
    assert (Hcancel : forall p x y : string, p +:+ x = p +:+ y -> x = y).
    { induction p as [|c p IHp]; intros x y Hxy; [exact Hxy|].
      rewrite !append_cons in Hxy. injection Hxy as Hxy. auto. }
    apply Hcancel in H. now apply append_inv_tail in H.
Qed.

Lemma query_is_encoded_witness :
  every url_safe (encodeURIComponent "shoes & socks") = true /\
  percent_decode (encodeURIComponent "shoes & socks") = "shoes & socks" /\
  "shoes & socks" = "shoes & socks".
Proof.
  split; [apply (query_is_encoded "shoes & socks")|].
  split; [apply (query_is_encoded "shoes & socks")|].
  apply (proj2 (proj2 (query_is_encoded "shoes & socks")) "shoes & socks" "K").
  reflexivity.
Defined.

End SearchUrl.

(** ** Handlers, by equations *)

Section HandlerEquations.

Lemma set_store_same (w : World) : set_store (store w) w = w.
Proof. now destruct w. Qed.

Lemma getOne_found (e : Env) (u id : string) (w : World) (p : Product.t) :
  store_fault e = None -> List.find (selects id u) (store w) = Some p ->
  getOne e u id w
  = (json (BProduct (Product.with_views (Product.views p + 1) p)),
     set_store (update_first (has_id (Product._id p))
                  (Product.with_views (Product.views p + 1)) (store w)) w).
Proof.
  intros Hs Hf. unfold_handler. run_with ltac:(rewrite ?Hs, ?Hf). reflexivity.
Qed.

Lemma getOne_missing (e : Env) (u id : string) (w : World) :
  store_fault e = None -> List.find (selects id u) (store w) = None ->
  getOne e u id w = (not_found, w).
Proof.
  intros Hs Hf. unfold_handler. run_with ltac:(rewrite ?Hs, ?Hf).
  f_equal. apply world_eta.
Qed.

Lemma update_found (e : Env) (u id : string) (b : Body.t) (w : World)
    (p : Product.t) :
  no_fault e -> List.find (selects id u) (store w) = Some p ->
  update e u id b w
  = (updated (apply_set b p),
     invalidated u
       (set_store (update_first (selects id u) (apply_set b) (store w)) w)).
Proof.
  intros [Hs Hc] Hf. unfold invalidated. unfold_handler.
  destruct (redis w) as [m|] eqn:Hm;
    run_with ltac:(rewrite ?Hs, ?Hf, ?Hm, ?Hc; cbn [option_map]); reflexivity.
Qed.

Lemma update_missing (e : Env) (u id : string) (b : Body.t) (w : World) :
  store_fault e = None -> List.find (selects id u) (store w) = None ->
  update e u id b w = (not_found, w).
Proof.
  intros Hs Hf. unfold_handler.
  run_with ltac:(rewrite ?Hs, ?Hf; cbn [option_map]).
  rewrite update_first_none by assumption. f_equal. apply world_eta.
Qed.

Lemma remove_found (e : Env) (u id : string) (w : World) (p : Product.t) :
  no_fault e -> List.find (selects id u) (store w) = Some p ->
  remove e u id w
  = (deleted,
     invalidated u (set_store (remove_first (selects id u) (store w)) w)).
Proof.
  intros [Hs Hc] Hf. unfold invalidated. unfold_handler.
  destruct (redis w) as [m|] eqn:Hm;
    run_with ltac:(rewrite ?Hs, ?Hf, ?Hm, ?Hc); reflexivity.
Qed.

Lemma remove_missing (e : Env) (u id : string) (w : World) :
  store_fault e = None -> List.find (selects id u) (store w) = None ->
  remove e u id w = (not_found, w).
Proof.
  intros Hs Hf. unfold_handler. run_with ltac:(rewrite ?Hs, ?Hf).
  rewrite remove_first_none by assumption. f_equal. apply world_eta.
Qed.

(** With unique identifiers, the document found under an identifier and
    an owner is the only one under that identifier. *)
Lemma has_id_unique (l : list Product.t) (id u : string) (p q : Product.t) :
  List.NoDup (map Product._id l) ->
  List.find (selects id u) l = Some p -> In q l -> has_id id q = true ->
  q = p.
Proof.
  intros Hn Hf Hq Hid. apply find_some in Hf as [Hp [_ Hpid]%selects_owned].
  apply String.eqb_eq in Hid. eapply unique_id; eauto. congruence.
Qed.

Lemma update_first_map (test : Product.t -> bool) (f : Product.t -> Product.t)
    (l : list Product.t) :
  (forall p q, In p l -> In q l -> test p = true -> test q = true -> p = q) ->
  List.NoDup l ->
  update_first test f l = map (fun q => if test q then f q else q) l.
Proof.
  intros Huniq Hnd. induction l as [|p l IH]; [reflexivity|].
  apply List.NoDup_cons_iff in Hnd as [Hp Hl]. cbn [update_first map].
  destruct (test p) eqn:T.
  - f_equal. symmetry. rewrite <- (map_id l) at 2. apply map_ext_in.
    intros q Hq. destruct (test q) eqn:Tq; [|reflexivity].
    exfalso. apply Hp.
    assert (p = q) by (apply Huniq; [now left|now right|assumption..]).
    now subst q.
  - f_equal. apply IH; [|assumption].
    intros x y Hx Hy. apply Huniq; now right.
Qed.

Lemma NoDup_ids (l : list Product.t) :
  List.NoDup (map Product._id l) -> List.NoDup l.
Proof. apply NoDup_map_inv. Qed.

Lemma has_id_at_most_one (l : list Product.t) (id : string) :
  List.NoDup (map Product._id l) ->
  forall p q, In p l -> In q l -> has_id id p = true -> has_id id q = true ->
              p = q.
Proof.
  intros Hn p q Hp Hq Hip Hiq. apply String.eqb_eq in Hip, Hiq.
  eapply unique_id; eauto. congruence.
Qed.

Lemma view_store (l : list Product.t) (id u : string) (p : Product.t) :
  List.NoDup (map Product._id l) ->
  List.find (selects id u) l = Some p ->
  update_first (has_id (Product._id p))
    (Product.with_views (Product.views p + 1)) l
  = map (viewed id) l.
Proof.
  intros Hn Hf.
  pose proof (find_some _ _ Hf) as [Hp [_ Hid]%selects_owned]. rewrite Hid.
  rewrite update_first_map;
    [|now apply has_id_at_most_one|now apply NoDup_ids].
  apply map_ext_in. intros q Hq. unfold viewed.
  destruct (has_id id q) eqn:E; [|reflexivity].
  now rewrite (has_id_unique l id u p q).
Qed.

End HandlerEquations.

(** ** Reading one product *)

Section Views.

(** X7.  Reading one product counts one view: when the store answers and
    identifiers are unique, a read of a document the user owns answers it
    with its view counter raised by one, and the store afterwards differs
    in that counter only; the cache is not touched.  A read of an
    identifier the user owns no document under (another user's included)
    answers 404 and changes nothing. *)
Theorem read_one_counts_a_view (e : Env) (u id : string) (w : World) :
  store_fault e = None -> ids_unique w ->
  (forall p,
     List.find (selects id u) (store w) = Some p ->
     getOne e u id w
     = (json (BProduct (Product.with_views (Product.views p + 1) p)),
        set_store (map (viewed id) (store w)) w)) /\
  ((forall p, In p (store w) -> Product._id p = id -> Product.userId p <> u) ->
   getOne e u id w = (not_found, w)).
Proof.
  intros Hs Hn. split.
  - intros p Hf. rewrite (getOne_found e u id w p Hs Hf).
    now rewrite (view_store (store w) id u p).
  - intros Hnone. apply getOne_missing; [assumption|].
    destruct (List.find (selects id u) (store w)) as [p|] eqn:F;
      [|reflexivity].
    apply find_some in F as [Hp [Hu Hid]%selects_owned].
    now destruct (Hnone p Hp Hid).
Qed.

Lemma one_product_store : store one_product = [the_tv].
Proof. vm_compute. reflexivity. Qed.

Lemma one_product_unique : ids_unique one_product.
Proof.
  unfold ids_unique. rewrite one_product_store.
  repeat constructor. intros [].
Qed.

Lemma read_one_counts_a_view_witness :
  getOne (quiet 2 "b" None) "U" "a" one_product
  = (json (BProduct (Product.with_views (Product.views the_tv + 1) the_tv)),
     set_store (map (viewed "a") (store one_product)) one_product).
Proof.
  apply (read_one_counts_a_view (quiet 2 "b" None) "U" "a" one_product).
  - reflexivity.
  - exact one_product_unique.
  - rewrite one_product_store. reflexivity.
Defined.

Lemma find_map_viewed (l : list Product.t) (id u : string) (f : Product.t -> Product.t) :
  (forall q, selects id u (f q) = selects id u q) ->
  List.find (selects id u) (map f l)
  = option_map f (List.find (selects id u) l).
Proof.
  intros Hf. induction l as [|q l IH]; [reflexivity|].
  cbn [map List.find]. rewrite Hf. destruct (selects id u q); [reflexivity|].
  exact IH.
Qed.

Lemma selects_viewed (id id' u : string) (q : Product.t) :
  selects id u (viewed id' q) = selects id u q.
Proof. unfold viewed. now destruct (has_id id' q). Qed.

Lemma viewed_times_succ (n : nat) (id : string) (q : Product.t) :
  viewed_times n id (viewed id q) = viewed_times (S n) id q.
Proof.
  unfold viewed_times, viewed. destruct (has_id id q) eqn:E.
  - change (has_id id (Product.with_views (Product.views q + 1) q))
      with (has_id id q). rewrite E.
    destruct q. unfold Product.with_views. cbn. f_equal. lia.
  - now rewrite E.
Qed.

(** X8.  Views add up: after any number of reads of a document by its
    owner, the store differs from the one before in that document's view
    counter only, which has grown by the number of reads. *)
Theorem views_add_up (es : list Env) (u id : string) :
  forall (w : World) (p : Product.t),
    Forall (fun e => store_fault e = None) es -> ids_unique w ->
    List.find (selects id u) (store w) = Some p ->
    store (view_all es u id w)
    = map (viewed_times (List.length es) id) (store w) /\
    redis (view_all es u id w) = redis w.
Proof.
  induction es as [|e es IH]; intros w p Hes Hn Hf.
  - cbn [view_all List.length]. split; [|reflexivity].
    rewrite <- (map_id (store w)) at 1. apply map_ext. intros q.
    unfold viewed_times. destruct (has_id id q); [|reflexivity].
    destruct q. unfold Product.with_views. cbn. f_equal. lia.
  - apply Forall_cons_iff in Hes as [He Hes]. cbn [view_all List.length].
    rewrite (getOne_found e u id w p He Hf), (view_store (store w) id u p)
      by assumption.
    cbn [snd].
    destruct (IH (set_store (map (viewed id) (store w)) w) (viewed id p))
      as [IHs IHr]; try assumption.
    + unfold ids_unique, set_store. cbn [store]. rewrite map_map.
      erewrite map_ext; [exact Hn|]. intros q. unfold viewed.
      now destruct (has_id id q).
    + unfold set_store. cbn [store].
      rewrite find_map_viewed by (intros q; apply selects_viewed).
      now rewrite Hf.
    + rewrite IHs, IHr. unfold set_store. cbn [store redis].
      split; [|reflexivity]. rewrite map_map. apply map_ext.
      intros q. apply viewed_times_succ.
Qed.

Lemma views_add_up_witness :
  store (view_all [quiet 2 "b" None; quiet 3 "c" None; quiet 4 "d" None]
           "U" "a" one_product)
  = map (viewed_times 3 "a") (store one_product) /\
  redis (view_all [quiet 2 "b" None; quiet 3 "c" None; quiet 4 "d" None]
           "U" "a" one_product)
  = redis one_product.
Proof.
  apply (views_add_up [quiet 2 "b" None; quiet 3 "c" None; quiet 4 "d" None]
           "U" "a" one_product the_tv).
  - repeat constructor.
  - exact one_product_unique.
  - rewrite one_product_store. reflexivity.
Defined.

(** A live cached value is served whether or not the store answers. *)
Lemma getAll_cached (e : Env) (u : string) (w : World)
    (m : gmap string CacheEntry) (c : CacheEntry) :
  cache_fault e = None -> redis w = Some m -> m !! cacheKey u = Some c ->
  live (now e) c = true ->
  getAll e u w = (json (BProducts (payload c) true), w).
Proof.
  intros Hc Hm Hk Hl. unfold_handler.
  run_with ltac:(rewrite ?Hm, ?Hc, ?Hk, ?Hl).
  f_equal. rewrite <- Hm. apply world_eta.
Qed.

(** X9.  A view does not invalidate the cache: while the cached listing
    of a user is live, the list read after any read of one product still
    answers the listing as it was cached, view counters included. *)
Theorem view_keeps_cached_listing (e e2 : Env) (u id : string) (w : World)
    (m : gmap string CacheEntry) (c : CacheEntry) :
  cache_fault e2 = None ->
  redis w = Some m -> m !! cacheKey u = Some c -> live (now e2) c = true ->
  redis (snd (getOne e u id w)) = Some m /\
  fst (getAll e2 u (snd (getOne e u id w)))
  = json (BProducts (payload c) true).
Proof.
  intros Hc Hm Hk Hl.
  assert (Hr : redis (snd (getOne e u id w)) = Some m)
    by now rewrite getOne_redis.
  split; [exact Hr|].
  now rewrite (getAll_cached e2 u _ m c).
Qed.

Lemma one_product_cached_entry :
  exists m c,
    redis one_product_cached = Some m /\ m !! cacheKey "U" = Some c /\
    written c = 2%N /\ ex c = 300%N /\ payload c = [the_tv].
Proof.
  eexists. eexists. split; [vm_compute; reflexivity|].
  split; [vm_compute; reflexivity|]. repeat split.
Qed.

Lemma view_keeps_cached_listing_witness :
  fst (getAll (quiet 4 "d" None) "U"
         (snd (getOne (quiet 3 "c" None) "U" "a" one_product_cached)))
  = json (BProducts [the_tv] true).
Proof.
  destruct one_product_cached_entry as (m & c & Hm & Hk & Hw & Hx & Hp).
  rewrite <- Hp.
  apply (view_keeps_cached_listing (quiet 3 "c" None) (quiet 4 "d" None)
           "U" "a" one_product_cached m c); try assumption.
  - reflexivity.
  - unfold live. rewrite Hw, Hx. reflexivity.
Defined.

End Views.

(** ** Deleting and updating *)

Section Writes.

Lemma remove_first_without (l : list Product.t) (id u : string) (p : Product.t) :
  List.NoDup (map Product._id l) ->
  List.find (selects id u) l = Some p ->
  remove_first (selects id u) l = without id l.
Proof.
  intros Hn Hf. unfold without. induction l as [|q l IH]; [discriminate|].
  cbn [remove_first List.filter]. cbn [List.find] in Hf.
  cbn [map] in Hn. apply List.NoDup_cons_iff in Hn as [Hq Hl].
  destruct (selects id u q) eqn:S.
  - apply selects_owned in S as [_ Hid].
    assert (Hh : has_id id q = true) by now apply String.eqb_eq.
    rewrite Hh. cbn [negb]. symmetry.
    rewrite forallb_filter_id; [reflexivity|].
    apply forallb_forall. intros x Hx. apply negb_true_iff.
    destruct (has_id id x) eqn:E; [|reflexivity].
    exfalso. apply Hq. apply String.eqb_eq in E. rewrite Hid, <- E.
    now apply in_map.
  - destruct (has_id id q) eqn:E.
    + exfalso. apply Hq. apply find_some in Hf as [Hp [_ Hpid]%selects_owned].
      apply String.eqb_eq in E. rewrite E, <- Hpid. now apply in_map.
    + cbn [negb]. f_equal. now apply IH.
Qed.

Lemma find_without (l : list Product.t) (id u : string) :
  List.find (selects id u) (without id l) = None.
Proof.
  unfold without. induction l as [|q l IH]; [reflexivity|].
  cbn [List.filter]. destruct (has_id id q) eqn:E; cbn [negb]; [exact IH|].
  cbn [List.find]. unfold selects. now rewrite E.
Qed.

(** X10.  Deleting removes the document and nothing else: when no
    collaborator rejects and identifiers are unique, the delete of a
    document the user owns is answered with success, the store afterwards
    is the store without that document, and the user's cache entry is
    gone; reading or deleting it again is answered 404.  The delete of an
    identifier the user owns no document under is answered 404 and
    changes nothing, the cache included. *)
Theorem delete_removes_one (e : Env) (u id : string) (w : World) :
  no_fault e -> ids_unique w ->
  (forall p,
     List.find (selects id u) (store w) = Some p ->
     remove e u id w
     = (deleted, invalidated u (set_store (without id (store w)) w)) /\
     forall e2,
       store_fault e2 = None ->
       fst (getOne e2 u id (snd (remove e u id w))) = not_found /\
       fst (remove e2 u id (snd (remove e u id w))) = not_found) /\
  ((forall p, In p (store w) -> Product._id p = id -> Product.userId p <> u) ->
   remove e u id w = (not_found, w)).
Proof.
  intros Hn Hu. split.
  - intros p Hf.
    assert (Hr : remove e u id w
                 = (deleted, invalidated u (set_store (without id (store w)) w))).
    { rewrite (remove_found e u id w p Hn Hf).
      now rewrite (remove_first_without (store w) id u p). }
    split; [exact Hr|]. intros e2 Hs. rewrite Hr. cbn [snd].
    assert (Hgone : List.find (selects id u)
                      (store (invalidated u (set_store (without id (store w)) w)))
                    = None).
    { rewrite In_invalidated_store. apply find_without. }
    now rewrite getOne_missing, remove_missing.
  - intros Hnone. apply remove_missing; [apply Hn|].
    destruct (List.find (selects id u) (store w)) as [p|] eqn:F;
      [|reflexivity].
    apply find_some in F as [Hp [Hou Hid]%selects_owned].
    now destruct (Hnone p Hp Hid).
Qed.

Lemma delete_removes_one_witness :
  remove (quiet 3 "c" None) "U" "a" one_product_cached
  = (deleted,
     invalidated "U" (set_store (without "a" (store one_product_cached))
                        one_product_cached)).
Proof.
  apply (proj1 (delete_removes_one (quiet 3 "c" None) "U" "a"
                  one_product_cached ltac:(split; reflexivity)
                  ltac:(unfold ids_unique; vm_compute; repeat constructor;
                        intros [])) the_tv).
  vm_compute. reflexivity.
Defined.

Lemma update_first_merged (l : list Product.t) (id u : string) (b : Body.t) :
  List.NoDup (map Product._id l) ->
  update_first (selects id u) (apply_set b) l = merged id u b l.
Proof.
  intros Hn. unfold merged. apply update_first_map; [|now apply NoDup_ids].
  intros p q Hp Hq [_ Hip]%selects_owned [_ Hiq]%selects_owned.
  eapply unique_id; eauto. congruence.
Qed.

Lemma apply_set_twice (b : Body.t) (p : Product.t) :
  apply_set b (apply_set b p) = apply_set b p.
Proof.
  destruct b as [n ur pl tp cp ui ph vw ca], p. unfold apply_set. cbn.
  f_equal; try (destruct n; reflexivity); try (destruct ur; reflexivity);
    try (destruct pl; reflexivity); try (destruct tp; reflexivity);
    try (destruct cp; reflexivity); try (destruct ui; reflexivity);
    try (destruct ph; reflexivity); try (destruct vw; reflexivity);
    try (destruct ca; reflexivity).
Qed.

Lemma merged_twice (l : list Product.t) (id u : string) (b : Body.t) :
  merged id u b (merged id u b l) = merged id u b l.
Proof.
  unfold merged. rewrite map_map. apply map_ext. intros q.
  destruct (selects id u q) eqn:S; [|now rewrite S].
  destruct (selects id u (apply_set b q)); [apply apply_set_twice|reflexivity].
Qed.

(** X11.  An update changes one document and answers it as stored: when
    no collaborator rejects and identifiers are unique, the update of a
    document the user owns answers that document with the body merged in,
    the store afterwards differs in that document only, which keeps its
    identifier, and the user's cache entry is gone; sending the same
    update again leaves the store as it is.  The update of an identifier
    the user owns no document under is answered 404 and changes nothing,
    the cache included. *)
Theorem update_merges_one (e : Env) (u id : string) (b : Body.t) (w : World) :
  no_fault e -> ids_unique w ->
  (forall p,
     List.find (selects id u) (store w) = Some p ->
     update e u id b w
     = (updated (apply_set b p),
        invalidated u (set_store (merged id u b (store w)) w)) /\
     In (apply_set b p) (store (snd (update e u id b w))) /\
     Product._id (apply_set b p) = id /\
     forall e2,
       no_fault e2 ->
       store (snd (update e2 u id b (snd (update e u id b w))))
       = store (snd (update e u id b w))) /\
  ((forall p, In p (store w) -> Product._id p = id -> Product.userId p <> u) ->
   update e u id b w = (not_found, w)).
Proof.
  intros Hn Hu. split.
  - intros p Hf.
    pose proof (find_some _ _ Hf) as [Hp Hsel].
    assert (Hr : update e u id b w
                 = (updated (apply_set b p),
                    invalidated u (set_store (merged id u b (store w)) w))).
    { rewrite (update_found e u id b w p Hn Hf).
      now rewrite update_first_merged. }
    split; [exact Hr|]. rewrite Hr. cbn [snd].
    rewrite In_invalidated_store. cbn [set_store store].
    split; [|split].
    + unfold merged. apply in_map_iff. exists p. now rewrite Hsel.
    + now apply selects_owned in Hsel as [_ Hid].
    + intros e2 Hn2.
      set (w1 := invalidated u (set_store (merged id u b (store w)) w)).
      assert (Hs1 : store w1 = merged id u b (store w)).
      { subst w1. now rewrite In_invalidated_store. }
      assert (Hu1 : List.NoDup (map Product._id (store w1))).
      { rewrite Hs1. unfold merged. rewrite map_map.
        erewrite map_ext; [exact Hu|]. intros q.
        now destruct (selects id u q). }
      destruct (update_store e2 u id b w1) as [-> | ->]; [exact Hs1|].
      rewrite update_first_merged by assumption.
      rewrite Hs1. apply merged_twice.
  - intros Hnone. apply update_missing; [apply Hn|].
    destruct (List.find (selects id u) (store w)) as [p|] eqn:F;
      [|reflexivity].
    apply find_some in F as [Hp [Hou Hid]%selects_owned].
    now destruct (Hnone p Hp Hid).
Qed.

Lemma update_merges_one_witness :
  update (quiet 3 "c" None) "U" "a" (rename "telly") one_product
  = (updated (apply_set (rename "telly") the_tv),
     invalidated "U"
       (set_store (merged "a" "U" (rename "telly") (store one_product))
          one_product)).
Proof.
  apply (proj1 (update_merges_one (quiet 3 "c" None) "U" "a" (rename "telly")
                  one_product ltac:(split; reflexivity) one_product_unique)
           the_tv).
  rewrite one_product_store. reflexivity.
Defined.

End Writes.

(** ** Creating, then reading *)

Section CreateThenRead.

Lemma find_fresh (e : Env) (u : string) (w : World) (p : Product.t) :
  fresh e w -> Product._id p = fresh_id e -> Product.userId p = u ->
  List.find (selects (fresh_id e) u) (store w ++ [p]) = Some p.
Proof.
  unfold fresh. intros Hf Hid Hu.
  induction (store w) as [|q l IH]; cbn [app List.find].
  - unfold selects, has_id, owned. rewrite Hid, Hu, !String.eqb_refl.
    reflexivity.
  - unfold selects at 1, has_id.
    destruct (String.eqb (Product._id q) (fresh_id e)) eqn:E.
    + exfalso. apply Hf. apply String.eqb_eq in E. left. exact E.
    + cbn [andb]. apply IH. intros H. apply Hf. now right.
Qed.

Lemma listing_all (u : string) (s : list Product.t) (p : Product.t) :
  (List.length (List.filter (owned u) s) <= 100)%nat ->
  In p s -> Product.userId p = u -> In p (listing u s).
Proof.
  intros Hlen Hp Hu. unfold listing.
  rewrite firstn_all2.
  - apply (Permutation_in _ (Permutation_sym (sort_desc_perm _))).
    apply filter_In. split; [assumption|]. now apply owned_userId.
  - now rewrite (Permutation_length (sort_desc_perm _)).
Qed.

(** X12.  A created product can be read back: when no collaborator
    rejects and the new identifier is free, the product is in the store
    after the create; the creator's next read of it answers it with one
    view; and the creator's next list read shows it, provided the user
    had fewer than one hundred products. *)
Theorem created_product_is_readable (e : Env) (u : string) (b : Body.t)
    (w : World) (d : option PriceData) :
  no_fault e -> scraped e = Returned d -> fresh e w ->
  let p := new_product e u b d in
  let w1 := snd (create e u b w) in
  store w1 = store w ++ [p] /\
  (forall e2, store_fault e2 = None ->
     fst (getOne e2 u (fresh_id e) w1)
     = json (BProduct (Product.with_views 1 p))) /\
  ((List.length (owned_by u w) < 100)%nat ->
   forall e2, no_fault e2 ->
     exists ps, fst (getAll e2 u w1) = json (BProducts ps false) /\ In p ps).
Proof.
  intros Hn Hd Hf p w1.
  assert (Hs : store w1 = store w ++ [p]).
  { subst w1. rewrite (create_ok e u b w d Hn Hf Hd). cbn [snd].
    now rewrite In_invalidated_store. }
  split; [exact Hs|]. split.
  - intros e2 Hs2.
    rewrite (getOne_found e2 u (fresh_id e) w1 p Hs2); [reflexivity|].
    rewrite Hs. now apply find_fresh.
  - intros Hlen e2 Hn2.
    assert (Hu1 : uncached u w1).
    { subst w1. apply create_succeeded.
      rewrite (create_ok e u b w d Hn Hf Hd). unfold succeeded. cbn. lia. }
    rewrite (getAll_miss e2 u w1 Hn2) by now apply uncached_miss.
    cbn [fst]. eexists. split; [reflexivity|].
    apply listing_all; [| |reflexivity].
    + rewrite Hs, List.filter_app, List.length_app. cbn [List.filter List.length].
      unfold owned_by in Hlen. destruct (owned u p); cbn; lia.
    + rewrite Hs. apply in_or_app. right. now left.
Qed.

Lemma created_product_is_readable_witness :
  store (snd (create (quiet 1 "a" (Some (1999 # 100))) "U" tv (initial true)))
  = store (initial true) ++ [the_tv] /\
  (forall e2, store_fault e2 = None ->
     fst (getOne e2 "U" "a"
            (snd (create (quiet 1 "a" (Some (1999 # 100))) "U" tv (initial true))))
     = json (BProduct (Product.with_views 1 the_tv))) /\
  ((List.length (owned_by "U" (initial true)) < 100)%nat ->
   forall e2, no_fault e2 ->
     exists ps,
       fst (getAll e2 "U"
              (snd (create (quiet 1 "a" (Some (1999 # 100))) "U" tv (initial true))))
       = json (BProducts ps false) /\ In the_tv ps).
Proof.
  apply (created_product_is_readable (quiet 1 "a" (Some (1999 # 100))) "U" tv
           (initial true) (Some {| scraped_price := 1999 # 100 |})).
  - split; reflexivity.
  - reflexivity.
  - intros [].
Defined.

End CreateThenRead.

(** ** When a back-end rejects *)

Section Faults.

(** X13.  A store that rejects is reported, and nothing changes: the
    create (once the scraper has returned), read-one, update and delete
    handlers answer 500 with their own message and the message of the
    error, and so does a list read that has to ask the store; the state
    stays as it was.  A list read that finds a live cached value does not
    ask the store and answers as usual. *)
Theorem store_failure_is_reported (e : Env) (u id : string) (b : Body.t)
    (w : World) (detail : string) :
  store_fault e = Some detail ->
  (forall d, scraped e = Returned d ->
     create e u b w = (failed "Error adding product" detail, w)) /\
  getOne e u id w = (failed "Error fetching product" detail, w) /\
  update e u id b w = (failed "Error updating product" detail, w) /\
  remove e u id w = (failed "Error deleting product" detail, w) /\
  (cache_fault e = None -> cache_miss (now e) u w ->
   getAll e u w = (failed "Error fetching products" detail, w)) /\
  (forall m c,
     cache_fault e = None -> redis w = Some m ->
     m !! cacheKey u = Some c -> live (now e) c = true ->
     getAll e u w = (json (BProducts (payload c) true), w)).
Proof.
  intros Hs. repeat split.
  - intros d Hd. unfold_handler. run_with ltac:(rewrite ?Hd, ?Hs). reflexivity.
  - unfold_handler. run_with ltac:(rewrite ?Hs). reflexivity.
  - unfold_handler. run_with ltac:(rewrite ?Hs). reflexivity.
  - unfold_handler. run_with ltac:(rewrite ?Hs). reflexivity.
  - intros Hc Hmiss. unfold cache_miss in Hmiss. unfold_handler.
    destruct (redis w) as [m|] eqn:Hm.
    + destruct (m !! cacheKey u) as [c|] eqn:Hk;
        run_with ltac:(rewrite ?Hm, ?Hc, ?Hs, ?Hk, ?Hmiss);
        unfold failed; f_equal; rewrite <- Hm; apply world_eta.
    + run_with ltac:(rewrite ?Hm, ?Hs). reflexivity.
  - intros m c. now apply getAll_cached.
Qed.

Lemma store_failure_is_reported_witness :
  create (store_down 2 "b") "U" tv one_product
  = (failed "Error adding product" "buffering timed out", one_product) /\
  getOne (store_down 2 "b") "U" "a" one_product
  = (failed "Error fetching product" "buffering timed out", one_product).
Proof.
  split.
  - apply (proj1 (store_failure_is_reported (store_down 2 "b") "U" "a" tv
                    one_product "buffering timed out" eq_refl) None).
    reflexivity.
  - apply (store_failure_is_reported (store_down 2 "b") "U" "a" tv one_product
             "buffering timed out" eq_refl).
Defined.

(** X14.  A cache that rejects fails the request after the store has
    been written: with a cache client whose commands reject, a create
    (once the scraper has returned), an update or a delete that the store
    accepts is answered 500 although
    the document has been stored, changed or removed, and the cache keeps
    what it held.  A list read is answered 500 without the store being
    asked. *)
Theorem cache_failure_after_write (e : Env) (u id : string) (b : Body.t)
    (w : World) (m : gmap string CacheEntry) (detail : string) :
  cache_fault e = Some detail -> store_fault e = None -> redis w = Some m ->
  getAll e u w = (failed "Error fetching products" detail, w) /\
  (forall d, scraped e = Returned d -> fresh e w ->
   create e u b w
   = (failed "Error adding product" detail,
      set_store (store w ++ [new_product e u b d]) w)) /\
  (forall p,
     List.find (selects id u) (store w) = Some p ->
     update e u id b w
     = (failed "Error updating product" detail,
        set_store (update_first (selects id u) (apply_set b) (store w)) w) /\
     remove e u id w
     = (failed "Error deleting product" detail,
        set_store (remove_first (selects id u) (store w)) w)).
Proof.
  intros Hc Hs Hm. split; [|split].
  - unfold_handler. run_with ltac:(rewrite ?Hm, ?Hc).
    unfold failed. f_equal.
  - intros d Hd Hf%fresh_existsb. unfold_handler. rewrite Hd.
    change (Product._id (new_product e u b d)) with (fresh_id e).
    run_with ltac:(rewrite ?Hs, ?Hf, ?Hm, ?Hc). reflexivity.
  - intros p Hf. split; unfold_handler;
      run_with ltac:(rewrite ?Hs, ?Hf, ?Hm, ?Hc; cbn [option_map]);
      reflexivity.
Qed.

Lemma cache_failure_after_write_witness :
  getAll (cache_down 3 "c") "U" one_product_cached
  = (failed "Error fetching products" "The client is closed",
     one_product_cached).
Proof.
  destruct one_product_cached_entry as (m & c & Hm & _).
  apply (cache_failure_after_write (cache_down 3 "c") "U" "a" tv
           one_product_cached m "The client is closed" eq_refl eq_refl Hm).
Defined.

Lemma redis_none_served (e : Env) (req : Request) (w : World) :
  redis w = None -> redis (snd (serve e req w)) = None.
Proof.
  intros Hm.
  destruct (serve_served e req w) as
    [ _ | _ _ | _ _ | u _ _ _ | u _ _ _ | u id _ _ _ _
    | u id _ _ _ | u id _ _ _ ]; cbn [snd wrap]; try assumption.
  - now rewrite (proj2 (sponsored_backends e _ w)).
  - destruct (getAll_redis e u w) as [-> | (m & Hm' & _)]; congruence.
  - destruct (create_redis e u (body_of req) w) as [-> | (m & Hm' & _)];
      congruence.
  - now rewrite getOne_redis.
  - destruct (update_redis e u id (body_of req) w) as [-> | (m & Hm' & _)];
      congruence.
  - destruct (remove_redis e u id w) as [-> | (m & Hm' & _)]; congruence.
Qed.

Lemma lookup_from_In (rs : list route) (req : Request) :
  forall n k r id, lookup_from n rs req = Some (k, r, id) -> In r rs.
Proof.
  induction rs as [|x rs IH]; intros n k r id; cbn [lookup_from];
    [discriminate|].
  destruct (accepts (at_path x) (path req)); [right; eauto| |discriminate].
  destruct (method_eqb (on x) (verb req)).
  - intros [= _ <- _]. now left.
  - intros H. right. eauto.
Qed.

(** Two runs of the collaborators that make every handler act alike make
    the router act alike. *)
Lemma serve_ext (e e' : Env) (req : Request) (w : World) :
  (forall q, Sponsored.handler e q w = Sponsored.handler e' q w) ->
  (forall u, getAll e u w = getAll e' u w) ->
  (forall u b, create e u b w = create e' u b w) ->
  (forall u id, getOne e u id w = getOne e' u id w) ->
  (forall u id b, update e u id b w = update e' u id b w) ->
  (forall u id, remove e u id w = remove e' u id w) ->
  serve e req w = serve e' req w.
Proof.
  intros Hsp Hl Hc Ho Hu Hr. unfold serve.
  destruct (lookup req) as [[[n r] id]|] eqn:L; [|reflexivity].
  apply lookup_from_In in L. unfold routes in L. cbn [In] in L.
  destruct L as [<-|[<-|[<-|[<-|[<-|[<-|[<-|[]]]]]]]];
    cbn [run via]; unfold auth; try destruct (identity req);
    rewrite ?Hsp, ?Hl, ?Hc, ?Ho, ?Hu, ?Hr; reflexivity.
Qed.

(** X15.  Without a cache client the router works from the store alone:
    no request ever sends a cache command, so whether the cache back-end
    would reject makes no difference to any answer or to the state; the
    client stays absent; and every list read the store answers returns
    the store's listing and leaves the state as it was. *)
Theorem without_cache_client (e : Env) (req : Request) (w : World) :
  redis w = None ->
  (forall f, serve (with_cache_fault f e) req w = serve e req w) /\
  redis (snd (serve e req w)) = None /\
  (forall u, store_fault e = None ->
     getAll e u w = (json (BProducts (listing u (store w)) false), w)).
Proof.
  intros Hm. split; [|split].
  - intros f. destruct w as [s r o]. cbn [redis] in Hm. subst r.
    apply serve_ext; intros; try reflexivity;
      unfold_handler; unfold with_cache_fault;
      cbn [store_fault cache_fault fresh_id scraped now store redis outbound];
      try (destruct (scraped e) as [d|]; [|reflexivity]);
      destruct (store_fault e); try reflexivity.
    + destruct (existsb _ s); reflexivity.
    + destruct (List.find (selects id u) s); reflexivity.
    + destruct (List.find (selects id u) s); reflexivity.
  - now apply redis_none_served.
  - intros u Hs. unfold_handler. run_with ltac:(rewrite ?Hm, ?Hs).
    f_equal. rewrite <- Hm. apply world_eta.
Qed.

Lemma without_cache_client_witness :
  redis (snd (serve (quiet 1 "a" None) (post tv "U") (initial false))) = None.
Proof.
  apply (without_cache_client (quiet 1 "a" None) (post tv "U") (initial false)).
  reflexivity.
Defined.

End Faults.

(** ** The cached listing over time *)

Section Expiry.

(** X16.  A listing is cached for five minutes: after a list read that
    missed the cache and filled it, a list read by the same user with
    nothing served in between is answered from the cache, with the same
    products and the [cached] tag, as long as fewer than 300 seconds have
    passed; from then on it is answered from the store again. *)
Theorem listing_cached_for_300_seconds (e1 e2 : Env) (u : string) (w : World)
    (m : gmap string CacheEntry) :
  no_fault e1 -> redis w = Some m -> cache_miss (now e1) u w ->
  cache_fault e2 = None ->
  fst (getAll e1 u w) = json (BProducts (listing u (store w)) false) /\
  ((now e2 < now e1 + 300000)%N ->
   getAll e2 u (snd (getAll e1 u w))
   = (json (BProducts (listing u (store w)) true), snd (getAll e1 u w))) /\
  ((now e1 + 300000 <= now e2)%N -> store_fault e2 = None ->
   fst (getAll e2 u (snd (getAll e1 u w)))
   = json (BProducts (listing u (store w)) false)).
Proof.
  intros Hn Hm Hmiss Hc.
  rewrite (getAll_miss e1 u w Hn Hmiss). cbn [fst snd].
  split; [reflexivity|].
  unfold populated. rewrite Hm.
  set (c := {| payload := listing u (store w); written := now e1; ex := 300 |}).
  assert (Hk : <[cacheKey u := c]> m !! cacheKey u = Some c)
    by apply lookup_insert_eq.
  split.
  - intros Ht.
    apply (getAll_cached e2 u _ (<[cacheKey u := c]> m) c);
      [assumption|reflexivity|assumption|].
    unfold live. cbn [written ex c]. apply N.ltb_lt. lia.
  - intros Ht Hs. rewrite getAll_miss.
    + reflexivity.
    + now split.
    + unfold cache_miss, set_cache. cbn [redis]. rewrite Hk.
      unfold live. cbn [written ex c]. apply N.ltb_ge. lia.
Qed.

Lemma listing_cached_for_300_seconds_witness :
  fst (getAll (quiet 2 "b" None) "U" one_product)
  = json (BProducts (listing "U" (store one_product)) false) /\
  ((now (quiet 300001 "c" None) < now (quiet 2 "b" None) + 300000)%N ->
   getAll (quiet 300001 "c" None) "U"
     (snd (getAll (quiet 2 "b" None) "U" one_product))
   = (json (BProducts (listing "U" (store one_product)) true),
      snd (getAll (quiet 2 "b" None) "U" one_product))) /\
  ((now (quiet 2 "b" None) + 300000 <= now (quiet 300001 "c" None))%N ->
   store_fault (quiet 300001 "c" None) = None ->
   fst (getAll (quiet 300001 "c" None) "U"
          (snd (getAll (quiet 2 "b" None) "U" one_product)))
   = json (BProducts (listing "U" (store one_product)) false)).
Proof.
  eapply (listing_cached_for_300_seconds (quiet 2 "b" None)
            (quiet 300001 "c" None) "U" one_product).
  - split; reflexivity.
  - vm_compute. reflexivity.
  - vm_compute. exact I.
  - reflexivity.
Defined.

End Expiry.

(** ** The listing *)

Section ListingMore.

Lemma sorted_app_le (a b : list Product.t) (x y : Product.t) :
  newest_first (a ++ b) -> In x a -> In y b ->
  (Product.createdAt y <= Product.createdAt x)%N.
Proof.
  unfold newest_first. induction a as [|p a IH]; intros Hs Hx Hy;
    [contradiction|].
  cbn [app] in Hs. apply StronglySorted_inv in Hs as [Hs Hp].
  destruct Hx as [->|Hx]; [|now apply IH].
  apply (proj1 (List.Forall_forall _ _) Hp). apply in_or_app. now right.
Qed.

(** X17.  The cap keeps the newest: a user with at most one hundred
    products gets all of them listed; a user with more gets exactly one
    hundred, and no product left out is newer than a product listed. *)
Theorem listing_keeps_newest (u : string) (s : list Product.t) :
  ((List.length (List.filter (owned u) s) <= 100)%nat ->
   Permutation (listing u s) (List.filter (owned u) s)) /\
  ((100 < List.length (List.filter (owned u) s))%nat ->
   List.length (listing u s) = 100%nat) /\
  (forall p q,
     In p (listing u s) -> In q s -> Product.userId q = u ->
     ~ In q (listing u s) ->
     (Product.createdAt q <= Product.createdAt p)%N).
Proof.
  unfold listing. set (sorted := sort_desc (List.filter (owned u) s)).
  assert (Hperm : Permutation sorted (List.filter (owned u) s))
    by apply sort_desc_perm.
  split; [|split].
  - intros Hlen. rewrite firstn_all2; [exact Hperm|].
    now rewrite (Permutation_length Hperm).
  - intros Hlen. apply firstn_length_le.
    rewrite (Permutation_length Hperm). lia.
  - intros p q Hp Hq Hu Hnot.
    assert (Hqs : In q sorted).
    { apply (Permutation_in _ (Permutation_sym Hperm)).
      apply filter_In. split; [assumption|]. now apply owned_userId. }
    rewrite <- (firstn_skipn 100 sorted) in Hqs.
    apply in_app_or in Hqs as [Hqs|Hqs]; [contradiction|].
    apply (sorted_app_le (firstn 100 sorted) (skipn 100 sorted)); auto.
    rewrite firstn_skipn. apply sort_desc_sorted.
Qed.

Lemma listing_keeps_newest_witness :
  Permutation (listing "U" (store one_product))
    (List.filter (owned "U") (store one_product)).
Proof.
  apply (listing_keeps_newest "U" (store one_product)).
  rewrite one_product_store. cbn. lia.
Defined.

End ListingMore.

(** ** The routing table *)

Section Routing.

Lemma names_sponsored_spelled (p : list string) :
  names_sponsored p <->
  exists x, (p = [x] \/ p = [x; ""]) /\ lower x = "sponsored".
Proof.
  unfold names_sponsored, accepts.
  change (lower "sponsored") with "sponsored". split.
  - destruct p as [|x [|[|c y] [|z l]]]; cbn [segment]; try discriminate;
      (destruct (String.eqb (lower x) "sponsored") eqn:E; [|discriminate]);
      intros _; apply String.eqb_eq in E; exists x; auto.
  - intros (x & [-> | ->] & Hx); cbn [segment]; now rewrite Hx.
Qed.

(** X18.  The sponsored search is registered under [/sponsored] in any
    case of the letters, with or without a trailing slash, and its first
    registration wins: a GET of such a path is always answered by the
    handler registered without the middleware, whatever the credentials;
    the handler registered behind the middleware further down is chosen
    for no request; and the read-one handler is never chosen for such a
    path.  It does receive the identifier [sponsored] for a path that
    spells it with an escape. *)
Theorem sponsored_route_precedence (req : Request) :
  (names_sponsored (path req) <->
   exists x, (path req = [x] \/ path req = [x; ""]) /\ lower x = "sponsored") /\
  (verb req = GET -> names_sponsored (path req) ->
   exists r h,
     lookup req = Some (0%nat, r, "") /\
     serves r = SponsoredSearch /\ via r = Plain h) /\
  (forall n r id, lookup req = Some (n, r, id) -> n <> 6%nat) /\
  (forall n r id,
     lookup req = Some (n, r, id) -> serves r = ReadOne ->
     verb req = GET /\ names id (path req) /\ ~ names_sponsored (path req)) /\
  (forall u, exists r,
     lookup (get ["%73ponsored"] u) = Some (3%nat, r, "sponsored") /\
     serves r = ReadOne).
Proof.
  split; [apply names_sponsored_spelled|].
  destruct req as [v p q b i]. cbn [verb path]. unfold names, names_sponsored.
  split; [|split; [|split]].
  - intros -> L. unfold lookup, routes.
    cbn [lookup_from verb path on at_path]. rewrite L. cbn [method_eqb].
    eexists. eexists. split; [reflexivity|]. split; reflexivity.
  - intros n r id. apply sponsored_second_route_dead_at.
  - intros n r id. unfold lookup, routes.
    cbn [lookup_from verb path on at_path].
    destruct (accepts_literal_cases "sponsored" p) as [L|L]; rewrite L;
      destruct (accepts_root_cases p) as [R|R]; rewrite R;
      destruct (accepts Param p) as [|x|] eqn:P;
      destruct v; cbn [method_eqb]; try discriminate;
      intros [= _ <- <-]; cbn [serves]; try discriminate;
      intros _; repeat split; discriminate.
  - intros u. eexists. split; reflexivity.
Qed.

Lemma sponsored_route_precedence_witness :
  exists r h,
    lookup get_sponsored = Some (0%nat, r, "") /\
    serves r = SponsoredSearch /\ via r = Plain h.
Proof.
  apply (sponsored_route_precedence get_sponsored); reflexivity.
Defined.

End Routing.

(** ** What the cache holds *)

Section CacheShape.

Lemma well_cached_deletes (v : string) (w w' : World) :
  deletes_at_most v w w' ->
  (forall m k c, redis w = Some m -> m !! k = Some c -> well_cached k c) ->
  forall m k c, redis w' = Some m -> m !! k = Some c -> well_cached k c.
Proof.
  intros [Hr | (m0 & Hm0 & Hr)] Hw m k c Hm Hk.
  - rewrite Hr in Hm. eauto.
  - rewrite Hr in Hm. injection Hm as <-.
    apply lookup_delete_Some in Hk as [_ Hk]. eauto.
Qed.

Lemma well_cached_serve (e : Env) (req : Request) (w : World) :
  (forall m k c, redis w = Some m -> m !! k = Some c -> well_cached k c) ->
  forall m k c,
    redis (snd (serve e req w)) = Some m -> m !! k = Some c -> well_cached k c.
Proof.
  intros Hw.
  destruct (serve_served e req w) as
    [ _ | _ _ | _ _ | u _ _ _ | u _ _ _ | u id _ _ _ _
    | u id _ _ _ | u id _ _ _ ]; cbn [snd wrap]; try assumption.
  - now rewrite (proj2 (sponsored_backends e _ w)).
  - destruct (getAll_redis e u w) as [-> | (m0 & Hm0 & ->)]; [assumption|].
    intros m k c [= <-] Hk.
    destruct (decide (cacheKey u = k)) as [<-|Hne].
    + rewrite lookup_insert_eq in Hk. injection Hk as <-.
      exists u. cbn [payload ex]. repeat split.
      * apply List.Forall_forall. intros p Hp.
        now apply (listing_shape u (store w)).
      * apply listing_shape.
      * apply listing_shape.
    + rewrite lookup_insert_ne in Hk by assumption. eauto.
  - eapply well_cached_deletes; [apply create_redis|assumption].
  - now rewrite getOne_redis.
  - eapply well_cached_deletes; [apply update_redis|assumption].
  - eapply well_cached_deletes; [apply remove_redis|assumption].
Qed.

(** X19.  The cache never mixes users: in every state the router can be
    in, each cache entry sits under the key of one user, was written with
    an expiry of 300 seconds, and holds at most one hundred documents, all
    of that user, newest first. *)
Theorem cache_entries_are_private (w : World) (m : gmap string CacheEntry)
    (k : string) (c : CacheEntry) :
  reachable w -> redis w = Some m -> m !! k = Some c -> well_cached k c.
Proof.
  intros Hr. revert m k c. induction Hr as [cache|e req w _ IH].
  - intros m k c Hm Hk. destruct cache; [|discriminate].
    injection Hm as <-. now rewrite lookup_empty in Hk.
  - now apply well_cached_serve.
Qed.

Lemma cache_entries_are_private_witness :
  exists m c,
    redis one_product_cached = Some m /\ m !! cacheKey "U" = Some c /\
    well_cached (cacheKey "U") c.
Proof.
  destruct one_product_cached_entry as (m & c & Hm & Hk & _).
  exists m, c. split; [exact Hm|]. split; [exact Hk|].
  apply (cache_entries_are_private one_product_cached m (cacheKey "U") c).
  - apply reach_serve, reach_serve, reach_initial.
  - exact Hm.
  - exact Hk.
Defined.

End CacheShape.

(** ** The search page: prices *)

Section ClientPrices.

Local Open Scope Q_scope.

Lemma first_parsed_cons (c : value) (rest : list value) :
  Client.first_parsed (c :: rest)
  = (price <-- parsePrice c ;;
     match price with
     | Some n => Returned (Client.Finite n)
     | None => Client.first_parsed rest
     end).
Proof.
  destruct c; try reflexivity; cbn [Client.first_parsed parsePrice];
    match goal with
    | |- context [String_ ?v] => destruct (String_ v); reflexivity
    end.
Qed.

Lemma safePrice_object (fields : list (string * value)) :
  Client.safePrice (VObj fields)
  = Client.first_parsed
      [assoc "currentPrice" fields; assoc "price" fields;
       assoc "offerPrice" fields; assoc "lowestPrice" fields;
       assoc "priceRaw" fields; assoc "price" fields].
Proof. reflexivity. Qed.

Lemma safePrice_candidates (p : value) :
  nullish p = false ->
  Client.safePrice p
  = Client.first_parsed (candidates p ++ [getprop_opt p "price"]).
Proof.
  intros Hp. unfold Client.safePrice, candidates, safe_names.
  rewrite !(getprop_opt_returned p) by assumption. reflexivity.
Qed.

(** The loop returns, or throws with a message. *)
Lemma first_parsed_total (cs : list value) :
  (exists n, Client.first_parsed cs = Returned n) \/
  (exists m, Client.first_parsed cs = Threw (Some m)).
Proof.
  induction cs as [|c cs IH]; [left; cbn; eauto|].
  rewrite first_parsed_cons.
  pose proof (parsePrice_printable c) as Hc.
  destruct (printable c).
  - destruct Hc as [[v|] ->]; cbn [obind]; [left; eauto|exact IH].
  - destruct Hc as [m ->]. right. cbn. eauto.
Qed.

Lemma first_parsed_returns (cs : list value) :
  forallb printable cs = true -> exists n, Client.first_parsed cs = Returned n.
Proof.
  induction cs as [|c cs IH]; cbn [forallb]; [cbn; eauto|].
  intros [Hc Hcs]%andb_true_iff. rewrite first_parsed_cons.
  pose proof (parsePrice_printable c) as Hp. rewrite Hc in Hp.
  destruct Hp as [[v|] ->]; cbn [obind]; eauto.
Qed.

Lemma safePrice_total (p : value) :
  (exists n, Client.safePrice p = Returned n) \/
  (exists m, Client.safePrice p = Threw (Some m)).
Proof.
  destruct (nullish p) eqn:Hp.
  - right. destruct p; try discriminate; cbn; eauto.
  - rewrite (safePrice_candidates p Hp). apply first_parsed_total.
Qed.

Lemma safePrice_returns (p : value) :
  priceable p = true -> exists n, Client.safePrice p = Returned n.
Proof.
  intros [Hp Hc]%andb_true_iff. apply negb_true_iff in Hp.
  rewrite (safePrice_candidates p Hp). apply first_parsed_returns.
  rewrite forallb_app, Hc. cbn [forallb]. rewrite andb_true_r.
  unfold candidates, safe_names in Hc. cbn [map forallb] in Hc.
  now apply andb_true_iff in Hc as [_ [H _]%andb_true_iff].
Qed.

Lemma safePrice_throws (p : value) :
  nullish p = true -> exists m, Client.safePrice p = Threw (Some m).
Proof. destruct p; try discriminate; intros _; cbn; eauto. Qed.

(** X20.  The page prices an entry by the first of [currentPrice],
    [price], [offerPrice], [lowestPrice] and [priceRaw] that is present
    and parses: a numeric current price that is a plain decimal is taken
    as it is, zero included; a current price the parser reads nothing
    from falls through to the next name; an entry none of whose
    candidates the parser reads counts as infinitely expensive; the
    function returns whenever the entry is not [null] and its candidates
    can be printed; and it throws on a [null] entry and on an entry whose
    current price cannot be printed. *)
Theorem safePrice_first_parseable :
  (forall fields q,
     assoc "currentPrice" fields = VNum q -> plain_decimal q ->
     exists v, Client.safePrice (VObj fields) = Returned (Client.Finite v)
               /\ v == q) /\
  (forall fields v,
     parsePrice (assoc "currentPrice" fields) = Returned None ->
     parsePrice (assoc "price" fields) = Returned (Some v) ->
     Client.safePrice (VObj fields) = Returned (Client.Finite v)) /\
  (forall fields,
     (forall k, In k safe_names ->
        parsePrice (assoc k fields) = Returned None) ->
     Client.safePrice (VObj fields) = Returned Client.Infinity) /\
  (forall p, priceable p = true ->
     exists n, Client.safePrice p = Returned n) /\
  (forall p, nullish p = true ->
     exists m, Client.safePrice p = Threw (Some m)) /\
  (forall fields, printable (assoc "currentPrice" fields) = false ->
     exists m, Client.safePrice (VObj fields) = Threw (Some m)).
Proof.
  split; [|split; [|split; [|split; [|split]]]].
  - intros fields q Hc Hq. rewrite safePrice_object, first_parsed_cons, Hc.
    unfold parsePrice. cbn [String_ obind].
    destruct (print_then_parse q Hq) as (v & -> & Hv). now exists v.
  - intros fields v Hc Hp.
    now rewrite safePrice_object, !first_parsed_cons, Hc, Hp.
  - intros fields Hall. rewrite safePrice_object, !first_parsed_cons.
    unfold safe_names in Hall.
    rewrite !Hall by (cbn; tauto). reflexivity.
  - apply safePrice_returns.
  - apply safePrice_throws.
  - intros fields Hc. rewrite safePrice_object, first_parsed_cons.
    pose proof (parsePrice_printable (assoc "currentPrice" fields)) as Hp.
    rewrite Hc in Hp. destruct Hp as [m ->]. cbn. eauto.
Qed.

Lemma safePrice_first_parseable_witness :
  exists v, Client.safePrice (tracked "tv" 0) = Returned (Client.Finite v)
            /\ v == 0.
Proof.
  apply (proj1 safePrice_first_parseable _ 0); [reflexivity|].
  exists 0%Z, 0%nat. split; [reflexivity|]. split; [reflexivity|lia].
Defined.

(** A current price of 1e21 is printed with an exponent, and read as
    121. *)
Example safePrice_exponent :
  Client.safePrice
    (VObj [("currentPrice", VNum (inject_Z (10 ^ 21)))])
  = Returned (Client.Finite 121).
Proof. vm_compute. reflexivity. Qed.

Lemma lt_false_le (a q : Q) :
  Client.lt (Client.Finite q) (Client.Finite a) = false -> a <= q.
Proof. cbn. intros H. apply negb_false_iff in H. now apply Qle_bool_iff. Qed.

Lemma lt_true_le (a q : Q) :
  Client.lt (Client.Finite q) (Client.Finite a) = true -> q <= a.
Proof.
  cbn. intros H. apply negb_true_iff in H.
  apply Qlt_le_weak, Qnot_le_lt. intros Hle.
  apply Qle_bool_iff in Hle. congruence.
Qed.

(** What the reduction computes from any accumulator, on prices already
    taken. *)
Lemma fold_min_spec (prices : list Client.number) :
  forall acc,
    let r := fold_left (fun acc p => if Client.lt p acc then p else acc)
               prices acc in
    (r = acc \/ In r prices) /\
    match r with
    | Client.Infinity =>
        acc = Client.Infinity /\ forall q, ~ In (Client.Finite q) prices
    | Client.Finite m =>
        (forall a, acc = Client.Finite a -> m <= a) /\
        (forall q, In (Client.Finite q) prices -> m <= q)
    end.
Proof.
  induction prices as [|p prices IH]; intros acc; cbn [fold_left].
  - split; [now left|]. destruct acc as [a|].
    + split; [intros a' [= <-]; apply Qle_refl|intros q []].
    + split; [reflexivity|intros q []].
  - specialize (IH (if Client.lt p acc then p else acc)).
    cbn zeta in IH. destruct IH as [Hin Hmin].
    set (r := fold_left _ prices _) in *. split.
    + destruct Hin as [Hin|Hin]; [|now right; right].
      rewrite Hin. destruct (Client.lt p acc); [right; now left|now left].
    + destruct r as [m|].
      * destruct Hmin as [Hacc Hall]. split.
        -- intros a ->. destruct p as [q|].
           ++ destruct (Client.lt (Client.Finite q) (Client.Finite a)) eqn:E.
              ** apply lt_true_le in E.
                 eapply Qle_trans; [apply (Hacc q eq_refl)|exact E].
              ** now apply Hacc.
           ++ now apply Hacc.
        -- intros q [->|Hq]; [|now apply Hall].
           destruct acc as [a|].
           ++ destruct (Client.lt (Client.Finite q) (Client.Finite a)) eqn:E.
              ** now apply Hacc.
              ** apply lt_false_le in E.
                 eapply Qle_trans; [apply (Hacc a eq_refl)|exact E].
           ++ now apply Hacc.
      * destruct Hmin as [Hacc Hall].
        destruct p as [q|], acc as [a|]; cbn in Hacc; try discriminate;
          try (destruct (negb (Qle_bool a q)); discriminate).
        split; [reflexivity|]. intros q [[=]|Hq]. now apply (Hall q).
Qed.

Lemma reduce_min_fold (items : list value) (prices : list Client.number) :
  mapM Client.safePrice items = Returned prices ->
  forall acc,
    Client.reduce_min items acc
    = Returned (fold_left (fun acc p => if Client.lt p acc then p else acc)
                  prices acc).
Proof.
  revert prices. induction items as [|it items IH]; intros prices.
  - intros [= <-] acc. reflexivity.
  - cbn [mapM Client.reduce_min].
    destruct (Client.safePrice it) as [p|]; cbn [obind]; [|discriminate].
    destruct (mapM Client.safePrice items) as [ps|]; cbn [obind];
      [|discriminate].
    intros [= <-] acc. cbn [fold_left]. now apply IH.
Qed.

Lemma mapM_safePrice_returns (items : list value) :
  forallb priceable items = true ->
  exists prices, mapM Client.safePrice items = Returned prices.
Proof.
  induction items as [|it items IH]; cbn [forallb mapM]; [eauto|].
  intros [Hr Hrs]%andb_true_iff.
  destruct (safePrice_returns it Hr) as [p ->].
  destruct (IH Hrs) as [ps ->]. cbn. eauto.
Qed.

Lemma reduce_min_throws (items : list value) :
  forallb (fun r => negb (nullish r)) items = false ->
  forall acc, exists m, Client.reduce_min items acc = Threw (Some m).
Proof.
  induction items as [|it items IH]; cbn [forallb Client.reduce_min];
    [discriminate|].
  destruct (nullish it) eqn:Hr; cbn [negb andb].
  - intros _ acc. destruct (safePrice_throws it Hr) as [m ->]. cbn. eauto.
  - intros Hrs acc. destruct (safePrice_total it) as [[p ->]|[m ->]].
    + cbn [obind]. now apply IH.
    + cbn. eauto.
Qed.

(** The lowest price of a list of entries, from their prices. *)
Lemma computeLowest_prices (items : list value) (prices : list Client.number) :
  mapM Client.safePrice items = Returned prices ->
  exists r,
    Client.computeLowest (VArr items) = Returned r /\
    (r = None <-> forall q, ~ In (Client.Finite q) prices) /\
    (forall m, r = Some m -> least_finite m prices).
Proof.
  intros Hp.
  pose proof (fold_min_spec prices Client.Infinity) as Hf. cbn zeta in Hf.
  pose proof (reduce_min_fold items prices Hp Client.Infinity) as Hr.
  set (r := fold_left _ prices _) in *.
  exists (finite r). split.
  - destruct items as [|it items].
    + cbn in Hp. injection Hp as <-. reflexivity.
    + unfold Client.computeLowest. rewrite Hr. cbn [obind].
      now destruct r.
  - destruct Hf as [Hin Hmin]. destruct r as [m|]; cbn [finite].
    + destruct Hmin as [_ Hle]. split.
      * split; [discriminate|]. intros Hno. exfalso.
        destruct Hin as [Hin|Hin]; [discriminate|]. now apply (Hno m).
      * intros m' [= <-]. split; [|exact Hle].
        destruct Hin as [Hin|Hin]; [discriminate|exact Hin].
    + destruct Hmin as [_ Hno]. split; [tauto|discriminate].
Qed.

(** The lowest price of a list of entries the page can price. *)
Lemma computeLowest_spec (items : list value) :
  forallb priceable items = true ->
  exists prices r,
    mapM Client.safePrice items = Returned prices /\
    Client.computeLowest (VArr items) = Returned r /\
    (r = None <-> forall q, ~ In (Client.Finite q) prices) /\
    (forall m, r = Some m -> least_finite m prices).
Proof.
  intros Hall. destruct (mapM_safePrice_returns items Hall) as [prices Hp].
  destruct (computeLowest_prices items prices Hp) as (r & Hr).
  exists prices, r. now split.
Qed.

(** X21.  The lowest price of the page is the least price of its
    entries: for a list of entries the page can price (none is [null],
    and their price candidates can be printed), it is [null] exactly
    when no entry has a parseable price, and otherwise a price of some
    entry that is below the price of every entry.  It is [null] for the
    empty list and for anything that is not an array, and the function
    throws when an entry is [null]. *)
Theorem computeLowest_is_least (items : list value) :
  (forallb priceable items = true ->
   exists prices r,
     mapM Client.safePrice items = Returned prices /\
     Client.computeLowest (VArr items) = Returned r /\
     (r = None <-> forall q, ~ In (Client.Finite q) prices) /\
     (forall m, r = Some m -> least_finite m prices)) /\
  (forallb (fun r => negb (nullish r)) items = false ->
   exists m, Client.computeLowest (VArr items) = Threw (Some m)) /\
  Client.computeLowest (VArr []) = Returned None /\
  (forall v, is_array v = false -> Client.computeLowest v = Returned None).
Proof.
  split; [apply computeLowest_spec|]. split; [|split].
  - intros Hsome. destruct items as [|it items]; [discriminate|].
    unfold Client.computeLowest.
    destruct (reduce_min_throws (it :: items) Hsome Client.Infinity) as [m ->].
    cbn. eauto.
  - reflexivity.
  - intros v Hv. now destruct v.
Qed.

Lemma computeLowest_is_least_witness :
  exists prices r,
    mapM Client.safePrice [tracked "tv" (1999 # 100); tracked "pc" 8]
    = Returned prices /\
    Client.computeLowest (VArr [tracked "tv" (1999 # 100); tracked "pc" 8])
    = Returned r /\
    (r = None <-> forall q, ~ In (Client.Finite q) prices) /\
    (forall m, r = Some m -> least_finite m prices).
Proof.
  apply (proj1 (computeLowest_is_least
                  [tracked "tv" (1999 # 100); tracked "pc" 8])).
  reflexivity.
Defined.

End ClientPrices.

(** ** The search page: searching *)

Section ClientSearch.

Lemma field_matches_searchable (b : Client.Browser) (field : string)
    (v : value) (qlc : string) :
  searchable_text v = true ->
  Client.field_matches b field v qlc
  = Returned (Client.includes (Client.toLowerCase b (text_of v)) qlc).
Proof.
  unfold Client.field_matches, text_of, JS.or, searchable_text.
  destruct v as [| |b0|n|s|l|f|nm]; cbn [truthy]; intros H;
    try discriminate; try reflexivity.
  - apply negb_true_iff in H. now rewrite H.
  - apply negb_true_iff in H. now rewrite H.
  - now destruct s.
Qed.

Lemma matches_searchable (b : Client.Browser) (qlc : string) (p : value) :
  searchable p = true -> Client.matches b qlc p = Returned (hit b qlc p).
Proof.
  destruct p; try discriminate. cbn [searchable].
  intros [[Hn Hp]%andb_true_iff Hu]%andb_true_iff.
  unfold Client.matches, hit. cbn [getprop obind].
  rewrite (field_matches_searchable b _ _ qlc Hn). cbn [obind].
  destruct (Client.includes _ qlc); [reflexivity|].
  rewrite (field_matches_searchable b _ _ qlc Hp). cbn [obind].
  destruct (Client.includes _ qlc); [reflexivity|].
  now rewrite (field_matches_searchable b _ _ qlc Hu).
Qed.

Lemma filterM_searchable (b : Client.Browser) (qlc : string) (l : list value) :
  forallb searchable l = true ->
  Client.filterM (Client.matches b qlc) l
  = Returned (List.filter (hit b qlc) l).
Proof.
  induction l as [|p l IH]; [reflexivity|]. cbn [forallb].
  intros [Hp Hl]%andb_true_iff. cbn [Client.filterM List.filter].
  rewrite (matches_searchable b qlc p Hp), (IH Hl). cbn [obind].
  reflexivity.
Qed.

Lemma as_product_shape (b : Client.Browser) (idx : nat) (it : value) :
  nullish it = false ->
  exists name platform url price,
    getprop it "price" = Returned price /\
    Client.as_product b idx it
    = Returned
        (VObj [("_id", VStr ("sponsored-" +:+ Client.index_text idx +:+ "-"
                             +:+ Client.random_digits b idx));
               ("name", name); ("platform", platform); ("url", url);
               ("currentPrice", price); ("sponsored", VBool true)]).
Proof.
  intros Hit. unfold Client.as_product.
  assert (G : forall k, exists v, getprop it k = Returned v)
    by (intros k; now apply getprop_returned).
  assert (C : forall d, exists v, Returned d = Returned v :> outcome value)
    by eauto.
  repeat match goal with
         | |- context [obind (?a ||| ?c) _] =>
             let H := fresh "H" in
             assert (H : exists z, a ||| c = Returned z)
               by (repeat apply orM_returns; auto);
             destruct H as [? ->]; cbn [obind]
         end.
  destruct (G "price") as [price Hp]. rewrite Hp. cbn [obind].
  eexists. eexists. eexists. exists price. split; reflexivity.
Qed.

Lemma as_product_throws (b : Client.Browser) (idx : nat) (it : value) :
  nullish it = true -> exists m, Client.as_product b idx it = Threw m.
Proof. destruct it; try discriminate; intros _; cbn; eauto. Qed.

Lemma map_from_returns (b : Client.Browser) (items : list value) :
  forallb (fun r => negb (nullish r)) items = true ->
  forall idx,
    exists entries,
      Client.map_from b idx items = Returned entries /\
      List.length entries = List.length items /\
      forallb (fun r => negb (nullish r)) entries = true /\
      forall i it,
        nth_error items i = Some it ->
        exists entry price,
          nth_error entries i = Some entry /\
          getprop it "price" = Returned price /\
          getprop entry "currentPrice" = Returned price /\
          getprop entry "sponsored" = Returned (VBool true) /\
          getprop entry "_id"
          = Returned (VStr ("sponsored-" +:+ Client.index_text (idx + i)
                            +:+ "-" +:+ Client.random_digits b (idx + i))).
Proof.
  induction items as [|it items IH]; cbn [forallb Client.map_from]; intros H idx.
  - exists []. repeat split. intros [|i] x [=].
  - apply andb_true_iff in H as [Hit Hrest]. apply negb_true_iff in Hit.
    destruct (as_product_shape b idx it Hit) as (n & pl & u & pr & Hpr & ->).
    destruct (IH Hrest (S idx)) as (entries & -> & Hlen & Hnn & Hnth).
    cbn [obind]. eexists. split; [reflexivity|]. repeat split.
    + cbn [List.length]. now rewrite Hlen.
    + cbn [forallb nullish negb andb]. exact Hnn.
    + intros [|i] x Hx; cbn [nth_error] in *.
      * injection Hx as <-. eexists. exists pr.
        split; [reflexivity|]. split; [exact Hpr|].
        rewrite Nat.add_0_r. repeat split.
      * destruct (Hnth i x Hx) as (entry & price & H1 & H2 & H3 & H4 & H5).
        exists entry, price. repeat split; try assumption.
        rewrite H5. now replace (S idx + i)%nat with (idx + S i)%nat by lia.
Qed.

Lemma map_from_throws (b : Client.Browser) (items : list value) :
  forallb (fun r => negb (nullish r)) items = false ->
  forall idx, exists m, Client.map_from b idx items = Threw m.
Proof.
  induction items as [|it items IH]; cbn [forallb Client.map_from];
    [discriminate|].
  destruct (nullish it) eqn:Hr; cbn [negb andb]; intros H idx.
  - destruct (as_product_throws b idx it Hr) as [m ->]. cbn. eauto.
  - destruct (as_product_shape b idx it Hr) as (n & pl & u & pr & _ & ->).
    destruct (IH H (S idx)) as [m ->]. cbn. eauto.
Qed.

(** X22.  The sponsored offers enter the page one entry per offer, in
    order, each flagged as sponsored, priced by the offer's [price] and
    identified by its index; and the page does without them when they
    cannot be had: when the call fails, when the answer carries no array
    of items, or when one of the items is [null], no sponsored entry is
    shown at all. *)
Theorem sponsored_entries (b : Client.Browser) (q : string) :
  (forall m, Client.getSponsored b q = Threw m ->
     Client.fetch_sponsored b q = []) /\
  (forall sres,
     Client.getSponsored b q = Returned sres ->
     is_array (getprop_opt (getprop_opt sres "data") "items") = false ->
     Client.fetch_sponsored b q = []) /\
  (forall sres items,
     Client.getSponsored b q = Returned sres ->
     getprop_opt (getprop_opt sres "data") "items" = VArr items ->
     (forallb (fun r => negb (nullish r)) items = false ->
      Client.fetch_sponsored b q = []) /\
     (forallb (fun r => negb (nullish r)) items = true ->
      List.length (Client.fetch_sponsored b q) = List.length items /\
      forall i it,
        nth_error items i = Some it ->
        exists entry price,
          nth_error (Client.fetch_sponsored b q) i = Some entry /\
          getprop it "price" = Returned price /\
          getprop entry "currentPrice" = Returned price /\
          getprop entry "sponsored" = Returned (VBool true) /\
          getprop entry "_id"
          = Returned (VStr ("sponsored-" +:+ Client.index_text i +:+ "-"
                            +:+ Client.random_digits b i)))).
Proof.
  split; [|split].
  - intros m H. unfold Client.fetch_sponsored. now rewrite H.
  - intros sres H Ha. unfold Client.fetch_sponsored. rewrite H. cbn [obind].
    unfold JS.or.
    destruct (getprop_opt (getprop_opt sres "data") "items") eqn:E;
      cbn [truthy]; try reflexivity; try discriminate;
      repeat match goal with
             | |- context [if ?c then _ else _] => destruct c
             end; reflexivity.
  - intros sres items H Hi. unfold Client.fetch_sponsored.
    rewrite H. cbn [obind]. rewrite Hi. cbn [JS.or truthy]. split.
    + intros Hn. destruct (map_from_throws b items Hn 0) as [m ->].
      reflexivity.
    + intros Hn.
      destruct (map_from_returns b items Hn 0) as (entries & -> & Hlen & _ & Hnth).
      split; [exact Hlen|]. exact Hnth.
Qed.

Lemma sponsored_entries_witness :
  Client.fetch_sponsored (browser (Threw (Some "Network Error"))) "shoes" = [].
Proof.
  apply (proj1 (sponsored_entries (browser (Threw (Some "Network Error")))
                  "shoes") (Some "Network Error")).
  reflexivity.
Defined.

End ClientSearch.

Section ClientResults.

Lemma filterM_throws (b : Client.Browser) (qlc : string) (l : list value) :
  forallb (fun r => negb (nullish r)) l = false ->
  exists m, Client.filterM (Client.matches b qlc) l = Threw m.
Proof.
  induction l as [|p l IH]; cbn [forallb Client.filterM]; [discriminate|].
  destruct (nullish p) eqn:Hp; cbn [negb andb].
  - intros _. destruct p; try discriminate; cbn; eauto.
  - intros Hl. destruct (Client.matches b qlc p); cbn [obind]; [|eauto].
    destruct (IH Hl) as [m ->]. cbn. eauto.
Qed.

Lemma reduce_min_throws_at (items : list value) (it : value)
    (m : option string) :
  In it items -> Client.safePrice it = Threw m ->
  forall acc, exists m', Client.reduce_min items acc = Threw (Some m').
Proof.
  intros Hin Hit. induction items as [|x items IH]; [contradiction|].
  intros acc. cbn [Client.reduce_min].
  destruct (safePrice_total x) as [[p Hx]|[m' Hx]]; rewrite Hx.
  - cbn [obind]. destruct Hin as [->|Hin]; [congruence|]. now apply IH.
  - cbn. eauto.
Qed.

Lemma computeLowest_throws_at (items : list value) (it : value)
    (m : option string) :
  In it items -> Client.safePrice it = Threw m ->
  exists m', Client.computeLowest (VArr items) = Threw (Some m').
Proof.
  intros Hin Hit. destruct items as [|x items]; [contradiction|].
  unfold Client.computeLowest.
  destruct (reduce_min_throws_at (x :: items) it m Hin Hit Client.Infinity)
    as [m' ->].
  cbn. eauto.
Qed.

(** X23.  A search shows the sponsored entries first and then the tracked
    products whose name, platform or url contains the query, in their
    order; an empty query keeps every tracked product; the lowest price is
    taken over all the entries shown; and the page is no longer loading.
    This holds when the tracked products can be searched and the entries
    to show can be priced.  If a tracked product is [null], or an entry to
    show cannot be priced, the search shows nothing and no lowest
    price. *)
Theorem search_shows_sponsored_then_tracked (b : Client.Browser)
    (st : Client.State) (l : list value) :
  Client.products st = VArr l ->
  (forallb searchable l = true ->
   forallb priceable
     (Client.fetch_sponsored b (trim (Client.query st))
      ++ kept_products b (trim (Client.query st)) l) = true ->
   exists lowest,
     Client.handleSearch b st
     = {| Client.query := Client.query st; Client.products := VArr l;
          Client.results :=
            VArr (Client.fetch_sponsored b (trim (Client.query st))
                  ++ kept_products b (trim (Client.query st)) l);
          Client.lowestPrice := lowest; Client.loading := false |} /\
     Client.computeLowest
       (VArr (Client.fetch_sponsored b (trim (Client.query st))
              ++ kept_products b (trim (Client.query st)) l))
     = Returned lowest) /\
  (forallb (fun r => negb (nullish r)) l = false ->
   Client.handleSearch b st = emptied (Client.query st) (VArr l)) /\
  (forallb searchable l = true ->
   forall it m,
     In it (Client.fetch_sponsored b (trim (Client.query st))
            ++ kept_products b (trim (Client.query st)) l) ->
     Client.safePrice it = Threw m ->
     Client.handleSearch b st = emptied (Client.query st) (VArr l)).
Proof.
  intros Hp.
  assert (Hrun : forallb searchable l = true ->
            Client.handleSearch b st
            = match Client.computeLowest
                      (VArr (Client.fetch_sponsored b (trim (Client.query st))
                             ++ kept_products b (trim (Client.query st)) l))
              with
              | Returned lowest =>
                  {| Client.query := Client.query st;
                     Client.products := VArr l;
                     Client.results :=
                       VArr (Client.fetch_sponsored b (trim (Client.query st))
                             ++ kept_products b (trim (Client.query st)) l);
                     Client.lowestPrice := lowest; Client.loading := false |}
              | Threw _ => emptied (Client.query st) (VArr l)
              end).
  { intros Hl. unfold Client.handleSearch, emptied. rewrite Hp.
    unfold kept_products. destruct (string_truthy (trim (Client.query st))).
    - cbn [Client.filter_products].
      rewrite (filterM_searchable b _ l Hl). cbn [obind Client.spread].
      now destruct (Client.computeLowest _).
    - cbn [obind Client.spread]. now destruct (Client.computeLowest _). }
  split; [|split].
  - intros Hl Hprice.
    destruct (computeLowest_spec _ Hprice) as (prices & lowest & _ & Hlow & _).
    exists lowest. split; [|exact Hlow]. now rewrite (Hrun Hl), Hlow.
  - intros Hn. unfold Client.handleSearch, emptied. rewrite Hp.
    destruct (string_truthy (trim (Client.query st))).
    + cbn [Client.filter_products].
      destruct (filterM_throws b (Client.toLowerCase b (trim (Client.query st)))
                  l Hn) as [m ->].
      reflexivity.
    + cbn [obind Client.spread].
      set (all := Client.fetch_sponsored b (trim (Client.query st)) ++ l).
      assert (Hall : forallb (fun r => negb (nullish r)) all = false).
      { subst all. rewrite forallb_app, Hn. apply andb_false_r. }
      destruct all as [|x all]; [discriminate|].
      unfold Client.computeLowest.
      destruct (reduce_min_throws (x :: all) Hall Client.Infinity) as [m ->].
      reflexivity.
  - intros Hl it m Hin Hit. rewrite (Hrun Hl).
    destruct (computeLowest_throws_at _ it m Hin Hit) as [m' ->].
    reflexivity.
Qed.

Lemma search_shows_sponsored_then_tracked_witness :
  exists lowest,
    Client.handleSearch (browser (Threw (Some "Network Error")))
      (searching " TV " [tracked "tv" (1999 # 100); tracked "pc" 8])
    = {| Client.query := " TV ";
         Client.products := VArr [tracked "tv" (1999 # 100); tracked "pc" 8];
         Client.results :=
           VArr (Client.fetch_sponsored (browser (Threw (Some "Network Error")))
                   (trim " TV ")
                 ++ kept_products (browser (Threw (Some "Network Error")))
                      (trim " TV ")
                      [tracked "tv" (1999 # 100); tracked "pc" 8]);
         Client.lowestPrice := lowest; Client.loading := false |} /\
    Client.computeLowest
      (VArr (Client.fetch_sponsored (browser (Threw (Some "Network Error")))
               (trim " TV ")
             ++ kept_products (browser (Threw (Some "Network Error")))
                  (trim " TV ")
                  [tracked "tv" (1999 # 100); tracked "pc" 8]))
    = Returned lowest.
Proof.
  apply (proj1 (search_shows_sponsored_then_tracked
                  (browser (Threw (Some "Network Error")))
                  (searching " TV " [tracked "tv" (1999 # 100); tracked "pc" 8])
                  [tracked "tv" (1999 # 100); tracked "pc" 8] eq_refl)).
  - reflexivity.
  - reflexivity.
Defined.

(** The search of the witness keeps the television set alone. *)
Example search_for_tv :
  Client.results
    (Client.handleSearch (browser (Threw (Some "Network Error")))
       (searching " TV " [tracked "tv" (1999 # 100); tracked "pc" 8]))
  = VArr [tracked "tv" (1999 # 100)].
Proof. vm_compute. reflexivity. Qed.

End ClientResults.

Section ClientRefresh.

(** X24.  Loading the page: when the list call fails, or one of the
    products of the answer is [null] or cannot be priced, the page ends
    with no product, no result and no lowest price; when the products of
    the answer can be priced, they are both the tracked products and the
    results, and the lowest price is taken over them.  An answer without
    products counts as an empty list.  In every case the page is no
    longer loading. *)
Theorem refresh_replaces_products (b : Client.Browser) (st : Client.State) :
  (forall m, Client.getAll b = Threw m ->
     Client.fetchProducts b st = emptied (Client.query st) (VArr [])) /\
  (forall res data,
     Client.getAll b = Returned res ->
     getprop res "data" = Returned data ->
     nullish data = false ->
     truthy (getprop_opt data "products") = false ->
     Client.fetchProducts b st = emptied (Client.query st) (VArr [])) /\
  (forall res l,
     Client.getAll b = Returned res ->
     getprop_opt (getprop_opt res "data") "products" = VArr l ->
     (forallb (fun r => negb (nullish r)) l = false ->
      Client.fetchProducts b st = emptied (Client.query st) (VArr [])) /\
     (forall it m, In it l -> Client.safePrice it = Threw m ->
      Client.fetchProducts b st = emptied (Client.query st) (VArr [])) /\
     (forallb priceable l = true ->
      exists lowest,
        Client.fetchProducts b st
        = {| Client.query := Client.query st; Client.products := VArr l;
             Client.results := VArr l; Client.lowestPrice := lowest;
             Client.loading := false |} /\
        Client.computeLowest (VArr l) = Returned lowest)).
Proof.
  split; [|split].
  - intros m H. unfold Client.fetchProducts. now rewrite H.
  - intros res data H Hd Hn Hp. unfold Client.fetchProducts.
    rewrite H. cbn [obind]. rewrite Hd. cbn [obind].
    destruct (getprop_returned data "products" Hn) as [ps Hps].
    unfold getprop_opt in Hp. rewrite Hps in *. cbn [obind].
    unfold JS.or. rewrite Hp. reflexivity.
  - intros res l H Hl.
    assert (Hd : exists data, getprop res "data" = Returned data /\
                              getprop data "products" = Returned (VArr l)).
    { unfold getprop_opt in Hl at 2.
      destruct (getprop res "data") as [data|]; [|discriminate].
      exists data. split; [reflexivity|].
      unfold getprop_opt in Hl.
      destruct (getprop data "products"); [now subst|discriminate]. }
    destruct Hd as (data & Hd & Hps).
    unfold Client.fetchProducts. rewrite H. cbn [obind].
    rewrite Hd. cbn [obind]. rewrite Hps. cbn [obind JS.or truthy].
    split; [|split].
    + intros Hn. destruct l as [|x l]; [discriminate|].
      unfold Client.computeLowest.
      destruct (reduce_min_throws (x :: l) Hn Client.Infinity) as [m ->].
      reflexivity.
    + intros it m Hin Hit.
      destruct (computeLowest_throws_at l it m Hin Hit) as [m' ->].
      reflexivity.
    + intros Hn.
      destruct (computeLowest_spec l Hn) as (prices & lowest & _ & Hlow & _).
      exists lowest. split; [|exact Hlow]. now rewrite Hlow.
Qed.

Lemma refresh_replaces_products_witness :
  Client.fetchProducts (browser (Threw None)) (searching "tv" [tracked "tv" 8])
  = emptied "tv" (VArr []).
Proof.
  apply (proj1 (refresh_replaces_products (browser (Threw None))
                  (searching "tv" [tracked "tv" 8]))
           (Some "Network Error")).
  reflexivity.
Defined.

End ClientRefresh.

(** ** The gateway and the page together *)

Section EndToEnd.

Local Open Scope Q_scope.

Lemma safePrice_entry (id name platform url price flag : value) :
  Client.safePrice
    (VObj [("_id", id); ("name", name); ("platform", platform); ("url", url);
           ("currentPrice", price); ("sponsored", flag)])
  = (parsed <-- parsePrice price ;;
     Returned (match parsed with
               | Some n => Client.Finite n
               | None => Client.Infinity
               end)).
Proof.
  rewrite safePrice_object. cbn [assoc String.eqb Ascii.eqb Bool.eqb].
  rewrite first_parsed_cons. now destruct (parsePrice price) as [[n|]|].
Qed.

Lemma entries_same_price (b : Client.Browser) (offers : list Offer.t)
    (items : list value) :
  Forall2 carries offers items ->
  (forall o p, In o offers -> Offer.price o = Some p -> plain_decimal p) ->
  forall idx,
    exists entries prices,
      Client.map_from b idx items = Returned entries /\
      mapM Client.safePrice entries = Returned prices /\
      Forall2 same_price offers prices.
Proof.
  induction 1 as [|o it offers items [Hit Hprice] _ IH]; intros Hdec idx.
  - exists [], []. repeat split. constructor.
  - destruct IH with (idx := S idx) as (entries & prices & Hm & Hs & Hsame).
    { intros o' p Ho'. apply Hdec. now right. }
    cbn [Client.map_from].
    destruct (as_product_shape b idx it Hit) as (n0 & pl & u & pr & Hpr & ->).
    rewrite Hm. cbn [obind]. rewrite Hprice in Hpr. injection Hpr as <-.
    assert (Hparsed : exists n,
              parsePrice (price_json (Offer.price o)) = Returned (finite n)
              /\ same_price o n).
    { unfold same_price.
      destruct (Offer.price o) as [p|] eqn:Hp; cbn [price_json].
      - unfold parsePrice. cbn [String_ obind].
        destruct (print_then_parse p (Hdec o p (or_introl eq_refl) Hp))
          as (v & -> & Hv).
        now exists (Client.Finite v).
      - now exists Client.Infinity. }
    destruct Hparsed as (n & Hn & Hon).
    exists (VObj [("_id", VStr ("sponsored-" +:+ Client.index_text idx +:+ "-"
                                +:+ Client.random_digits b idx));
                  ("name", n0); ("platform", pl); ("url", u);
                  ("currentPrice", price_json (Offer.price o));
                  ("sponsored", VBool true)] :: entries).
    exists (n :: prices). split; [reflexivity|].
    cbn [mapM]. rewrite safePrice_entry, Hn, Hs. cbn [obind].
    split; [now destruct n|]. now constructor.
Qed.

Lemma same_price_in (offers : list Offer.t) (ps : list Client.number) :
  Forall2 same_price offers ps ->
  (forall m, In (Some m) (prices offers) ->
     exists v, In (Client.Finite v) ps /\ v == m) /\
  (forall v, In (Client.Finite v) ps ->
     exists m, In (Some m) (prices offers) /\ v == m).
Proof.
  induction 1 as [|o n offers ps Hon _ [IH1 IH2]]; cbn [prices map In].
  - split; intros ? [].
  - unfold same_price in Hon. split.
    + intros m [Hm|Hm].
      * rewrite Hm in Hon. destruct n as [v|]; [|contradiction].
        exists v. split; [now left|exact Hon].
      * destruct (IH1 m Hm) as (v & Hv & Hvm). exists v. split; [now right|exact Hvm].
    + intros v [Hv|Hv].
      * subst n. destruct (Offer.price o) as [m|]; [|contradiction].
        exists m. split; [now left|exact Hon].
      * destruct (IH2 v Hv) as (m & Hm & Hvm). exists m. split; [now right|exact Hvm].
Qed.

(** X25.  The gateway and the page agree on the lowest sponsored price:
    when the page receives one item per offer of the gateway, each with
    the offer's price, the lowest price the page computes over its
    sponsored entries is the lowest price the gateway computes over the
    offers, and both are [null] together. *)
Theorem page_lowest_agrees_with_gateway (b : Client.Browser) (q : string)
    (sres : value) (items : list value) (offers : list Offer.t) :
  Client.getSponsored b q = Returned sres ->
  getprop_opt (getprop_opt sres "data") "items" = VArr items ->
  Forall2 carries offers items ->
  (forall o p, In o offers -> Offer.price o = Some p -> plain_decimal p) ->
  exists r,
    Client.computeLowest (VArr (Client.fetch_sponsored b q)) = Returned r /\
    same_number r (Sponsored.lowestPrice offers).
Proof.
  intros Hs Hi Hc Hdec.
  destruct (entries_same_price b offers items Hc Hdec 0%nat)
    as (entries & ps & Hm & Hps & Hsame).
  assert (Hf : Client.fetch_sponsored b q = entries).
  { unfold Client.fetch_sponsored. rewrite Hs. cbn [obind]. rewrite Hi.
    cbn [JS.or truthy]. now rewrite Hm. }
  rewrite Hf.
  destruct (computeLowest_prices entries ps Hps) as (r & Hr & Hnone & Hsome).
  exists r. split; [exact Hr|].
  destruct (same_price_in offers ps Hsame) as [Hto Hfrom].
  destruct (Sponsored.lowestPrice offers) as [m|] eqn:Hl.
  - apply lowestPrice_some in Hl as [Hin Hle].
    destruct (Hto m Hin) as (v & Hv & Hvm).
    destruct r as [m'|].
    + destruct (Hsome m' eq_refl) as [Hin' Hle'].
      destruct (Hfrom m' Hin') as (m'' & Hm'' & Hmm). cbn.
      apply Qle_antisym.
      * rewrite <- Hvm. now apply Hle'.
      * rewrite Hmm. now apply Hle.
    + exfalso. now apply (proj1 Hnone eq_refl v).
  - destruct r as [m'|]; [|exact I].
    destruct (Hsome m' eq_refl) as [Hin' _].
    destruct (Hfrom m' Hin') as (m'' & Hm'' & _).
    now apply (proj1 (lowestPrice_none offers) Hl m'').
Qed.

Lemma page_lowest_agrees_with_gateway_witness :
  exists r,
    Client.computeLowest
      (VArr (Client.fetch_sponsored
               (browser (Returned (sponsored_answer
                                     [VObj [("price", VNum 5)];
                                      VObj [("price", VNull)]])))
               "tv"))
    = Returned r /\
    same_number r (Sponsored.lowestPrice [priced (Some 5); priced None]).
Proof.
  apply (page_lowest_agrees_with_gateway
           (browser (Returned (sponsored_answer
                                 [VObj [("price", VNum 5)];
                                  VObj [("price", VNull)]])))
           "tv"
           (sponsored_answer [VObj [("price", VNum 5)]; VObj [("price", VNull)]])
           [VObj [("price", VNum 5)]; VObj [("price", VNull)]]
           [priced (Some 5); priced None]).
  - reflexivity.
  - reflexivity.
  - repeat constructor.
  - intros o p [<-|[<-|[]]] [= <-].
    exists 5%Z, 0%nat. split; [reflexivity|]. split; [reflexivity|lia].
Defined.

End EndToEnd.
